(** * PixelSheets: the cell store, the column letters and the formula engine

    A shallow embedding of the spreadsheet application.

    - [Columns]: the column-letter renderers of the grid
      ([getColumnLetter] in ResizableGrid.tsx) and of the pages
      (the inline [String.fromCharCode(64 + column)] of spreadsheet.tsx).
    - [Store]: the cell collection of [JsonFileStorage] (json-storage.ts):
      [getCell], [createCell], [updateCell], [updateCellByPosition], the
      sample data, and the client write path ([handleCellUpdate],
      [getCellValue]).
    - [Engine]: the formula engine (client/src/lib/formula-engine.ts), which
      the application imports but whose file is not part of the sources
      at hand; it is modelled from the specification. *)

From Stdlib Require Import ZArith NArith List Lia.
From Stdlib Require Import QArith Qcanon Ascii String.
From Equations Require Import Equations.
From stdpp Require Import base option list strings gmap sets.

Set Default Proof Using "Type".
Local Open Scope Z_scope.

(* ===================================================================== *)
(** * Column letters *)
(* ===================================================================== *)

Module Columns.

(** A JavaScript string is a sequence of UTF-16 code units. *)
Definition jsstring := list N.

(** [String.fromCharCode(n)]: one code unit, [n] taken modulo 2^16. *)
Definition fromCharCode (n : N) : jsstring := [(n mod 65536)%N].

(** The loop of [getColumnLetter]:
<<
    let result = "";
    while (col > 0) {
      col--;
      result = String.fromCharCode(65 + (col % 26)) + result;
      col = Math.floor(col / 26);
    }
    return result;
>>
    The loop state is the pair [(col, result)]. *)
Equations? columnLoop (col : N) (result : jsstring) : jsstring
  by wf (N.to_nat col) lt :=
  columnLoop N0 result := result;
  columnLoop (Npos p) result :=
    columnLoop ((Npos p - 1) / 26)%N
               (fromCharCode (65 + (Npos p - 1) mod 26)%N ++ result).
Proof.
  assert (H : ((N.pos p - 1) / 26 <= N.pos p - 1)%N)
    by (apply N.Div0.div_le_upper_bound; lia).
  lia.
Qed.

Definition getColumnLetter (col : N) : jsstring := columnLoop col [].





End Columns.

(* ===================================================================== *)
(** * The cell store (JsonFileStorage) *)
(* ===================================================================== *)

Module Store.

(** [dataType] of a cell: ["text" | "number" | "formula"]. *)
Inductive DataType := text | number | formula.

#[global] Instance DataType_eq_dec : EqDecision DataType.
Proof. solve_decision. Defined.

(** Cell formatting is an opaque JSON object for the store. *)
Definition Formatting := list (string * string).

(** A stored cell. Numbers ([id], [sheetId], [row], [column], the dates)
    are integer-valued. [cell_value] and [cell_formula] are [None] when
    the property is undefined or null. [cell_calculated_value] is the
    optional property the grid probes with ['calculated_value' in cell]. *)
Record Cell := mkCell {
  cell_id : Z;
  cell_sheetId : Z;
  cell_row : Z;
  cell_column : Z;
  cell_value : option string;
  cell_formula : option string;
  cell_dataType : DataType;
  cell_formatting : option Formatting;
  cell_createdAt : Z;
  cell_updatedAt : Z;
  cell_calculated_value : option string
}.

(** [InsertCell]: what [createCell] receives. *)
Record InsertCell := mkInsertCell {
  ins_sheetId : Z;
  ins_row : Z;
  ins_column : Z;
  ins_value : option string;
  ins_formula : option string;
  ins_dataType : DataType;
  ins_formatting : option Formatting
}.

(** [Partial<Cell>]: every property of a cell may be present or absent.
    [None] is an absent key; for the nullable properties [Some None] is a
    key that is present with the value null (or undefined). *)
Record Updates := mkUpdates {
  u_id : option Z;
  u_sheetId : option Z;
  u_row : option Z;
  u_column : option Z;
  u_value : option (option string);
  u_formula : option (option string);
  u_dataType : option DataType;
  u_formatting : option (option Formatting);
  u_createdAt : option Z;
  u_updatedAt : option Z
}.

(** The part of the storage object the cell methods touch:
    [this.data.cells] and [this.counters.cells]. Writing the collection to
    disk ([saveData]) does not change either. *)
Record Storage := mkStorage {
  cells : list Cell;
  counters_cells : Z
}.

(** A method either returns or throws an [Error] with a message. *)
Inductive result (A : Type) :=
| Ok (a : A)
| Throw (msg : string).
Arguments Ok {A} a.
Arguments Throw {A} msg.

(** The predicate of [getCell]:
    [c.sheetId === sheetId && c.row === row && c.column === column]. *)
Definition atPosition (sheetId row column : Z) (c : Cell) : Prop :=
  cell_sheetId c = sheetId ∧ cell_row c = row ∧ cell_column c = column.

#[global] Instance atPosition_dec sheetId row column c :
  Decision (atPosition sheetId row column c).
Proof. unfold atPosition. apply _. Defined.

(** [getCell]: [this.data.cells.find(...)], the first match. *)
Definition getCell (st : Storage) (sheetId row column : Z) : option Cell :=
  snd <$> list_find (atPosition sheetId row column) (cells st).

(** [getCellsBySheet]: [this.data.cells.filter(c => c.sheetId === sheetId)]. *)
Definition getCellsBySheet (st : Storage) (sheetId : Z) : list Cell :=
  filter (fun c => cell_sheetId c = sheetId) (cells st).

(** [createCell]:
<<
    const cell = { id: this.counters.cells++, ...insertCell,
                   createdAt: new Date(), updatedAt: new Date() };
    this.data.cells.push(cell);
    return cell;
>>
    [now] is the value of [new Date()]. *)
Definition createCell (st : Storage) (ins : InsertCell) (now : Z)
  : Storage * Cell :=
  let cell := {| cell_id := counters_cells st;
                 cell_sheetId := ins_sheetId ins;
                 cell_row := ins_row ins;
                 cell_column := ins_column ins;
                 cell_value := ins_value ins;
                 cell_formula := ins_formula ins;
                 cell_dataType := ins_dataType ins;
                 cell_formatting := ins_formatting ins;
                 cell_createdAt := now;
                 cell_updatedAt := now;
                 cell_calculated_value := None |} in
  ({| cells := cells st ++ [cell];
      counters_cells := counters_cells st + 1 |}, cell).

(** [{ ...cell, ...updates, updatedAt: new Date() }]: the keys present in
    [updates] replace those of the cell, then [updatedAt] is set. *)
Definition spread (c : Cell) (u : Updates) (now : Z) : Cell :=
  {| cell_id := default (cell_id c) (u_id u);
     cell_sheetId := default (cell_sheetId c) (u_sheetId u);
     cell_row := default (cell_row c) (u_row u);
     cell_column := default (cell_column c) (u_column u);
     cell_value := default (cell_value c) (u_value u);
     cell_formula := default (cell_formula c) (u_formula u);
     cell_dataType := default (cell_dataType c) (u_dataType u);
     cell_formatting := default (cell_formatting c) (u_formatting u);
     cell_createdAt := default (cell_createdAt c) (u_createdAt u);
     cell_updatedAt := now;
     cell_calculated_value := cell_calculated_value c |}.

(** [updateCell]:
<<
    const index = this.data.cells.findIndex(c => c.id === id);
    if (index === -1) throw new Error("Cell not found");
    this.data.cells[index] = { ...this.data.cells[index], ...updates,
                               updatedAt: new Date() };
    return this.data.cells[index];
>> *)
Definition updateCell (st : Storage) (id : Z) (u : Updates) (now : Z)
  : result (Storage * Cell) :=
  match list_find (fun c => cell_id c = id) (cells st) with
  | None => Throw "Cell not found"
  | Some (index, c) =>
      let c' := spread c u now in
      Ok ({| cells := <[index := c']> (cells st);
             counters_cells := counters_cells st |}, c')
  end.

(** [updateCellByPosition]:
<<
    const existingCell = await this.getCell(sheetId, row, column);
    if (existingCell) {
      return this.updateCell(existingCell.id, updates);
    } else {
      return this.createCell({ sheetId, row, column,
        value: updates.value, formula: updates.formula,
        dataType: updates.dataType || "text",
        formatting: updates.formatting });
    }
>> *)
Definition updateCellByPosition (st : Storage) (sheetId row column : Z)
    (u : Updates) (now : Z) : result (Storage * Cell) :=
  match getCell st sheetId row column with
  | Some existingCell => updateCell st (cell_id existingCell) u now
  | None =>
      Ok (createCell st
            {| ins_sheetId := sheetId;
               ins_row := row;
               ins_column := column;
               ins_value := mjoin (u_value u);
               ins_formula := mjoin (u_formula u);
               ins_dataType := default text (u_dataType u);
               ins_formatting := mjoin (u_formatting u) |} now)
  end.

(** An update object without any key. *)
Definition noUpdates : Updates :=
  {| u_id := None; u_sheetId := None; u_row := None; u_column := None;
     u_value := None; u_formula := None; u_dataType := None;
     u_formatting := None; u_createdAt := None; u_updatedAt := None |}.

(** ** The sample data *)

(** The rows of [sampleCells] in [initializeSampleData]:
    (row, column, value, dataType, formula). *)
Definition sampleCells : list (Z * Z * string * DataType * option string) :=
  [ (1, 1, "Revenue", text, None);
    (1, 2, "50000", number, None);
    (1, 3, "55000", number, None);
    (2, 1, "Expenses", text, None);
    (2, 2, "35000", number, None);
    (2, 3, "38000", number, None);
    (3, 1, "Profit", text, None);
    (3, 2, "=B1-B2", formula, Some "=B1-B2");
    (3, 3, "=C1-C2", formula, Some "=C1-C2") ].

(** The body of [sampleCells.forEach]: build the cell with the next id and
    push it. [sheet] is the id of the sample sheet. *)
Definition pushSampleCell (sheet now : Z) (st : Storage)
    (cellData : Z * Z * string * DataType * option string) : Storage :=
  let '(r, c, v, dt, f) := cellData in
  {| cells := cells st ++
       [ {| cell_id := counters_cells st;
            cell_sheetId := sheet;
            cell_row := r;
            cell_column := c;
            cell_value := Some v;
            cell_formula := f;
            cell_dataType := dt;
            cell_formatting := Some [];
            cell_createdAt := now;
            cell_updatedAt := now;
            cell_calculated_value := None |} ];
     counters_cells := counters_cells st + 1 |}.

(** A new storage object: no cells, the counter at 1. *)
Definition emptyStorage : Storage := {| cells := []; counters_cells := 1 |}.

(** The cells after [initializeSampleData]; the sample sheet is the first
    sheet, with id 1. *)
Definition sampleStorage (now : Z) : Storage :=
  fold_left (pushSampleCell 1 now) sampleCells emptyStorage.

(** ** The client write path *)

Section Client.

(** [isNaN(Number(value))] of the JavaScript runtime. *)
Variable isNaN_Number : string -> bool.

Definition startsWithEq (value : string) : bool :=
  match value with
  | String "="%char _ => true
  | _ => false
  end.

(** The body that [handleCellUpdate] (spreadsheet.tsx) sends with its PUT
    request:
<<
    let processedValue = value; let dataType = 'text';
    let processedFormula = formula;
    if (value.startsWith('=')) {
      dataType = 'formula'; processedFormula = value; processedValue = value;
    } else if (!isNaN(Number(value)) && value !== '') {
      dataType = 'number';
    }
    body: JSON.stringify({ value: processedValue,
                           formula: processedFormula, dataType })
>>
    [JSON.stringify] leaves out a key whose value is undefined. *)
Definition handleCellUpdate_body (value : string) (formula_arg : option string)
  : Updates :=
  let dataType :=
    if startsWithEq value then formula
    else if negb (isNaN_Number value) && negb (String.eqb value "")
         then number else text in
  let processedFormula :=
    if startsWithEq value then Some value else formula_arg in
  {| u_id := None; u_sheetId := None; u_row := None; u_column := None;
     u_value := Some (Some value);
     u_formula := match processedFormula with
                  | Some f => Some (Some f)
                  | None => None
                  end;
     u_dataType := Some dataType;
     u_formatting := None; u_createdAt := None; u_updatedAt := None |}.

(** The route [PUT /api/sheets/:sheetId/cells/:row/:column] hands the
    request body to [updateCellByPosition]. A handler without an active
    sheet returns at once and sends nothing; [activeSheet] is the sheet of
    a handler that goes on. *)
Definition handleCellUpdate (st : Storage) (activeSheet row column : Z)
    (value : string) (formula_arg : option string) (now : Z)
  : result (Storage * Cell) :=
  updateCellByPosition st activeSheet row column
    (handleCellUpdate_body value formula_arg) now.

End Client.

(** [getCellValue] of the grid (ResizableGrid.tsx), on the cells of the
    active sheet:
<<
    const cell = cells?.find(c => c.row === row && c.column === column);
    if (!cell) return "";
    if (cell.dataType === 'formula' && 'calculated_value' in cell) {
      return String(cell.calculated_value);
    }
    return cell.value || "";
>> *)
Definition getCellValue (cells : list Cell) (row column : Z) : string :=
  match list_find (fun c => cell_row c = row ∧ cell_column c = column) cells with
  | None => ""
  | Some (_, cell) =>
      match cell_dataType cell, cell_calculated_value cell with
      | formula, Some v => v
      | _, _ => default "" (cell_value cell)
      end
  end.

(** [getCellDisplayValue]: the text shown for editing. *)
Definition getCellDisplayValue (cells : list Cell) (row column : Z) : string :=
  match list_find (fun c => cell_row c = row ∧ cell_column c = column) cells with
  | None => ""
  | Some (_, cell) =>
      match cell_dataType cell, cell_formula cell with
      | formula, Some f => if String.eqb f "" then default "" (cell_value cell) else f
      | _, _ => default "" (cell_value cell)
      end
  end.

(** ** Store invariants *)

(** The position of a cell. *)
Definition position (c : Cell) : Z * Z * Z :=
  (cell_sheetId c, cell_row c, cell_column c).

(** At most one cell per position. *)
Definition uniquePositions (st : Storage) : Prop :=
  NoDup (position <$> cells st).

(** Ids are distinct and below the counter, as [counters.cells++] hands
    them out. *)
Definition uniqueIds (st : Storage) : Prop :=
  NoDup (cell_id <$> cells st) ∧
  Forall (fun c => cell_id c < counters_cells st) (cells st).

(** The updates carry none of the keys that identify or place a cell. *)
Definition contentOnly (u : Updates) : Prop :=
  u_id u = None ∧ u_sheetId u = None ∧ u_row u = None ∧ u_column u = None.

(** ** Sequences of writes *)

(** One call of [updateCellByPosition]. *)
Record Write := mkWrite {
  w_sheetId : Z;
  w_row : Z;
  w_column : Z;
  w_updates : Updates;
  w_now : Z
}.

Definition w_position (w : Write) : Z * Z * Z :=
  (w_sheetId w, w_row w, w_column w).

(** The calls made one after the other; a throw ends the sequence. *)
Fixpoint runWrites (st : Storage) (ws : list Write) : result Storage :=
  match ws with
  | [] => Ok st
  | w :: ws' =>
      match updateCellByPosition st (w_sheetId w) (w_row w) (w_column w)
              (w_updates w) (w_now w) with
      | Ok (st', _) => runWrites st' ws'
      | Throw msg => Throw msg
      end
  end.

(** What a cell says about its content. *)
Definition Content : Type := option string * option string * DataType.

Definition content (c : Cell) : Content :=
  (cell_value c, cell_formula c, cell_dataType c).

(** The content a position holds after a write with [u]: a first write
    takes value and formula from [u] and the type from [u] or ["text"];
    a later write replaces what [u] carries and keeps the rest. *)
Definition writeContent (old : option Content) (u : Updates) : Content :=
  match old with
  | None =>
      (mjoin (u_value u), mjoin (u_formula u), default text (u_dataType u))
  | Some (v, f, d) =>
      (default v (u_value u), default f (u_formula u),
       default d (u_dataType u))
  end.

(** The content of position [p] after the writes [ws], from [init]. *)
Definition contentAfter (p : Z * Z * Z) (init : option Content)
    (ws : list Write) : option Content :=
  fold_left
    (fun acc w =>
       if decide (w_position w = p)
       then Some (writeContent acc (w_updates w)) else acc)
    ws init.

(** ** States the client can reach *)




(** ** Some update objects *)

(** A write of a value only. *)
Definition valueOnly (v : string) : Updates :=
  {| u_id := None; u_sheetId := None; u_row := None; u_column := None;
     u_value := Some (Some v); u_formula := None; u_dataType := None;
     u_formatting := None; u_createdAt := None; u_updatedAt := None |}.

(** Updates that move the cell one column to the right. *)
Definition moveToColumn (k : Z) : Updates :=
  {| u_id := None; u_sheetId := None; u_row := None; u_column := Some k;
     u_value := None; u_formula := None; u_dataType := None;
     u_formatting := None; u_createdAt := None; u_updatedAt := None |}.

(** Updates that carry a value and the key [row]. *)
Definition valueAndRow (v : string) (r : Z) : Updates :=
  {| u_id := None; u_sheetId := None; u_row := Some r; u_column := None;
     u_value := Some (Some v); u_formula := None; u_dataType := None;
     u_formatting := None; u_createdAt := None; u_updatedAt := None |}.

End Store.

(* ===================================================================== *)
(** * The formula engine *)
(* ===================================================================== *)

(** The application imports a formula engine (formula-engine.ts) that is
    not among the sources. Everything in this module is modelled from the
    specification: the tokenizer (§4.1), the parser (§4.2), the reference
    resolver (§4.3), the function library (§4.4), the evaluator (§4.5) and
    the dependency graph with the recalculation engine (§4.6).

    Numbers are exact rationals ([Qc]); the rounding of floating-point
    arithmetic is not modelled. *)

Module Engine.

Local Set Warnings "-register-all".

(** ** Values and errors *)

Inductive ErrorKind :=
| SyntaxError
| DivisionByZero
| TypeMismatch
| UnknownFunctionError
| ArgumentError
| LookupNotFound
| CircularReference.

(** Modelled from the spec: the errors of the engine (§4.5, §7). An error
    is raised by the cell itself, or it is a [PropagatedError] that wraps
    the kind of the upstream error. *)
Inductive EvaluationError :=
| Failure (k : ErrorKind)
| PropagatedError (k : ErrorKind).

(** Modelled from the spec: the typed values [Number | String | Boolean],
    and the empty value an unset cell resolves to. *)
Inductive value :=
| Number (q : Qc)
| Text (s : string)
| Boolean (b : bool)
| Empty.

Inductive result :=
| Value (v : value)
| Error (e : EvaluationError).

#[global] Instance ErrorKind_eq_dec : EqDecision ErrorKind.
Proof. solve_decision. Defined.
#[global] Instance EvaluationError_eq_dec : EqDecision EvaluationError.
Proof. solve_decision. Defined.

(** ** References and expression trees *)

(** Modelled from the spec: a reference to a single cell, [column] and
    [row] 1-based. *)
Record Reference := mkReference { column : Z; row : Z }.

Inductive BinaryOperator :=
| OpAdd | OpSub | OpMul | OpDiv | OpPow
| OpEq | OpNe | OpLt | OpLe | OpGt | OpGe
| OpConcat.

Inductive UnaryOperator := OpNeg | OpPlus.

Inductive literal :=
| LNumber (q : Qc)
| LString (s : string).

(** Modelled from the spec: the expression node (§3). A range is kept by
    its two corner references. *)
Inductive expr :=
| Literal (l : literal)
| CellRef (r : Reference)
| RangeRef (first last : Reference)
| BinaryOp (op : BinaryOperator) (left right : expr)
| UnaryOp (op : UnaryOperator) (operand : expr)
| FunctionCall (name : string) (args : list expr).

(** ** Tokenizer (§4.1) *)

Inductive token :=
| NUMBER (q : Qc)
| STRING (s : string)
| CELL_REF (r : Reference)
| RANGE_REF (first last : Reference)
| IDENT (name : string)
| OPERATOR (op : BinaryOperator)
| COMMA
| LPAREN
| RPAREN.

Definition isDigit (c : ascii) : bool :=
  (48 <=? nat_of_ascii c)%nat && (nat_of_ascii c <=? 57)%nat.

Definition isUpper (c : ascii) : bool :=
  (65 <=? nat_of_ascii c)%nat && (nat_of_ascii c <=? 90)%nat.

Definition isLower (c : ascii) : bool :=
  (97 <=? nat_of_ascii c)%nat && (nat_of_ascii c <=? 122)%nat.

Definition isIdentStart (c : ascii) : bool :=
  isUpper c || isLower c || Ascii.eqb c "_".

Definition isIdentChar (c : ascii) : bool := isIdentStart c || isDigit c.

Definition isSpace (c : ascii) : bool :=
  Ascii.eqb c " " || (nat_of_ascii c =? 9)%nat ||
  (nat_of_ascii c =? 10)%nat || (nat_of_ascii c =? 13)%nat.

Definition toUpper (c : ascii) : ascii :=
  if isLower c then ascii_of_nat (nat_of_ascii c - 32) else c.

Definition digitValue (c : ascii) : Z := Z.of_nat (nat_of_ascii c) - 48.

(** The longest prefix of characters that satisfy [p], and the rest. *)
Fixpoint span (p : ascii -> bool) (s : string) : string * string :=
  match s with
  | String c s' =>
      if p c then let '(a, b) := span p s' in (String c a, b)
      else (EmptyString, s)
  | EmptyString => (EmptyString, EmptyString)
  end.

Fixpoint digitsValue (acc : Z) (s : string) : Z :=
  match s with
  | String c s' => digitsValue (acc * 10 + digitValue c) s'
  | EmptyString => acc
  end.

Definition Qc_of_Z (z : Z) : Qc := Q2Qc (inject_Z z).

(** 10 to the power [z], for any integer [z]. *)
Definition pow10 (z : Z) : Qc :=
  if (0 <=? z)%Z then Qc_of_Z (10 ^ z)
  else Q2Qc (1 # Z.to_pos (10 ^ (- z))).

(** The value of [intPart.fracPart e expo]. *)
Definition decimalValue (intPart fracPart : string) (expo : Z) : Qc :=
  (Qc_of_Z (digitsValue 0 (intPart ++ fracPart)) *
   pow10 (expo - Z.of_nat (String.length fracPart)))%Qc.

(** A number at the head of [s]: digits, an optional fraction, an optional
    exponent. Returns the value and the rest of the text. *)
Definition lexNumber (s : string) : option (Qc * string) :=
  let '(intPart, r1) := span isDigit s in
  let '(fracPart, r2) :=
    match r1 with
    | String "." r => span isDigit r
    | _ => (EmptyString, r1)
    end in
  if ((String.length intPart + String.length fracPart)%nat =? 0)%nat
  then None
  else
    let plain := Some (decimalValue intPart fracPart 0, r2) in
    let withExp (sign : Z) (r : string) :=
      let '(ds, r3) := span isDigit r in
      if (String.length ds =? 0)%nat then plain
      else Some (decimalValue intPart fracPart (sign * digitsValue 0 ds), r3) in
    match r2 with
    | String ("e" | "E") (String "+" r) => withExp 1 r
    | String ("e" | "E") (String "-" r) => withExp (-1) r
    | String ("e" | "E") r => withExp 1 r
    | _ => plain
    end.

(** The double quote character. *)
Definition quote : ascii := ascii_of_nat 34.

(** A string literal after its opening quote: up to the closing quote,
    a doubled quote standing for one quote. *)
Fixpoint lexString (s : string) : option (string * string) :=
  match s with
  | EmptyString => None
  | String c s' =>
      if Ascii.eqb c quote then
        match s' with
        | String c2 s'' =>
            if Ascii.eqb c2 quote then
              match lexString s'' with
              | Some (body, r) => Some (String quote body, r)
              | None => None
              end
            else Some (EmptyString, s')
        | EmptyString => Some (EmptyString, s')
        end
      else
        match lexString s' with
        | Some (body, r) => Some (String c body, r)
        | None => None
        end
  end.

(** The column number of uppercase letters, [A] = 1 ... [Z] = 26, base 26. *)
Fixpoint lettersValue (acc : Z) (s : string) : Z :=
  match s with
  | String c s' => lettersValue (acc * 26 + (Z.of_nat (nat_of_ascii c) - 64)) s'
  | EmptyString => acc
  end.

Definition stringAll (p : ascii -> bool) (s : string) : bool :=
  forallb p (list_ascii_of_string s).

Definition mapString (f : ascii -> ascii) (s : string) : string :=
  string_of_list_ascii (map f (list_ascii_of_string s)).

(** A cell reference [[A-Z]+[0-9]+], from an uppercase word. *)
Definition cellRefOfWord (w : string) : option Reference :=
  let '(letters, digits) := span isUpper w in
  if negb (String.length letters =? 0)%nat &&
     negb (String.length digits =? 0)%nat &&
     stringAll isDigit digits
  then Some {| column := lettersValue 0 letters; row := digitsValue 0 digits |}
  else None.

Definition tokenizeStep (rec : string -> option (list token)) (s : string)
  : option (list token) :=
  let emit (t : token) (r : string) := cons t <$> rec r in
  match s with
  | EmptyString => Some []
  | String c r =>
      if isSpace c then rec r
      else if isDigit c || Ascii.eqb c "." then
        match lexNumber s with
        | Some (q, r') => emit (NUMBER q) r'
        | None => None
        end
      else if Ascii.eqb c quote then
        match lexString r with
        | Some (body, r') => emit (STRING body) r'
        | None => None
        end
      else if isIdentStart c then
        let '(word, r') := span isIdentChar s in
        let upper := mapString toUpper word in
        match r' with
        | String "(" _ => emit (IDENT upper) r'
        | _ =>
            match cellRefOfWord upper with
            | None => None
            | Some first =>
                match r' with
                | String ":" r'' =>
                    let '(word2, r3) := span isIdentChar r'' in
                    match cellRefOfWord (mapString toUpper word2) with
                    | Some last => emit (RANGE_REF first last) r3
                    | None => None
                    end
                | _ => emit (CELL_REF first) r'
                end
            end
        end
      else
        match c, r with
        | "+", _ => emit (OPERATOR OpAdd) r
        | "-", _ => emit (OPERATOR OpSub) r
        | "*", _ => emit (OPERATOR OpMul) r
        | "/", _ => emit (OPERATOR OpDiv) r
        | "^", _ => emit (OPERATOR OpPow) r
        | "&", _ => emit (OPERATOR OpConcat) r
        | "=", _ => emit (OPERATOR OpEq) r
        | "<", String ">" r' => emit (OPERATOR OpNe) r'
        | "<", String "=" r' => emit (OPERATOR OpLe) r'
        | "<", _ => emit (OPERATOR OpLt) r
        | ">", String "=" r' => emit (OPERATOR OpGe) r'
        | ">", _ => emit (OPERATOR OpGt) r
        | ",", _ => emit COMMA r
        | "(", _ => emit LPAREN r
        | ")", _ => emit RPAREN r
        | _, _ => None
        end
  end%char.

(** Modelled from the spec: the tokenizer of the missing formula engine
    (§4.1). The token sequence of a formula body; every step eats at
    least one character, so the length of the text is enough fuel.
    [None] is a [SyntaxError]. *)
Fixpoint tokenizeFuel (fuel : nat) (s : string) : option (list token) :=
  match fuel with
  | O => match s with EmptyString => Some [] | _ => None end
  | S fuel' => tokenizeStep (tokenizeFuel fuel') s
  end.

(** Modelled from the spec: the tokenizer (§4.1) on a whole formula
    body. *)
Definition tokenize (s : string) : option (list token) :=
  tokenizeFuel (String.length s) s.

(** ** Parser (§4.2) *)

(** A parser takes tokens and returns a tree and the tokens it left;
    [None] is a [SyntaxError]. *)
Definition parser : Type := list token -> option (expr * list token).

Definition isCmpOp (op : BinaryOperator) : bool :=
  match op with
  | OpEq | OpNe | OpLt | OpLe | OpGt | OpGe => true
  | _ => false
  end.

Definition isConcatOp (op : BinaryOperator) : bool :=
  match op with OpConcat => true | _ => false end.

Definition isAddOp (op : BinaryOperator) : bool :=
  match op with OpAdd | OpSub => true | _ => false end.

Definition isMulOp (op : BinaryOperator) : bool :=
  match op with OpMul | OpDiv => true | _ => false end.

(** The arguments of a call after the first: [, expr]* up to the closing
    parenthesis, which is left in place. *)
Fixpoint parseArgsLoop (parseExpr : parser) (n : nat) (ts : list token)
  : option (list expr * list token) :=
  match ts with
  | COMMA :: r =>
      match n with
      | O => None
      | S n' =>
          match parseExpr r with
          | Some (e, r') =>
              match parseArgsLoop parseExpr n' r' with
              | Some (es, r'') => Some (e :: es, r'')
              | None => None
              end
          | None => None
          end
      end
  | _ => Some ([], ts)
  end.

(** Modelled from the spec: level 1 of the parser of the missing formula
    engine (§4.2): number, string, cell ref, range ref, parenthesized
    expression, function call. *)
Definition parsePrimary (parseExpr : parser) (n : nat) : parser :=
  fun ts =>
    match ts with
    | NUMBER q :: r => Some (Literal (LNumber q), r)
    | STRING s :: r => Some (Literal (LString s), r)
    | CELL_REF c :: r => Some (CellRef c, r)
    | RANGE_REF a b :: r => Some (RangeRef a b, r)
    | LPAREN :: r =>
        match parseExpr r with
        | Some (e, RPAREN :: r') => Some (e, r')
        | _ => None
        end
    | IDENT f :: LPAREN :: RPAREN :: r => Some (FunctionCall f [], r)
    | IDENT f :: LPAREN :: r =>
        match parseExpr r with
        | Some (e, r') =>
            match parseArgsLoop parseExpr n r' with
            | Some (es, RPAREN :: r'') => Some (FunctionCall f (e :: es), r'')
            | _ => None
            end
        | None => None
        end
    | _ => None
    end.

(** Modelled from the spec: level 2 of the parser (§4.2), unary [-] and
    [+]. *)
Fixpoint parseUnary (primary : parser) (n : nat) (ts : list token)
  : option (expr * list token) :=
  match ts with
  | OPERATOR OpSub :: r =>
      match n with
      | O => None
      | S n' =>
          match parseUnary primary n' r with
          | Some (e, r') => Some (UnaryOp OpNeg e, r')
          | None => None
          end
      end
  | OPERATOR OpAdd :: r =>
      match n with
      | O => None
      | S n' =>
          match parseUnary primary n' r with
          | Some (e, r') => Some (UnaryOp OpPlus e, r')
          | None => None
          end
      end
  | _ => primary ts
  end.

(** Modelled from the spec: level 3 of the parser (§4.2), [^],
    right-associative. *)
Fixpoint parsePower (unary : parser) (n : nat) (ts : list token)
  : option (expr * list token) :=
  match unary ts with
  | Some (l, OPERATOR OpPow :: r) =>
      match n with
      | O => None
      | S n' =>
          match parsePower unary n' r with
          | Some (rhs, r') => Some (BinaryOp OpPow l rhs, r')
          | None => None
          end
      end
  | res => res
  end.

(** The loop of a left-associative level: while the next token is one of
    the operators of the level, parse an operand of the next level and
    fold it into the left operand. *)
Fixpoint parseLeftLoop (isOp : BinaryOperator -> bool) (sub : parser)
    (n : nat) (lhs : expr) (ts : list token) : option (expr * list token) :=
  match ts with
  | OPERATOR op :: r =>
      if isOp op then
        match n with
        | O => None
        | S n' =>
            match sub r with
            | Some (rhs, r') =>
                parseLeftLoop isOp sub n' (BinaryOp op lhs rhs) r'
            | None => None
            end
        end
      else Some (lhs, ts)
  | _ => Some (lhs, ts)
  end.

Definition parseLeft (isOp : BinaryOperator -> bool) (sub : parser) (n : nat)
  : parser :=
  fun ts =>
    match sub ts with
    | Some (lhs, r) => parseLeftLoop isOp sub n lhs r
    | None => None
    end.

(** Modelled from the spec: the parser of the missing formula engine
    (§4.2), the levels from the comparisons (lowest) up to the
    primaries. Every loop turn and every nesting eats a token, so the
    counters never run out when [fuel] exceeds the number of tokens. *)
Fixpoint parseExpr (fuel : nat) (ts : list token)
  : option (expr * list token) :=
  match fuel with
  | O => None
  | S n =>
      let primary := parsePrimary (parseExpr n) n in
      let unary := parseUnary primary n in
      let power := parsePower unary n in
      let product := parseLeft isMulOp power n in
      let sum := parseLeft isAddOp product n in
      let concat := parseLeft isConcatOp sum n in
      parseLeft isCmpOp concat n ts
  end.


(** The tree of a whole token sequence; tokens left over are a
    [SyntaxError]. *)
Definition parseTokens (ts : list token) : option expr :=
  match parseExpr (S (length ts)) ts with
  | Some (e, []) => Some e
  | _ => None
  end.

(** Modelled from the spec: the tree of a formula text (§4.1, §4.2) in
    the missing formula engine: the leading [=] is stripped, the rest is
    tokenized and parsed. *)
Definition parseFormula (formulaText : string) : option expr :=
  match formulaText with
  | String "="%char body =>
      match tokenize body with
      | Some ts => parseTokens ts
      | None => None
      end
  | _ => None
  end.

(** ** The cell store as the engine sees it (§6) *)

(** A cell coordinate: [(sheetId, row, column)]. *)
Definition coord : Type := Z * Z * Z.

Definition sheetOf (c : coord) : Z := c.1.1.

Definition coordOf (sheetId : Z) (r : Reference) : coord :=
  (sheetId, row r, column r).

(** Modelled from the spec: what [CellStore.getCell] returns,
    [{value, formula?, dataType, calculatedValue?, error?}]. *)
Record cell := mkCell {
  rawValue : string;
  formula : option string;
  dataType : Store.DataType;
  calculatedValue : option value;
  error : option EvaluationError
}.

(** Modelled from the spec: the [CellStore]. [cs !! (sheetId, row, column)]
    is [CellStore.getCell(sheetId, row, column)]. *)
Abbreviation CellStore := (gmap coord cell).

(** Modelled from the spec: [CellStore.setCalculatedValue(sheetId, row,
    column, value | error)]. A success stores the value and clears the
    error, a failure stores the error and clears the value. *)
Definition setCalculatedValue (cs : CellStore) (c : coord) (r : result)
  : CellStore :=
  alter (fun cl =>
           {| rawValue := rawValue cl;
              formula := formula cl;
              dataType := dataType cl;
              calculatedValue :=
                match r with Value v => Some v | Error _ => None end;
              error :=
                match r with Value _ => None | Error e => Some e end |})
        c cs.

(** ** Coercions *)

(** A whole text as a number: an optional sign and a number token. *)
Definition parseNumber (s : string) : option Qc :=
  let '(sign, body) :=
    match s with
    | String "-" r => ((-1)%Z, r)
    | String "+" r => (1%Z, r)
    | _ => (1%Z, s)
    end in
  match lexNumber body with
  | Some (q, EmptyString) => Some (Qc_of_Z sign * q)%Qc
  | _ => None
  end.

(** Modelled from the spec: a literal is coerced to a number or a string
    (§4.3); a cell reset to the empty text is empty. *)
Definition literalValue (raw : string) : value :=
  match parseNumber raw with
  | Some q => Number q
  | None => if String.eqb raw "" then Empty else Text raw
  end.

(** Modelled from the spec: numeric coercion. The empty value is 0, a
    Boolean is 1 or 0, a string that is not a number is a [TypeMismatch]. *)
Definition toNumber (v : value) : Qc + EvaluationError :=
  match v with
  | Number q => inl q
  | Empty => inl 0%Qc
  | Boolean b => inl (if b then 1%Qc else 0%Qc)
  | Text s =>
      match parseNumber s with
      | Some q => inl q
      | None => inr (Failure TypeMismatch)
      end
  end.

(** Modelled from the spec: the part of the function library (§4.4) of
    the missing formula engine and of number handling that the
    specification names without giving its rules: the text of a number,
    powers with an exponent that is not an integer, and the helper
    functions ([LEFT], [RIGHT], [MID], [LEN], [TODAY], [NOW], [DATE],
    [YEAR], [MONTH], [DAY], [ROUND], [ABS], [AND], [OR], [NOT],
    [VLOOKUP]). A helper receives its evaluated arguments. *)
Inductive argument :=
| Scalar (v : value)
| Table (rows : list (list value)).

Class Library := {
  formatNumber : Qc -> string;
  fractionalPower : Qc -> Qc -> result;
  helperFunction : string -> option (list argument -> result)
}.

Section Evaluator.
Context `{Library}.

(** Modelled from the spec: string coercion; the empty value is [""]. *)
Definition toText (v : value) : string :=
  match v with
  | Text s => s
  | Empty => ""
  | Number q => formatNumber q
  | Boolean b => if b then "TRUE" else "FALSE"
  end.

(** ** Reference resolver (§4.3) *)

(** Modelled from the spec: a single cell reference. An unset cell is
    empty; a cell that holds an error passes it on as a [PropagatedError]
    of the original kind; a formula cell gives its [calculatedValue], any
    other cell its literal. *)
Definition resolveCell (cs : CellStore) (c : coord) : result :=
  match cs !! c with
  | None => Value Empty
  | Some cl =>
      match error cl with
      | Some (Failure k) | Some (PropagatedError k) =>
          Error (PropagatedError k)
      | None =>
          match formula cl with
          | Some _ => Value (default Empty (calculatedValue cl))
          | None => Value (literalValue (rawValue cl))
          end
      end
  end.

(** The coordinates of a range, row-major: left to right in a row, rows
    top to bottom. *)
Definition rangeCoords (sheetId : Z) (first last : Reference)
  : list (list coord) :=
  let r1 := Z.min (row first) (row last) in
  let r2 := Z.max (row first) (row last) in
  let c1 := Z.min (column first) (column last) in
  let c2 := Z.max (column first) (column last) in
  map (fun r => map (fun c => (sheetId, r, c)) (seqZ c1 (c2 - c1 + 1)))
      (seqZ r1 (r2 - r1 + 1)).

Definition resolveRange (cs : CellStore) (sheetId : Z) (first last : Reference)
  : list (list result) :=
  map (map (resolveCell cs)) (rangeCoords sheetId first last).

(** ** Operators (§4.5) *)

Definition isInteger (q : Qc) : bool := (Qden (this q) =? 1)%positive.

(** [b] to an integer power: repeated multiplication, the inverse for a
    negative exponent; 0 has no negative power. *)
Definition integerPower (b : Qc) (z : Z) : option Qc :=
  if (0 <=? z)%Z then Some (b ^ Z.to_nat z)%Qc
  else if decide (b = 0%Qc) then None
  else Some ((/ b) ^ Z.to_nat (- z))%Qc.

(** [b ^ e]: the integer power when [e] is an integer, a
    [DivisionByZero] where that has no value; otherwise left to the
    library. *)
Definition power (b e : Qc) : result :=
  if isInteger e then
    match integerPower b (Qnum (this e)) with
    | Some q => Value (Number q)
    | None => Error (Failure DivisionByZero)
    end
  else fractionalPower b e.

Definition arithmetic (op : BinaryOperator) (a b : Qc) : result :=
  match op with
  | OpAdd => Value (Number (a + b)%Qc)
  | OpSub => Value (Number (a - b)%Qc)
  | OpMul => Value (Number (a * b)%Qc)
  | OpDiv =>
      if decide (b = 0%Qc) then Error (Failure DivisionByZero)
      else Value (Number (a / b)%Qc)
  | _ => power a b
  end.

Definition comparisonHolds (op : BinaryOperator) (c : comparison) : bool :=
  match op, c with
  | OpEq, Eq => true
  | OpNe, (Lt | Gt) => true
  | OpLt, Lt => true
  | OpLe, (Lt | Eq) => true
  | OpGt, Gt => true
  | OpGe, (Gt | Eq) => true
  | _, _ => false
  end.

Definition isNumber (v : value) : bool :=
  match v with Number _ => true | _ => false end.

(** Modelled from the spec: a binary operator on two values. Arithmetic
    coerces both operands to numbers; [&] joins their texts; a comparison
    is numeric if either side is a number, else on the texts. *)
Definition binary (op : BinaryOperator) (a b : value) : result :=
  if isConcatOp op then Value (Text (toText a ++ toText b))
  else if isCmpOp op then
    if isNumber a || isNumber b then
      match toNumber a, toNumber b with
      | inl x, inl y => Value (Boolean (comparisonHolds op (x ?= y)%Qc))
      | inr e, _ | _, inr e => Error e
      end
    else Value (Boolean (comparisonHolds op
                           (String.compare (toText a) (toText b))))
  else
    match toNumber a, toNumber b with
    | inl x, inl y => arithmetic op x y
    | inr e, _ | _, inr e => Error e
    end.

Definition unary (op : UnaryOperator) (a : value) : result :=
  match toNumber a with
  | inl x => Value (Number (match op with OpNeg => - x | OpPlus => x end)%Qc)
  | inr e => Error e
  end.

(** ** Function library (§4.4) *)

(** An evaluated argument of a call: the result of an expression, or the
    results of the cells of a range. *)
Inductive argresult :=
| ScalarArg (r : result)
| RangeArg (rows : list (list result)).

(** All argument values in one list, ranges row-major. *)
Definition flatten (args : list argresult) : list result :=
  flat_map (fun a => match a with
                     | ScalarArg r => [r]
                     | RangeArg rows => concat rows
                     end) args.

(** The values of a list of results, or its first error. *)
Fixpoint values (rs : list result) : list value + EvaluationError :=
  match rs with
  | [] => inl []
  | Error e :: _ => inr e
  | Value v :: rs' =>
      match values rs' with
      | inl vs => inl (v :: vs)
      | inr e => inr e
      end
  end.

(** The numeric entries of a value list; the others are skipped. *)
Definition numerics (vs : list value) : list Qc :=
  omap (fun v => match v with Number q => Some q | _ => None end) vs.

Definition sumQc (qs : list Qc) : Qc := fold_left Qcplus qs 0%Qc.

Definition minQc (a b : Qc) : Qc := if Qclt_le_dec b a then b else a.
Definition maxQc (a b : Qc) : Qc := if Qclt_le_dec a b then b else a.

Definition extremum (pick : Qc -> Qc -> Qc) (qs : list Qc) : Qc :=
  match qs with
  | [] => 0%Qc
  | q :: qs' => fold_left pick qs' q
  end.

Definition truthy (v : value) : bool :=
  match v with
  | Number q => negb (bool_decide (q = 0%Qc))
  | Boolean b => b
  | Text s => negb (String.eqb s "")
  | Empty => false
  end.

(** The arguments as a helper receives them, or their first error. *)
Fixpoint helperArguments (args : list argresult)
  : list argument + EvaluationError :=
  match args with
  | [] => inl []
  | a :: args' =>
      let head :=
        match a with
        | ScalarArg (Value v) => inl (Scalar v)
        | ScalarArg (Error e) => inr e
        | RangeArg rows =>
            match values (concat rows) with
            | inr e => inr e
            | inl _ =>
                inl (Table (map (omap (fun r => match r with
                                                | Value v => Some v
                                                | Error _ => None
                                                end)) rows))
            end
        end in
      match head, helperArguments args' with
      | inr e, _ => inr e
      | inl _, inr e => inr e
      | inl x, inl xs => inl (x :: xs)
      end
  end.

(** Modelled from the spec: a call of a function other than [IF] on its
    evaluated arguments. The aggregates flatten their arguments and skip
    what is not a number; [AVERAGE] of no number is a [DivisionByZero];
    an unknown name is an [UnknownFunctionError]. *)
Definition callFunction (name : string) (args : list argresult) : result :=
  let aggregate (f : list Qc -> result) :=
    match values (flatten args) with
    | inr e => Error e
    | inl vs => f (numerics vs)
    end in
  if String.eqb name "SUM" then
    aggregate (fun qs => Value (Number (sumQc qs)))
  else if String.eqb name "AVERAGE" then
    aggregate (fun qs =>
      match qs with
      | [] => Error (Failure DivisionByZero)
      | _ => Value (Number (sumQc qs / Qc_of_Z (Z.of_nat (length qs)))%Qc)
      end)
  else if String.eqb name "COUNT" then
    aggregate (fun qs => Value (Number (Qc_of_Z (Z.of_nat (length qs)))))
  else if String.eqb name "MIN" then
    aggregate (fun qs => Value (Number (extremum minQc qs)))
  else if String.eqb name "MAX" then
    aggregate (fun qs => Value (Number (extremum maxQc qs)))
  else if String.eqb name "CONCATENATE" then
    match values (flatten args) with
    | inr e => Error e
    | inl vs => Value (Text (String.concat "" (map toText vs)))
    end
  else
    match helperFunction name with
    | None => Error (Failure UnknownFunctionError)
    | Some f =>
        match helperArguments args with
        | inr e => Error e
        | inl xs => f xs
        end
    end.

(** ** Evaluator (§4.5) *)

(** Modelled from the spec: the value of an expression tree over a cell
    store. Operands are evaluated left to right and the first error wins;
    [IF] evaluates its condition and then only the branch it chooses; a
    range is a value list only as the argument of a call. *)
Fixpoint eval (cs : CellStore) (sheetId : Z) (e : expr) : result :=
  match e with
  | Literal (LNumber q) => Value (Number q)
  | Literal (LString s) => Value (Text s)
  | CellRef r => resolveCell cs (coordOf sheetId r)
  | RangeRef _ _ => Error (Failure TypeMismatch)
  | UnaryOp op a =>
      match eval cs sheetId a with
      | Value v => unary op v
      | Error err => Error err
      end
  | BinaryOp op a b =>
      match eval cs sheetId a with
      | Error err => Error err
      | Value va =>
          match eval cs sheetId b with
          | Error err => Error err
          | Value vb => binary op va vb
          end
      end
  | FunctionCall name args =>
      if String.eqb name "IF" then
        match args with
        | [c; t; f] =>
            match eval cs sheetId c with
            | Error err => Error err
            | Value v =>
                if truthy v then eval cs sheetId t else eval cs sheetId f
            end
        | _ => Error (Failure ArgumentError)
        end
      else
        callFunction name
          (map (fun a =>
                  match a with
                  | RangeRef first last =>
                      RangeArg (resolveRange cs sheetId first last)
                  | _ => ScalarArg (eval cs sheetId a)
                  end) args)
  end.

(** Modelled from the spec: [Engine.evaluateFormula(sheetId, formulaText)],
    the one-shot evaluation of a formula text over the store; it reads the
    store and nothing else. *)
Definition evaluateFormula (cs : CellStore) (sheetId : Z)
    (formulaText : string) : result :=
  match parseFormula formulaText with
  | Some e => eval cs sheetId e
  | None => Error (Failure SyntaxError)
  end.

End Evaluator.

(** Modelled from the spec: the edges that a formula registers (§4.4,
    §4.6). The cells an expression refers to: every cell reference,
    every cell of every range, in both branches of an [IF]. *)
Fixpoint refs (sheetId : Z) (e : expr) : list coord :=
  match e with
  | Literal _ => []
  | CellRef r => [coordOf sheetId r]
  | RangeRef first last => concat (rangeCoords sheetId first last)
  | BinaryOp _ a b => refs sheetId a ++ refs sheetId b
  | UnaryOp _ a => refs sheetId a
  | FunctionCall _ args => flat_map (refs sheetId) args
  end.

(** ** Dependency graph (§3, §4.6) *)

(** Modelled from the spec: the state of the engine for the sheets it
    serves. [graph] maps every formula cell to the cells its formula
    reads; an edge (A -> B), "B's formula reads A", is the membership of A
    in the list of B. *)
Record EngineState := mkEngine {
  store : CellStore;
  graph : gmap coord (list coord)
}.

(** The cells that [x] reads. *)
Definition precedents (g : gmap coord (list coord)) (x : coord) : list coord :=
  default [] (g !! x).

(** Modelled from the spec: the reverse edges of the dependency graph
    (§4.6), the cells that read [c]. *)
Definition dependents (g : gmap coord (list coord)) (c : coord) : gset coord :=
  filter (fun x => c ∈ precedents g x) (dom g).

(** The least set that contains [X] and is closed under [succ], computed
    by adding the successors of the set until nothing is new. *)
Fixpoint closure (succ : coord -> gset coord) (fuel : nat) (X : gset coord)
  : gset coord :=
  match fuel with
  | O => X
  | S fuel' =>
      let X' := X ∪ set_bind succ X in
      if decide (X' ⊆ X) then X else closure succ fuel' X'
  end.

(** The cells that depend on a cell of [X], in any number of steps, and
    [X] itself. Each round but the last adds a formula cell, so one more
    round than there are formula cells is enough. *)
Definition dependentsClosure (g : gmap coord (list coord)) (X : gset coord)
  : gset coord :=
  closure (dependents g) (S (size (dom g))) X.

(** Modelled from the spec: step 3 of the recalculation algorithm (§4.6),
    the dirty set of a write to [c]. *)
Definition dirtySet (g : gmap coord (list coord)) (c : coord) : gset coord :=
  dependentsClosure g {[c]}.

(** Modelled from the spec: the cycle test of step 4 (§4.6). [x] is on a
    cycle: it depends on itself in one step or more. *)
Definition onCycle (g : gmap coord (list coord)) (x : coord) : Prop :=
  x ∈ dependentsClosure g (dependents g x).

#[global] Instance onCycle_dec g x : Decision (onCycle g x).
Proof. unfold onCycle. apply _. Defined.

(** A cell is ready when none of the cells it reads is still waiting. *)
Definition ready (g : gmap coord (list coord)) (waiting : list coord)
    (x : coord) : Prop :=
  Forall (fun p => p ∉ waiting) (precedents g x).

#[global] Instance ready_dec g waiting x : Decision (ready g waiting x).
Proof. unfold ready. apply _. Defined.

(** Modelled from the spec: step 4 of the recalculation algorithm (§4.6),
    a topological order of the waiting cells, dependencies before
    dependents: take the first ready cell, again and again. *)
Fixpoint topoOrder (g : gmap coord (list coord)) (fuel : nat)
    (waiting : list coord) : list coord :=
  match fuel with
  | O => []
  | S fuel' =>
      match list_find (ready g waiting) waiting with
      | Some (_, x) =>
          x :: topoOrder g fuel' (filter (fun y => y ≠ x) waiting)
      | None => []
      end
  end.

(** ** Recalculation engine (§4.6) *)

Section Recalculation.
Context `{Library}.

(** Modelled from the spec: step 5 of the recalculation algorithm (§4.6),
    for one cell: a formula cell is evaluated and the outcome is
    stored; a cell without a formula has nothing to compute. *)
Definition evaluateCell (cs : CellStore) (c : coord) : CellStore :=
  match cs !! c with
  | Some cl =>
      match formula cl with
      | Some f => setCalculatedValue cs c (evaluateFormula cs (sheetOf c) f)
      | None => cs
      end
  | None => cs
  end.

(** Modelled from the spec: a cell of a cycle is set to the
    [CircularReference] error (§4.6, step 4). *)
Definition markCircular (cs : CellStore) (c : coord) : CellStore :=
  setCalculatedValue cs c (Error (Failure CircularReference)).

(** Modelled from the spec: steps 3 to 5 of the recalculation algorithm
    of the missing formula engine (§4.6): collect the dirty cells of
    [c]; set every dirty cell that is on a cycle to [CircularReference]
    and leave it out of the evaluation; evaluate the others in
    topological order. *)
Definition recalculate (st : EngineState) (c : coord) : EngineState :=
  let g := graph st in
  let dirty := dirtySet g c in
  let cyclic := filter (onCycle g) dirty in
  let marked := fold_left markCircular (elements cyclic) (store st) in
  let waiting := elements (dirty ∖ cyclic) in
  let order := topoOrder g (length waiting) waiting in
  {| store := fold_left evaluateCell order marked; graph := g |}.

End Recalculation.

(** The edges of a formula text: the cells its tree refers to, none if
    the text does not parse. *)
Definition formulaRefs (sheetId : Z) (formulaText : string) : list coord :=
  match parseFormula formulaText with
  | Some e => refs sheetId e
  | None => []
  end.

(** The cell a raw input makes: a formula cell for a text that starts
    with [=], else a literal that is a number or a text. *)
Definition cellOfInput (raw : string) : cell :=
  if Store.startsWithEq raw then
    {| rawValue := raw; formula := Some raw; dataType := Store.formula;
       calculatedValue := None; error := None |}
  else
    {| rawValue := raw; formula := None;
       dataType := match parseNumber raw with
                   | Some _ => Store.number
                   | None => Store.text
                   end;
       calculatedValue := None; error := None |}.

(** Modelled from the spec: steps 1 and 2 of the recalculation algorithm
    (§4.6): the cell takes its new content and its edges are
    replaced: those of the new formula, or none. The empty input clears
    the cell. *)
Definition writeCell (st : EngineState) (c : coord) (raw : string)
  : EngineState :=
  if String.eqb raw "" then
    {| store := delete c (store st); graph := delete c (graph st) |}
  else if Store.startsWithEq raw then
    {| store := <[c := cellOfInput raw]> (store st);
       graph := <[c := formulaRefs (sheetOf c) raw]> (graph st) |}
  else
    {| store := <[c := cellOfInput raw]> (store st);
       graph := delete c (graph st) |}.

(** Modelled from the spec: [Engine.onCellWritten(sheetId, row, column,
    newRawValue)]. *)
Definition onCellWritten `{Library} (st : EngineState)
    (sheetId row column : Z) (newRawValue : string) : EngineState :=
  recalculate (writeCell st (sheetId, row, column) newRawValue)
              (sheetId, row, column).

(** The engine with no cell. *)
Definition emptyEngine : EngineState := {| store := ∅; graph := ∅ |}.

(** Modelled from the spec: the dependency graph of a store (§4.6). The
    edges as the cell contents give them: what an engine that
    starts again builds from the store. *)
Definition rebuildGraph (cs : CellStore) : gmap coord (list coord) :=
  map_imap (fun c cl => formulaRefs (sheetOf c) <$> formula cl) cs.

(** ** Arithmetic formulas *)






(** A library without helper functions. *)
Definition bareLibrary : Library :=
  {| formatNumber := fun _ => "";
     fractionalPower := fun _ _ => Error (Failure ArgumentError);
     helperFunction := fun _ => None |}.


(** ** Notions used to state what the engine guarantees *)

(** An edge of the dependency graph: [c] feeds [x] when the formula of
    [x] reads [c]. *)
Definition feeds (g : gmap coord (list coord)) (c x : coord) : Prop :=
  c ∈ precedents g x.

(** [x] depends on [c]: it is [c] or it reads, in any number of steps, a
    cell that [c] feeds. *)
Definition dependsOn (g : gmap coord (list coord)) (c x : coord) : Prop :=
  rtc (feeds g) c x.

(** [x] takes part in a cycle. *)
Definition inCycle (g : gmap coord (list coord)) (x : coord) : Prop :=
  exists d, feeds g x d /\ rtc (feeds g) d x.

(** The graph holds exactly the edges that the formulas of the store
    give. *)
Definition graphOk (st : EngineState) : Prop :=
  graph st = rebuildGraph (store st).

(** An order in which every cell comes after the cells it reads, and
    reads neither itself nor a later cell. *)
Fixpoint topological (g : gmap coord (list coord)) (order : list coord)
  : Prop :=
  match order with
  | [] => True
  | x :: order' =>
      Forall (fun p => p ∉ x :: order') (precedents g x) /\
      topological g order'
  end.

(** The outcome of an evaluation as a cell records it. *)
Definition outcome (r : result) : option value * option EvaluationError :=
  match r with
  | Value v => (Some v, None)
  | Error e => (None, Some e)
  end.

(** The cell at [x] records the outcome of its formula over the store. *)
Definition recorded `{Library} (cs : CellStore) (x : coord) : Prop :=
  forall cl f, cs !! x = Some cl -> formula cl = Some f ->
    (calculatedValue cl, error cl) = outcome (evaluateFormula cs (sheetOf x) f).





(** Two stores agree on a list of cells. *)
Definition agree (cs1 cs2 : CellStore) (l : list coord) : Prop :=
  Forall (fun c => cs1 !! c = cs2 !! c) l.

(** What a write gives a cell, as opposed to what recalculation
    records. *)
Definition cellContent (cl : cell) : string * option string * Store.DataType :=
  (rawValue cl, formula cl, dataType cl).

(** Two stores hold the same cells with the same contents. *)
Definition sameContents (cs1 cs2 : CellStore) : Prop :=
  forall y, cellContent <$> cs1 !! y = cellContent <$> cs2 !! y.


(** A value as a number, anything that is not a number counting as 0. *)
Definition numberOrZero (v : value) : Qc :=
  match v with Number q => q | _ => 0%Qc end.

(** The store in which a cell that does not resolve to a number holds the
    literal 0 instead. *)
Definition zeroIfNotNumber `{Library} (cs : CellStore) (c : coord)
  : CellStore :=
  match resolveCell cs c with
  | Value (Number _) => cs
  | _ => <[c := cellOfInput "0"]> cs
  end.

(** ** Example sheets *)

(** The scenario of the specification: A1 = 50000, A2 = 35000,
    A3 = [=A1-A2]. *)
Definition scenarioEngine : EngineState :=
  let H := bareLibrary in
  onCellWritten
    (onCellWritten (onCellWritten emptyEngine 1 1 1 "50000") 1 2 1 "35000")
    1 3 1 "=A1-A2".


(** A1 holds [=B1]; writing [=A1] to B1 closes a cycle. *)
Definition a1ReadsB1 : EngineState :=
  let H := bareLibrary in
  onCellWritten emptyEngine 1 1 1 "=B1".

(** A sheet with A1 = 5, A2 = [abc] and nothing in A3. *)
Definition mixedColumn : CellStore :=
  <[(1, 1, 1) := cellOfInput "5"]> (<[(1, 2, 1) := cellOfInput "abc"]> ∅).

End Engine.

(* ===================================================================== *)
(** * More of JsonFileStorage: deleting cells, sessions, metadata *)
(* ===================================================================== *)

Module StoreOps.
Import Store.

(** ** Cells *)

(** [deleteCell]:
<<
    this.data.cells = this.data.cells.filter(c => c.id !== id);
>>
    The counter is not touched. *)
Definition deleteCell (st : Storage) (id : Z) : Storage :=
  {| cells := filter (fun c => cell_id c ≠ id) (cells st);
     counters_cells := counters_cells st |}.

(** ** Sessions *)

(** [AuthSession]; the dates are integer-valued. *)
Record AuthSession := mkAuthSession {
  s_id : string;
  s_userId : Z;
  s_token : string;
  s_refreshToken : string;
  s_expiresAt : Z;
  s_createdAt : Z;
  s_userAgent : option string;
  s_ipAddress : option string;
  s_isRememberMe : bool
}.

(** [Omit<AuthSession, 'id' | 'createdAt'>]: what [createSession]
    receives. *)
Record SessionData := mkSessionData {
  sd_userId : Z;
  sd_token : string;
  sd_refreshToken : string;
  sd_expiresAt : Z;
  sd_userAgent : option string;
  sd_ipAddress : option string;
  sd_isRememberMe : bool
}.

(** [createSession]:
<<
    const session = { id: uuidv4(), createdAt: new Date(), ...sessionData };
    this.data.sessions.push(session);
    return session;
>>
    [uuid] is the value of [uuidv4()], [now] that of [new Date()]. *)
Definition createSession (sessions : list AuthSession) (sessionData : SessionData)
    (uuid : string) (now : Z) : list AuthSession * AuthSession :=
  let session :=
    {| s_id := uuid;
       s_userId := sd_userId sessionData;
       s_token := sd_token sessionData;
       s_refreshToken := sd_refreshToken sessionData;
       s_expiresAt := sd_expiresAt sessionData;
       s_createdAt := now;
       s_userAgent := sd_userAgent sessionData;
       s_ipAddress := sd_ipAddress sessionData;
       s_isRememberMe := sd_isRememberMe sessionData |} in
  (sessions ++ [session], session).

(** [getSession]:
    [this.data.sessions.find(session => session.token === token)]. *)
Definition getSession (sessions : list AuthSession) (token : string)
  : option AuthSession :=
  snd <$> list_find (fun s => s_token s = token) sessions.

(** [deleteSession]:
    [this.data.sessions.filter(session => session.token !== token)]. *)
Definition deleteSession (sessions : list AuthSession) (token : string)
  : list AuthSession :=
  filter (fun s => s_token s ≠ token) sessions.

(** [deleteUserSessions]:
    [this.data.sessions.filter(session => session.userId !== userId)]. *)
Definition deleteUserSessions (sessions : list AuthSession) (userId : Z)
  : list AuthSession :=
  filter (fun s => s_userId s ≠ userId) sessions.

(** ** Column and row metadata *)

(** The storage has the same four methods for the metadata of columns and
    of rows; they differ in the names of two properties ([columnIndex]
    and [width] against [rowIndex] and [height]), in the size a new
    metadata gets when the updates give none (100 against 21) and in the
    message of the error. One record stands for both: [m_index] is
    [columnIndex] or [rowIndex], [m_size] is [width] or [height]. The
    numbers are integer-valued. *)
Record Metadata := mkMetadata {
  m_id : Z;
  m_sheetId : Z;
  m_index : Z;
  m_size : Z;
  m_isHidden : bool;
  m_autoFit : bool;
  m_createdAt : Z;
  m_updatedAt : Z
}.

(** [InsertColumnMetadata] and [InsertRowMetadata]. *)
Record InsertMetadata := mkInsertMetadata {
  im_sheetId : Z;
  im_index : Z;
  im_size : Z;
  im_isHidden : bool;
  im_autoFit : bool
}.

(** [Partial<ColumnMetadata>] and [Partial<RowMetadata>]: [None] is an
    absent key. *)
Record MetadataUpdates := mkMetadataUpdates {
  mu_id : option Z;
  mu_sheetId : option Z;
  mu_index : option Z;
  mu_size : option Z;
  mu_isHidden : option bool;
  mu_autoFit : option bool;
  mu_createdAt : option Z;
  mu_updatedAt : option Z
}.

(** [this.data.columnMetadata] with [this.counters.columnMetadata], or
    the same for rows. *)
Record MetadataStore := mkMetadataStore {
  metadata : list Metadata;
  counters_metadata : Z
}.

(** [getColumnMetadataBySheet], [getRowMetadataBySheet]:
    [filter(c => c.sheetId === sheetId)]. *)
Definition getMetadataBySheet (ms : MetadataStore) (sheetId : Z)
  : list Metadata :=
  filter (fun m => m_sheetId m = sheetId) (metadata ms).

(** [createColumnMetadata], [createRowMetadata]:
<<
    const metadata = { id: this.counters.columnMetadata++, ...insertMetadata,
                       createdAt: new Date(), updatedAt: new Date() };
    this.data.columnMetadata.push(metadata);
    return metadata;
>> *)
Definition createMetadata (ms : MetadataStore) (ins : InsertMetadata) (now : Z)
  : MetadataStore * Metadata :=
  let m := {| m_id := counters_metadata ms;
              m_sheetId := im_sheetId ins;
              m_index := im_index ins;
              m_size := im_size ins;
              m_isHidden := im_isHidden ins;
              m_autoFit := im_autoFit ins;
              m_createdAt := now;
              m_updatedAt := now |} in
  ({| metadata := metadata ms ++ [m];
      counters_metadata := counters_metadata ms + 1 |}, m).

(** [{ ...metadata, ...updates, updatedAt: new Date() }]. *)
Definition spreadMetadata (m : Metadata) (u : MetadataUpdates) (now : Z)
  : Metadata :=
  {| m_id := default (m_id m) (mu_id u);
     m_sheetId := default (m_sheetId m) (mu_sheetId u);
     m_index := default (m_index m) (mu_index u);
     m_size := default (m_size m) (mu_size u);
     m_isHidden := default (m_isHidden m) (mu_isHidden u);
     m_autoFit := default (m_autoFit m) (mu_autoFit u);
     m_createdAt := default (m_createdAt m) (mu_createdAt u);
     m_updatedAt := now |}.

Section Metadata.

(** The size of a new metadata when the updates give none or give 0, and
    the message of the error: 100 and ["Column metadata not found"] for
    columns, 21 and ["Row metadata not found"] for rows. *)
Variables (defaultSize : Z) (notFound : string).

(** [updateColumnMetadata], [updateRowMetadata]:
<<
    const index = this.data.columnMetadata.findIndex(c => c.id === id);
    if (index === -1) throw new Error("Column metadata not found");
    this.data.columnMetadata[index] =
      { ...this.data.columnMetadata[index], ...updates,
        updatedAt: new Date() };
    return this.data.columnMetadata[index];
>> *)
Definition updateMetadata (ms : MetadataStore) (id : Z) (u : MetadataUpdates)
    (now : Z) : result (MetadataStore * Metadata) :=
  match list_find (fun m => m_id m = id) (metadata ms) with
  | None => Throw notFound
  | Some (index, m) =>
      let m' := spreadMetadata m u now in
      Ok ({| metadata := <[index := m']> (metadata ms);
             counters_metadata := counters_metadata ms |}, m')
  end.

(** [x || d] on a number: [d] when [x] is absent or 0. *)
Definition orNumber (x : option Z) (d : Z) : Z :=
  match x with
  | Some n => if decide (n = 0) then d else n
  | None => d
  end.

(** [updateColumnMetadataByPosition], [updateRowMetadataByPosition]:
<<
    const existing = this.data.columnMetadata.find(
      c => c.sheetId === sheetId && c.columnIndex === columnIndex);
    if (existing) {
      return this.updateColumnMetadata(existing.id, updates);
    } else {
      return this.createColumnMetadata({ sheetId, columnIndex,
        width: updates.width || 100,
        isHidden: updates.isHidden || false,
        autoFit: updates.autoFit || false });
    }
>> *)
Definition updateMetadataByPosition (ms : MetadataStore) (sheetId index : Z)
    (u : MetadataUpdates) (now : Z) : result (MetadataStore * Metadata) :=
  match list_find (fun m => m_sheetId m = sheetId ∧ m_index m = index)
                  (metadata ms) with
  | Some (_, existing) => updateMetadata ms (m_id existing) u now
  | None =>
      Ok (createMetadata ms
            {| im_sheetId := sheetId;
               im_index := index;
               im_size := orNumber (mu_size u) defaultSize;
               im_isHidden := default false (mu_isHidden u);
               im_autoFit := default false (mu_autoFit u) |} now)
  end.

End Metadata.

Definition updateColumnMetadata := updateMetadata "Column metadata not found".
Definition updateRowMetadata := updateMetadata "Row metadata not found".
Definition updateColumnMetadataByPosition :=
  updateMetadataByPosition 100 "Column metadata not found".
Definition updateRowMetadataByPosition :=
  updateMetadataByPosition 21 "Row metadata not found".

(** The metadata of a position: the first one, as [find] gives it. *)
Definition metadataAt (ms : MetadataStore) (sheetId index : Z)
  : option Metadata :=
  snd <$> list_find (fun m => m_sheetId m = sheetId ∧ m_index m = index)
                    (metadata ms).

(** What places a metadata: its sheet and its index. *)
Definition metadataKey (m : Metadata) : Z * Z := (m_sheetId m, m_index m).

(** At most one metadata per sheet and index; ids distinct and below the
    counter. *)
Definition metadataOk (ms : MetadataStore) : Prop :=
  NoDup (metadataKey <$> metadata ms) ∧
  NoDup (m_id <$> metadata ms) ∧
  Forall (fun m => m_id m < counters_metadata ms) (metadata ms).

(** The updates that the grid sends: they carry none of the keys that
    identify or place a metadata. *)
Definition sizeOnly (u : MetadataUpdates) : Prop :=
  mu_id u = None ∧ mu_sheetId u = None ∧ mu_index u = None.

(** [{ width }] or [{ height }]. *)
Definition sizeUpdate (size : Z) : MetadataUpdates :=
  {| mu_id := None; mu_sheetId := None; mu_index := None;
     mu_size := Some size; mu_isHidden := None; mu_autoFit := None;
     mu_createdAt := None; mu_updatedAt := None |}.

End StoreOps.

(* ===================================================================== *)
(** * The grid (ResizableGrid.tsx) *)
(* ===================================================================== *)

(** The handlers of the grid components read the state of the component
    (the selected cell, the selection range, the clipboard, the local
    widths) and the data of the queries (the cells and the metadata of
    the sheet); they call the setters of the state, the callbacks
    [onCellSelect] and [onCellUpdate], and the mutations. A handler is
    modelled as a function from what it reads to what it sets and
    calls. *)

Module Grid.
Import Store StoreOps.

(** ** Selection *)

(** [SelectionRange]. *)
Record SelectionRange := mkSelectionRange {
  startRow : Z;
  startCol : Z;
  endRow : Z;
  endCol : Z
}.

(** The selected cell, [{ row, column }]. *)
Record SelectedCell := mkSelectedCell {
  sc_row : Z;
  sc_column : Z
}.

(** [isCellInSelection]:
<<
    if (!selectionRange) return false;
    return row >= Math.min(selectionRange.startRow, selectionRange.endRow) &&
           row <= Math.max(selectionRange.startRow, selectionRange.endRow) &&
           col >= Math.min(selectionRange.startCol, selectionRange.endCol) &&
           col <= Math.max(selectionRange.startCol, selectionRange.endCol);
>> *)
Definition isCellInSelection (selectionRange : option SelectionRange)
    (row col : Z) : bool :=
  match selectionRange with
  | None => false
  | Some r =>
      (row >=? Z.min (startRow r) (endRow r)) &&
      (row <=? Z.max (startRow r) (endRow r)) &&
      (col >=? Z.min (startCol r) (endCol r)) &&
      (col <=? Z.max (startCol r) (endCol r))
  end.

(** [isCellSelected]:
    [selectedCell?.row === row && selectedCell?.column === col]. *)
Definition isCellSelected (selectedCell : option SelectedCell) (row col : Z)
  : bool :=
  match selectedCell with
  | None => false
  | Some c => (sc_row c =? row) && (sc_column c =? col)
  end.

(** ** Cell data and the clipboard *)

(** What [getCellData] returns: [{ row, column, value, formula }]. *)
Record CellData := mkCellData {
  cd_row : Z;
  cd_column : Z;
  cd_value : string;
  cd_formula : string
}.

(** [cells?.find(c => c.row === row && c.column === column)] on the cells
    of the sheet. *)
Definition findCell (cells : list Cell) (row column : Z) : option Cell :=
  snd <$> list_find (fun c => cell_row c = row ∧ cell_column c = column) cells.

(** [getCellData]:
<<
    const cell = cells?.find(c => c.row === row && c.column === column);
    return { row, column, value: cell?.value || "",
             formula: cell?.formula || "" };
>> *)
Definition getCellData (cells : list Cell) (row column : Z) : CellData :=
  let cell := findCell cells row column in
  {| cd_row := row;
     cd_column := column;
     cd_value := default "" (cell ≫= cell_value);
     cd_formula := default "" (cell ≫= cell_formula) |}.

(** The rows (or columns) that the two loops of a range go through:
    [for (let row = Math.min(a, b); row <= Math.max(a, b); row++)]. *)
Definition span (a b : Z) : list Z :=
  seqZ (Z.min a b) (Z.max a b - Z.min a b + 1).

(** [getCellDataInRange]:
<<
    const data = [];
    for (let row = min(startRow, endRow); row <= max(startRow, endRow); row++)
      for (let col = min(startCol, endCol); col <= max(startCol, endCol); col++)
        data.push(getCellData(row, col));
    return data;
>> *)
Definition getCellDataInRange (cells : list Cell) (range : SelectionRange)
  : list CellData :=
  row ← span (startRow range) (endRow range);
  col ← span (startCol range) (endCol range);
  [getCellData cells row col].

(** A call [onCellUpdate(row, column, value, formula)]; the last argument
    may be left out. *)
Record CellUpdateCall := mkCellUpdateCall {
  cu_row : Z;
  cu_column : Z;
  cu_value : string;
  cu_formula : option string
}.

(** [clearCellsInRange]: [onCellUpdate(row, col, "")] for every cell of
    the range, row by row. *)
Definition clearCellsInRange (range : SelectionRange) : list CellUpdateCall :=
  row ← span (startRow range) (endRow range);
  col ← span (startCol range) (endCol range);
  [ {| cu_row := row; cu_column := col; cu_value := ""; cu_formula := None |} ].

Inductive ClipboardType := copy | cut.

(** [ClipboardData]: [{ type, data, range }]. *)
Record ClipboardData := mkClipboardData {
  cb_type : ClipboardType;
  cb_data : list CellData;
  cb_range : SelectionRange
}.

(** The range of one cell. *)
Definition cellRange (c : SelectedCell) : SelectionRange :=
  {| startRow := sc_row c; startCol := sc_column c;
     endRow := sc_row c; endCol := sc_column c |}.

(** [handleCopy]: the clipboard it sets. With a selection range the data
    of the range, else with a selected cell the data of that cell, else
    the clipboard stays. *)
Definition handleCopy (cells : list Cell)
    (selectionRange : option SelectionRange) (selectedCell : option SelectedCell)
    (clipboardData : option ClipboardData) : option ClipboardData :=
  match selectionRange, selectedCell with
  | Some range, _ =>
      Some {| cb_type := copy; cb_data := getCellDataInRange cells range;
              cb_range := range |}
  | None, Some c =>
      Some {| cb_type := copy;
              cb_data := [getCellData cells (sc_row c) (sc_column c)];
              cb_range := cellRange c |}
  | None, None => clipboardData
  end.

(** [handleCut]: the clipboard it sets and the calls of [onCellUpdate]
    that clear the cells. *)
Definition handleCut (cells : list Cell)
    (selectionRange : option SelectionRange) (selectedCell : option SelectedCell)
    (clipboardData : option ClipboardData)
  : option ClipboardData * list CellUpdateCall :=
  match selectionRange, selectedCell with
  | Some range, _ =>
      (Some {| cb_type := cut; cb_data := getCellDataInRange cells range;
               cb_range := range |},
       clearCellsInRange range)
  | None, Some c =>
      (Some {| cb_type := cut;
               cb_data := [getCellData cells (sc_row c) (sc_column c)];
               cb_range := cellRange c |},
       [ {| cu_row := sc_row c; cu_column := sc_column c;
            cu_value := ""; cu_formula := None |} ])
  | None, None => (clipboardData, [])
  end.

(** [handlePaste]:
<<
    if (!clipboardData || !selectedCell) return;
    clipboardData.data.forEach((cellData, index) => {
      const originalRowOffset = cellData.row - clipboardData.range.startRow;
      const originalColOffset = cellData.column - clipboardData.range.startCol;
      const newRow = pasteStartRow + originalRowOffset;
      const newCol = pasteStartCol + originalColOffset;
      if (newRow <= 100 && newCol <= 26) {
        onCellUpdate(newRow, newCol, cellData.value, cellData.formula);
      }
    });
    if (clipboardData.type === 'cut') setClipboardData(null);
>>
    The calls it makes, in order, and the clipboard it leaves. *)
Definition handlePaste (clipboardData : option ClipboardData)
    (selectedCell : option SelectedCell)
  : list CellUpdateCall * option ClipboardData :=
  match clipboardData, selectedCell with
  | Some cb, Some c =>
      let pasteStartRow := sc_row c in
      let pasteStartCol := sc_column c in
      (cellData ← cb_data cb;
       let originalRowOffset := cd_row cellData - startRow (cb_range cb) in
       let originalColOffset := cd_column cellData - startCol (cb_range cb) in
       let newRow := pasteStartRow + originalRowOffset in
       let newCol := pasteStartCol + originalColOffset in
       if (newRow <=? 100) && (newCol <=? 26)
       then [ {| cu_row := newRow; cu_column := newCol;
                 cu_value := cd_value cellData;
                 cu_formula := Some (cd_formula cellData) |} ]
       else [],
       match cb_type cb with cut => None | copy => clipboardData end)
  | _, _ => ([], clipboardData)
  end.

(** The number of cells that [handleDeleteSelectedCells] reports:
<<
    (Math.abs(selectionRange.endRow - selectionRange.startRow) + 1) *
    (Math.abs(selectionRange.endCol - selectionRange.startCol) + 1)
>> *)
Definition cellCount (selectionRange : SelectionRange) : Z :=
  (Z.abs (endRow selectionRange - startRow selectionRange) + 1) *
  (Z.abs (endCol selectionRange - startCol selectionRange) + 1).

(** [handleDeleteSelectedCells]: the calls that clear the cells, and the
    count of the toast when a range is selected. *)
Definition handleDeleteSelectedCells (selectionRange : option SelectionRange)
    (selectedCell : option SelectedCell) : list CellUpdateCall * option Z :=
  match selectionRange, selectedCell with
  | Some range, _ => (clearCellsInRange range, Some (cellCount range))
  | None, Some c =>
      ([ {| cu_row := sc_row c; cu_column := sc_column c;
            cu_value := ""; cu_formula := None |} ], None)
  | None, None => ([], None)
  end.

(** [handleSelectAll]: the range it sets. *)
Definition handleSelectAll : SelectionRange :=
  {| startRow := 1; startCol := 1; endRow := 100; endCol := 26 |}.

(** ** Moving with the arrow keys *)

(** [handleArrowKeyNavigation] of [ResizableGrid]:
<<
    if (!selectedCell) return;
    let newRow = selectedCell.row;  let newCol = selectedCell.column;
    switch (key) {
      case 'ArrowUp':    newRow = Math.max(1, newRow - 1); break;
      case 'ArrowDown':  newRow = Math.min(100, newRow + 1); break;
      case 'ArrowLeft':  newCol = Math.max(1, newCol - 1); break;
      case 'ArrowRight': newCol = Math.min(26, newCol + 1); break;
    }
    if (shiftKey && !selectionRange) {
      setSelectionRange({ startRow: selectedCell.row,
        startCol: selectedCell.column, endRow: newRow, endCol: newCol });
    } else if (shiftKey && selectionRange) {
      setSelectionRange({ ...selectionRange, endRow: newRow, endCol: newCol });
    } else {
      setSelectionRange(null);
    }
    onCellSelect?.(newRow, newCol);
>>
    The result is the selection range it sets and the cell it selects;
    [None] when no cell is selected. *)
Definition handleArrowKeyNavigation (selectedCell : option SelectedCell)
    (selectionRange : option SelectionRange) (key : string) (shiftKey : bool)
  : option (option SelectionRange * SelectedCell) :=
  match selectedCell with
  | None => None
  | Some c =>
      let newRow :=
        if String.eqb key "ArrowUp" then Z.max 1 (sc_row c - 1)
        else if String.eqb key "ArrowDown" then Z.min 100 (sc_row c + 1)
        else sc_row c in
      let newCol :=
        if String.eqb key "ArrowLeft" then Z.max 1 (sc_column c - 1)
        else if String.eqb key "ArrowRight" then Z.min 26 (sc_column c + 1)
        else sc_column c in
      let range :=
        if shiftKey then
          match selectionRange with
          | None => Some {| startRow := sc_row c; startCol := sc_column c;
                            endRow := newRow; endCol := newCol |}
          | Some r => Some {| startRow := startRow r; startCol := startCol r;
                              endRow := newRow; endCol := newCol |}
          end
        else None in
      Some (range, {| sc_row := newRow; sc_column := newCol |})
  end.

(** The cells of the grid: rows 1 to 100, columns 1 to 26. *)
Definition inGrid (c : SelectedCell) : Prop :=
  1 <= sc_row c <= 100 ∧ 1 <= sc_column c <= 26.

(** ** Column and row headers *)

(** [Math.min(...selected)] on a list that is not empty. *)
Definition minimum (l : list Z) : Z :=
  match l with
  | [] => 0
  | x :: l' => fold_left Z.min l' x
  end.

(** [handleColumnHeaderClick] and [handleRowHeaderClick]: the selected
    columns (or rows) they set.
<<
    if (shiftKey && selectedColumns.length > 0) {
      const start = Math.min(...selectedColumns);
      const end = Math.max(col, start);
      const range = Array.from({ length: end - start + 1 }, (_, i) => start + i);
      setSelectedColumns(range);
    } else if (ctrlKey) {
      setSelectedColumns(prev =>
        prev.includes(col) ? prev.filter(c => c !== col) : [...prev, col]);
    } else {
      setSelectedColumns([col]);
    }
>> *)
Definition handleHeaderClick (selected : list Z) (col : Z)
    (ctrlKey shiftKey : bool) : list Z :=
  if shiftKey && negb (Nat.eqb (length selected) 0) then
    let start := minimum selected in
    let end_ := Z.max col start in
    seqZ start (end_ - start + 1)
  else if ctrlKey then
    if bool_decide (col ∈ selected)
    then filter (fun c => c ≠ col) selected
    else selected ++ [col]
  else [col].

(** ** Widths, heights and positions *)

Definition defaultColumnWidth : Z := 100.
Definition defaultRowHeight : Z := 21.
Definition headerHeight : Z := 24.
Definition headerWidth : Z := 40.

(** [getColumnWidth] and [getRowHeight], on the metadata of the sheet and
    the local sizes:
<<
    const metadata = columnMetadata?.find((m: any) => m.columnIndex === col);
    if (metadata) return metadata.width;
    return columnWidths[col] || defaultColumnWidth;
>> *)
Definition getSize (defaultSize : Z) (sheetMetadata : list Metadata)
    (localSizes : gmap Z Z) (index : Z) : Z :=
  match list_find (fun m => m_index m = index) sheetMetadata with
  | Some (_, m) => m_size m
  | None => orNumber (localSizes !! index) defaultSize
  end.

Definition getColumnWidth := getSize defaultColumnWidth.
Definition getRowHeight := getSize defaultRowHeight.

(** [getColumnPosition]:
<<
    let position = headerWidth;
    for (let i = 1; i < col; i++) position += getColumnWidth(i);
    return position;
>> *)
Definition getColumnPosition (columnMetadata : list Metadata)
    (columnWidths : gmap Z Z) (col : Z) : Z :=
  fold_left (fun position i =>
               position + getColumnWidth columnMetadata columnWidths i)
            (seqZ 1 (col - 1)) headerWidth.

(** [getRowPosition]: the same from [headerHeight] with [getRowHeight]. *)
Definition getRowPosition (rowMetadata : list Metadata)
    (rowHeights : gmap Z Z) (row : Z) : Z :=
  fold_left (fun position i =>
               position + getRowHeight rowMetadata rowHeights i)
            (seqZ 1 (row - 1)) headerHeight.

(** ** Resizing *)

Inductive ResizeType := ResizeColumn | ResizeRow.

(** The state the resize handlers read and set. *)
Record ResizeState := mkResizeState {
  columnWidths : gmap Z Z;
  rowHeights : gmap Z Z;
  isResizing : option (ResizeType * Z);
  resizeStart : Z * Z
}.

(** [handleResizeStart]: [setIsResizing({ type, index })] and
    [setResizeStart({ x: e.clientX, y: e.clientY })]. *)
Definition handleResizeStart (s : ResizeState) (type : ResizeType) (index : Z)
    (clientX clientY : Z) : ResizeState :=
  {| columnWidths := columnWidths s; rowHeights := rowHeights s;
     isResizing := Some (type, index); resizeStart := (clientX, clientY) |}.

(** [handleResizeMove]:
<<
    if (!isResizing) return;
    const deltaX = e.clientX - resizeStart.x;
    const deltaY = e.clientY - resizeStart.y;
    if (isResizing.type === 'column') {
      const currentWidth = getColumnWidth(isResizing.index);
      const newWidth = Math.max(50, currentWidth + deltaX);
      setColumnWidths(prev => ({ ...prev, [isResizing.index]: newWidth }));
    } else {
      const currentHeight = getRowHeight(isResizing.index);
      const newHeight = Math.max(15, currentHeight + deltaY);
      setRowHeights(prev => ({ ...prev, [isResizing.index]: newHeight }));
    }
    setResizeStart({ x: e.clientX, y: e.clientY });
>> *)
Definition handleResizeMove (columnMetadata rowMetadata : list Metadata)
    (s : ResizeState) (clientX clientY : Z) : ResizeState :=
  match isResizing s with
  | None => s
  | Some (ResizeColumn, index) =>
      let deltaX := clientX - fst (resizeStart s) in
      let currentWidth := getColumnWidth columnMetadata (columnWidths s) index in
      let newWidth := Z.max 50 (currentWidth + deltaX) in
      {| columnWidths := <[index := newWidth]> (columnWidths s);
         rowHeights := rowHeights s;
         isResizing := isResizing s;
         resizeStart := (clientX, clientY) |}
  | Some (ResizeRow, index) =>
      let deltaY := clientY - snd (resizeStart s) in
      let currentHeight := getRowHeight rowMetadata (rowHeights s) index in
      let newHeight := Z.max 15 (currentHeight + deltaY) in
      {| columnWidths := columnWidths s;
         rowHeights := <[index := newHeight]> (rowHeights s);
         isResizing := isResizing s;
         resizeStart := (clientX, clientY) |}
  end.

(** [handleResizeEnd]: the request it sends ([PUT .../columns/:index] with
    [{ width }], or [PUT .../rows/:index] with [{ height }]), and the
    state with [isResizing] cleared. *)
Definition handleResizeEnd (columnMetadata rowMetadata : list Metadata)
    (s : ResizeState) : ResizeState * option (ResizeType * Z * MetadataUpdates) :=
  ({| columnWidths := columnWidths s; rowHeights := rowHeights s;
      isResizing := None; resizeStart := resizeStart s |},
   match isResizing s with
   | None => None
   | Some (ResizeColumn, index) =>
       Some (ResizeColumn, index,
             sizeUpdate (getColumnWidth columnMetadata (columnWidths s) index))
   | Some (ResizeRow, index) =>
       Some (ResizeRow, index,
             sizeUpdate (getRowHeight rowMetadata (rowHeights s) index))
   end).

(** The server's answer to the request of [handleResizeEnd]: the routes
    [PUT /api/sheets/:sheetId/columns/:columnIndex] and
    [PUT /api/sheets/:sheetId/rows/:rowIndex] hand the body to
    [updateColumnMetadataByPosition] and [updateRowMetadataByPosition]. *)
Definition putMetadata (type : ResizeType) (ms : MetadataStore)
    (sheetId index : Z) (u : MetadataUpdates) (now : Z)
  : result (MetadataStore * Metadata) :=
  match type with
  | ResizeColumn => updateColumnMetadataByPosition ms sheetId index u now
  | ResizeRow => updateRowMetadataByPosition ms sheetId index u now
  end.

(** ** Auto-fit *)

(** [value.length * 8 + 16]; the characters of the string stand for the
    code units of the value. *)
Definition textWidth (value : string) : Z :=
  Z.of_nat (String.length value) * 8 + 16.

(** The width that a double click on the border of a column computes:
<<
    let maxWidth = 60;
    for (let row = 1; row <= 100; row++) {
      const value = getCellValue(row, index);
      const textWidth = value.length * 8 + 16;
      maxWidth = Math.max(maxWidth, textWidth);
    }
    const autoWidth = Math.min(maxWidth, 300);
>> *)
Definition autoWidth (cells : list Cell) (index : Z) : Z :=
  let maxWidth :=
    fold_left (fun maxWidth row =>
                 Z.max maxWidth (textWidth (getCellValue cells row index)))
              (seqZ 1 100) 60 in
  Z.min maxWidth 300.

(** [{ width: autoWidth, autoFit: true }] or
    [{ height: autoHeight, autoFit: true }]. *)
Definition autoFitUpdate (size : Z) : MetadataUpdates :=
  {| mu_id := None; mu_sheetId := None; mu_index := None;
     mu_size := Some size; mu_isHidden := None; mu_autoFit := Some true;
     mu_createdAt := None; mu_updatedAt := None |}.

(** [handleDoubleClickResize]: the local size it sets and the request
    it sends. For a row the height is 21 ([const autoHeight = 21]). *)
Definition handleDoubleClickResize (cells : list Cell) (s : ResizeState)
    (type : ResizeType) (index : Z)
  : ResizeState * (ResizeType * Z * MetadataUpdates) :=
  match type with
  | ResizeColumn =>
      let autoWidth := autoWidth cells index in
      ({| columnWidths := <[index := autoWidth]> (columnWidths s);
          rowHeights := rowHeights s;
          isResizing := isResizing s; resizeStart := resizeStart s |},
       (ResizeColumn, index, autoFitUpdate autoWidth))
  | ResizeRow =>
      let autoHeight := 21 in
      ({| columnWidths := columnWidths s;
          rowHeights := <[index := autoHeight]> (rowHeights s);
          isResizing := isResizing s; resizeStart := resizeStart s |},
       (ResizeRow, index, autoFitUpdate autoHeight))
  end.

(** ** Notions used to state what the grid guarantees *)

(** The cells of a range, row by row: [(row, column)]. *)
Definition rangeCells (range : SelectionRange) : list (Z * Z) :=
  row ← span (startRow range) (endRow range);
  col ← span (startCol range) (endCol range);
  [(row, col)].

(** The same range, dragged from the other corner. *)
Definition reversed (range : SelectionRange) : SelectionRange :=
  {| startRow := endRow range; startCol := endCol range;
     endRow := startRow range; endCol := startCol range |}.

(** The local sizes that a resize of the type reads and sets. *)
Definition localSizes (type : ResizeType) (s : ResizeState) : gmap Z Z :=
  match type with
  | ResizeColumn => columnWidths s
  | ResizeRow => rowHeights s
  end.

(** The metadata that a resize of the type reads and saves to. *)
Definition storeOf (type : ResizeType) (columns rows : MetadataStore)
  : MetadataStore :=
  match type with
  | ResizeColumn => columns
  | ResizeRow => rows
  end.

(** The least size that a drag gives: [Math.max(50, ...)] for a column,
    [Math.max(15, ...)] for a row. *)
Definition leastSizeOf (type : ResizeType) : Z :=
  match type with
  | ResizeColumn => 50
  | ResizeRow => 15
  end.

(** The default size of the type. *)
Definition defaultSizeOf (type : ResizeType) : Z :=
  match type with
  | ResizeColumn => defaultColumnWidth
  | ResizeRow => defaultRowHeight
  end.

End Grid.

(* ===================================================================== *)
(** * The second grid component (GoogleSheetsGrid in ResizableGrid.tsx) *)
(* ===================================================================== *)

Module SheetsGrid.
Import Store Grid.

Definition maxRows : Z := 1000.
Definition maxCols : Z := 26.

(** [navigateToCell]: the cell it selects.
<<
    const newRow = Math.max(1, Math.min(maxRows, row));
    const newCol = Math.max(1, Math.min(maxCols, col));
    onCellSelect?.(newRow, newCol);
>> *)
Definition navigateToCell (row col : Z) : SelectedCell :=
  {| sc_row := Z.max 1 (Z.min maxRows row);
     sc_column := Z.max 1 (Z.min maxCols col) |}.

Inductive Direction := DirUp | DirDown | DirLeft | DirRight.

(** The loop of [findDataEdge] towards row or column 1:
<<
    for (let r = row - 1; r >= 1; r--) {
      const hasValue = getCellValue(r, col).trim() !== '';
      if (hasCurrentValue && !hasValue) return r + 1;
      if (!hasCurrentValue && hasValue) return r;
    }
    return 1;
>>
    [n] counts the turns that are left, [r] is the loop variable. *)
Fixpoint scanBackward (hasCurrentValue : bool) (valueAt : Z -> bool)
    (n : nat) (r : Z) : Z :=
  match n with
  | O => 1
  | S n' =>
      if hasCurrentValue && negb (valueAt r) then r + 1
      else if negb hasCurrentValue && valueAt r then r
      else scanBackward hasCurrentValue valueAt n' (r - 1)
  end.

(** The loop of [findDataEdge] towards the last row or column:
<<
    for (let r = row + 1; r <= maxRows; r++) {
      const hasValue = getCellValue(r, col).trim() !== '';
      if (hasCurrentValue && !hasValue) return r - 1;
      if (!hasCurrentValue && hasValue) return r;
    }
    return maxRows;
>> *)
Fixpoint scanForward (limit : Z) (hasCurrentValue : bool) (valueAt : Z -> bool)
    (n : nat) (r : Z) : Z :=
  match n with
  | O => limit
  | S n' =>
      if hasCurrentValue && negb (valueAt r) then r - 1
      else if negb hasCurrentValue && valueAt r then r
      else scanForward limit hasCurrentValue valueAt n' (r + 1)
  end.

Section DataEdge.

(** [value.trim() === ''] of the JavaScript runtime. *)
Variable trimmedIsEmpty : string -> bool.

(** The cells of the sheet, as the query gives them. *)
Variable cells : list Cell.

(** [getCellValue(row, col).trim() !== '']. *)
Definition hasValue (row col : Z) : bool :=
  negb (trimmedIsEmpty (getCellValue cells row col)).

(** [findDataEdge]: from a cell with a value, the end of its block in the
    direction; from a cell without, the next cell with a value; the first
    or last row or column when the loop runs out. *)
Definition findDataEdge (row col : Z) (direction : Direction) : Z :=
  let hasCurrentValue := hasValue row col in
  match direction with
  | DirUp =>
      scanBackward hasCurrentValue (fun r => hasValue r col)
        (Z.to_nat (row - 1)) (row - 1)
  | DirDown =>
      scanForward maxRows hasCurrentValue (fun r => hasValue r col)
        (Z.to_nat (maxRows - row)) (row + 1)
  | DirLeft =>
      scanBackward hasCurrentValue (fun c => hasValue row c)
        (Z.to_nat (col - 1)) (col - 1)
  | DirRight =>
      scanForward maxCols hasCurrentValue (fun c => hasValue row c)
        (Z.to_nat (maxCols - col)) (col + 1)
  end.

(** [handleArrowKeyNavigation] of [GoogleSheetsGrid]: with [ctrlKey] the
    new row or column is the data edge, else one step away inside the
    grid; then the selection range is set as in the first grid and
    [navigateToCell(newRow, newCol)] selects the cell. *)
Definition handleArrowKeyNavigation (selectedCell : option SelectedCell)
    (selectionRange : option SelectionRange) (key : string)
    (shiftKey ctrlKey : bool)
  : option (option SelectionRange * SelectedCell) :=
  match selectedCell with
  | None => None
  | Some c =>
      let newRow :=
        if ctrlKey then
          if String.eqb key "ArrowUp"
          then findDataEdge (sc_row c) (sc_column c) DirUp
          else if String.eqb key "ArrowDown"
          then findDataEdge (sc_row c) (sc_column c) DirDown
          else sc_row c
        else
          if String.eqb key "ArrowUp" then Z.max 1 (sc_row c - 1)
          else if String.eqb key "ArrowDown" then Z.min maxRows (sc_row c + 1)
          else sc_row c in
      let newCol :=
        if ctrlKey then
          if String.eqb key "ArrowLeft"
          then findDataEdge (sc_row c) (sc_column c) DirLeft
          else if String.eqb key "ArrowRight"
          then findDataEdge (sc_row c) (sc_column c) DirRight
          else sc_column c
        else
          if String.eqb key "ArrowLeft" then Z.max 1 (sc_column c - 1)
          else if String.eqb key "ArrowRight"
          then Z.min maxCols (sc_column c + 1)
          else sc_column c in
      let range :=
        if shiftKey then
          match selectionRange with
          | None => Some {| startRow := sc_row c; startCol := sc_column c;
                            endRow := newRow; endCol := newCol |}
          | Some r => Some {| startRow := startRow r; startCol := startCol r;
                              endRow := newRow; endCol := newCol |}
          end
        else None in
      Some (range, navigateToCell newRow newCol)
  end.

End DataEdge.

(** What [updateCellMutation.mutate] is called with by the fill handle:
    [{ row, column, value }]. *)
Record CellMutation := mkCellMutation {
  cm_row : Z;
  cm_column : Z;
  cm_value : string
}.

(** The state [fillHandle]: [{ row, col }]. *)
Record FillHandle := mkFillHandle {
  fh_row : Z;
  fh_col : Z
}.

(** [handleFillDrag]: the mutations it starts, in order.
<<
    if (!isDragFilling || !fillHandle) return;
    const sourceValue = getCellValue(fillHandle.row, fillHandle.col);
    if (targetRow !== fillHandle.row) {
      const startRow = Math.min(fillHandle.row, targetRow);
      const endRow = Math.max(fillHandle.row, targetRow);
      for (let r = startRow; r <= endRow; r++) {
        if (r !== fillHandle.row) {
          updateCellMutation.mutate({ row: r, column: fillHandle.col,
                                      value: sourceValue });
        }
      }
    } else if (targetCol !== fillHandle.col) {
      ... the same along the row ...
    }
>> *)
Definition handleFillDrag (cells : list Cell) (isDragFilling : bool)
    (fillHandle : option FillHandle) (targetRow targetCol : Z)
  : list CellMutation :=
  match fillHandle with
  | Some handle =>
      if isDragFilling then
        let sourceValue := getCellValue cells (fh_row handle) (fh_col handle) in
        if decide (targetRow ≠ fh_row handle) then
          r ← span (fh_row handle) targetRow;
          if decide (r ≠ fh_row handle)
          then [ {| cm_row := r; cm_column := fh_col handle;
                    cm_value := sourceValue |} ]
          else []
        else if decide (targetCol ≠ fh_col handle) then
          c ← span (fh_col handle) targetCol;
          if decide (c ≠ fh_col handle)
          then [ {| cm_row := fh_row handle; cm_column := c;
                    cm_value := sourceValue |} ]
          else []
        else []
      else []
  | None => []
  end.

(** What it means for [e] to be the data edge after [from] up to
    [limit], for the cells that [valueAt] says have a value: from a cell
    with a value, [e] ends the block of cells with values that starts at
    [from]; from a cell without, the cells strictly between are without
    a value and [e] has one, or is the limit. *)
Definition forwardEdge (valueAt : Z -> bool) (limit from e : Z) : Prop :=
  from <= e <= limit ∧
  if valueAt from
  then (∀ r, from <= r <= e -> valueAt r = true) ∧
       (e = limit ∨ valueAt (e + 1) = false)
  else (∀ r, from < r < e -> valueAt r = false) ∧
       (e = limit ∨ (from < e ∧ valueAt e = true)).

(** The same towards 1. *)
Definition backwardEdge (valueAt : Z -> bool) (from e : Z) : Prop :=
  1 <= e <= from ∧
  if valueAt from
  then (∀ r, e <= r <= from -> valueAt r = true) ∧
       (e = 1 ∨ valueAt (e - 1) = false)
  else (∀ r, e < r < from -> valueAt r = false) ∧
       (e = 1 ∨ (e < from ∧ valueAt e = true)).

End SheetsGrid.

(* ===================================================================== *)
(** * The pages (spreadsheet.tsx) *)
(* ===================================================================== *)

Module Pages.
Import Columns Store StoreOps Grid.

(** ** The selection of the page *)

(** An entry of [selectedCells]: [{ row, column, sheetId }]. *)
Record PageCell := mkPageCell {
  pc_row : Z;
  pc_column : Z;
  pc_sheetId : Z
}.

(** [handleRangeSelect]: the cells it selects.
<<
    for (let row = min(startRow, endRow); row <= max(startRow, endRow); row++)
      for (let col = min(startCol, endCol); col <= max(startCol, endCol); col++)
        cells.push({ row, column: col, sheetId: activeSheet || 1 });
    setSelectedCells(cells);
>> *)
Definition handleRangeSelect (activeSheet : option Z) (range : SelectionRange)
  : list PageCell :=
  row ← span (startRow range) (endRow range);
  col ← span (startCol range) (endCol range);
  [ {| pc_row := row; pc_column := col;
       pc_sheetId := orNumber activeSheet 1 |} ].

(** [handleCellSelect]: [setSelectedCells([{ row, column,
    sheetId: activeSheet || 1 }])]. *)
Definition handleCellSelect (activeSheet : option Z) (row column : Z)
  : list PageCell :=
  [ {| pc_row := row; pc_column := column;
       pc_sheetId := orNumber activeSheet 1 |} ].

(** [getCellFormula]: [cell?.formula || ""]. *)
Definition getCellFormula (cells : list Cell) (row column : Z) : string :=
  default "" (findCell cells row column ≫= cell_formula).

(** ** The toolbar: copy, paste, cut, delete *)

(** The tab character. *)
Definition tab : ascii := ascii_of_nat 9.

(** [text.split(sep)] for a separator of one character. *)
Fixpoint split (sep : ascii) (text : string) : list string :=
  match text with
  | EmptyString => [EmptyString]
  | String c rest =>
      if Ascii.eqb c sep then EmptyString :: split sep rest
      else match split sep rest with
           | word :: words => String c word :: words
           | [] => [String c EmptyString]
           end
  end.

(** The text that the action [copy] (and [cut]) writes to the system
    clipboard:
<<
    if (selectedCells.length > 0) {
      const cellsData = selectedCells.map(cell => ({ ...,
        value: getCellValue(cell.row, cell.column), ... }));
      const textData = cellsData.map(cell => cell.value).join('\t');
      navigator.clipboard?.writeText(textData);
    }
>>
    [None] when nothing is written. [getCellValue] of the page has the
    body of the grid's. *)
Definition copyText (cells : list Cell) (selectedCells : list PageCell)
  : option string :=
  match selectedCells with
  | [] => None
  | _ =>
      Some (String.concat (String tab EmptyString)
              ((fun cell => getCellValue cells (pc_row cell) (pc_column cell))
                 <$> selectedCells))
  end.

(** The calls of [handleCellUpdate] that the action [paste] makes, one
    after the other, for the text it reads from the system clipboard:
<<
    const values = text.split('\t');
    for (let i = 0; i < values.length; i++) {
      const row = selectedCell.row;
      const col = selectedCell.column + i;
      if (col <= 26) await handleCellUpdate(row, col, values[i]);
    }
>> *)
Definition pasteCalls (selectedCell : SelectedCell) (text : string)
  : list CellUpdateCall :=
  mjoin (imap (fun i value =>
                 let col := sc_column selectedCell + Z.of_nat i in
                 if col <=? 26
                 then [ {| cu_row := sc_row selectedCell; cu_column := col;
                           cu_value := value; cu_formula := None |} ]
                 else [])
              (split tab text)).

(** The calls of the actions [delete] and [cut]:
    [await handleCellUpdate(cell.row, cell.column, "")] for every
    selected cell. *)
Definition clearCalls (selectedCells : list PageCell) : list CellUpdateCall :=
  (fun cell => {| cu_row := pc_row cell; cu_column := pc_column cell;
                  cu_value := ""; cu_formula := None |}) <$> selectedCells.

Section Server.

(** [isNaN(Number(value))] of the JavaScript runtime. *)
Variable isNaN_Number : string -> bool.

(** One awaited call of [handleCellUpdate] against the storage: the
    request reaches [updateCellByPosition]; when that throws, the route
    answers 400, the handler shows a toast, and the storage is as it
    was. *)
Definition awaitCellUpdate (st : Storage) (activeSheet : Z)
    (call : CellUpdateCall) (now : Z) : Storage :=
  match handleCellUpdate isNaN_Number st activeSheet (cu_row call)
          (cu_column call) (cu_value call) (cu_formula call) now with
  | Ok (st', _) => st'
  | Throw _ => st
  end.

(** The calls awaited one after the other; [now i] is the time of the
    [i]-th request. *)
Fixpoint awaitEach (st : Storage) (activeSheet : Z)
    (calls : list CellUpdateCall) (now : nat -> Z) : Storage :=
  match calls with
  | [] => st
  | call :: rest =>
      awaitEach (awaitCellUpdate st activeSheet call (now O)) activeSheet
                rest (fun i => now (S i))
  end.

(** The action [delete] of [handleToolbarAction], and the writes of the
    action [cut]: nothing without an active sheet, else the selected
    cells are cleared one after the other. *)
Definition toolbarDelete (st : Storage) (activeSheet : option Z)
    (selectedCells : list PageCell) (now : nat -> Z) : Storage :=
  match activeSheet with
  | None => st
  | Some sheet =>
      if decide (sheet = 0) then st
      else awaitEach st sheet (clearCalls selectedCells) now
  end.

(** The action [paste]: nothing without an active sheet or a selected
    cell, else the values of the text are written one after the other. *)
Definition toolbarPaste (st : Storage) (activeSheet : option Z)
    (selectedCell : option SelectedCell) (text : string) (now : nat -> Z)
  : Storage :=
  match activeSheet, selectedCell with
  | Some sheet, Some c =>
      if decide (sheet = 0) then st
      else awaitEach st sheet (pasteCalls c text) now
  | _, _ => st
  end.

End Server.

(** ** The register page: password strength *)

(** [PasswordStrength]: [{ score, feedback, color }]. *)
Record PasswordStrength := mkPasswordStrength {
  score : nat;
  feedback : list string;
  color : string
}.

(** [/[a-z]/.test(password)] and the like: some code unit of the
    password is in the class. *)
Definition regexTest (class : N -> bool) (password : jsstring) : bool :=
  existsb class password.

Definition lowercase (u : N) : bool := ((97 <=? u) && (u <=? 122))%N.
Definition uppercase (u : N) : bool := ((65 <=? u) && (u <=? 90))%N.
Definition digit (u : N) : bool := ((48 <=? u) && (u <=? 57))%N.

(** [[@$!%*?&]]. *)
Definition special (u : N) : bool :=
  bool_decide (u ∈ [64; 36; 33; 37; 42; 63; 38]%N).

(** One check: [if (ok) score += 1; else feedback.push(message);]. *)
Definition check (ok : bool) (message : string) (acc : nat * list string)
  : nat * list string :=
  if ok then (S (fst acc), snd acc) else (fst acc, snd acc ++ [message]).

Definition colors : list string := ["red"; "red"; "orange"; "yellow"; "green"].

(** [calculatePasswordStrength]:
<<
    let score = 0;  const feedback = [];
    if (password.length >= 8) score += 1;
    else feedback.push("At least 8 characters");
    if (/[a-z]/.test(password)) score += 1;
    else feedback.push("Lowercase letter");
    if (/[A-Z]/.test(password)) score += 1;
    else feedback.push("Uppercase letter");
    if (/\d/.test(password)) score += 1;
    else feedback.push("Number");
    if (/[@$!%*?&]/.test(password)) score += 1;
    else feedback.push("Special character (@$!%*?&)");
    const colors = ["red", "red", "orange", "yellow", "green"];
    const color = colors[score] || "red";
    return { score, feedback, color };
>> *)
Definition calculatePasswordStrength (password : jsstring) : PasswordStrength :=
  let acc := (O, []) in
  let acc := check (8 <=? length password)%nat "At least 8 characters" acc in
  let acc := check (regexTest lowercase password) "Lowercase letter" acc in
  let acc := check (regexTest uppercase password) "Uppercase letter" acc in
  let acc := check (regexTest digit password) "Number" acc in
  let acc := check (regexTest special password)
                   "Special character (@$!%*?&)" acc in
  {| score := fst acc;
     feedback := snd acc;
     color := default "red" (colors !! fst acc) |}.

(** The five criteria of a password. *)
Definition criteria (password : jsstring) : list bool :=
  [ (8 <=? length password)%nat; regexTest lowercase password;
    regexTest uppercase password; regexTest digit password;
    regexTest special password ].

(** [isFormValid] of the register page:
<<
    formData.username.length >= 3 && formData.email.includes("@") &&
    passwordStrength.score >= 4 && passwordsMatch
>> *)
Definition isFormValid (username email password confirmPassword : jsstring)
  : bool :=
  (3 <=? length username)%nat &&
  bool_decide (64%N ∈ email) &&
  (4 <=? score (calculatePasswordStrength password))%nat &&
  bool_decide (password = confirmPassword).

End Pages.

(* ===================================================================== *)
(** * The CSV export route *)
(* ===================================================================== *)

Module Routes.
Import Store Grid.

(** [Math.max(...l, 0)]. *)
Definition maxOr0 (l : list Z) : Z := fold_left Z.max l 0.

(** The rows of fields of [GET /api/spreadsheets/:id/export/csv], for the
    cells of the first sheet:
<<
    const maxRow = Math.max(...cells.map(c => c.row), 0);
    const maxCol = Math.max(...cells.map(c => c.column), 0);
    for (let row = 1; row <= maxRow; row++) {
      const csvRow = [];
      for (let col = 1; col <= maxCol; col++) {
        const cell = cells.find(c => c.row === row && c.column === col);
        csvRow.push(cell?.value || "");
      }
      csvRows.push(csvRow.join(","));
    }
>> *)
Definition csvFields (cells : list Cell) : list (list string) :=
  let maxRow := maxOr0 (cell_row <$> cells) in
  let maxCol := maxOr0 (cell_column <$> cells) in
  (fun row =>
     (fun col => default "" (findCell cells row col ≫= cell_value))
       <$> seqZ 1 maxCol)
    <$> seqZ 1 maxRow.

(** The line feed character. *)
Definition newline : ascii := ascii_of_nat 10.

(** The text that the route sends: [csvRows.join("\n")]. *)
Definition csvText (cells : list Cell) : string :=
  String.concat (String newline EmptyString)
    (String.concat "," <$> csvFields cells).

(** What the route answers: 404 when the spreadsheet has no sheet, else
    the CSV of the cells of its first sheet. [sheets] are the ids of the
    sheets that [getSheetsBySpreadsheet] returns. *)
Definition exportCsv (st : Storage) (sheets : list Z) : option string :=
  match sheets with
  | [] => None
  | firstSheet :: _ => Some (csvText (getCellsBySheet st firstSheet))
  end.

End Routes.

(* ===================================================================== *)
(** * Column letters: properties *)
(* ===================================================================== *)

Module ColumnsFacts.
Import Columns.
Local Open Scope N_scope.














Example getColumnLetter_1 : getColumnLetter 1 = [65].
Proof. reflexivity. Qed.

Example getColumnLetter_26 : getColumnLetter 26 = [90].
Proof. reflexivity. Qed.

Example getColumnLetter_27 : getColumnLetter 27 = [65; 65].
Proof. reflexivity. Qed.

Example getColumnLetter_703 : getColumnLetter 703 = [65; 65; 65].
Proof. reflexivity. Qed.




End ColumnsFacts.

(* ===================================================================== *)
(** * The cell store: properties *)
(* ===================================================================== *)

Module StoreFacts.
Import Store.

(** ** Finding cells *)

Lemma getCell_find st sheetId row column x :
  getCell st sheetId row column = Some x <->
  exists i, list_find (atPosition sheetId row column) (cells st) = Some (i, x).
Proof.
  unfold getCell. rewrite fmap_Some. split.
  - intros [[i y] [H ->]]. now exists i.
  - intros [i H]. now exists (i, x).
Qed.

Lemma getCell_None st sheetId row column :
  getCell st sheetId row column = None <->
  Forall (fun c => ¬ atPosition sheetId row column c) (cells st).
Proof. unfold getCell. rewrite fmap_None. apply list_find_None. Qed.

Lemma atPosition_position sheetId row column c :
  atPosition sheetId row column c <-> position c = (sheetId, row, column).
Proof.
  unfold atPosition, position. split.
  - intros (-> & -> & ->). reflexivity.
  - intros [= -> -> ->]. auto.
Qed.

(** With distinct ids, looking a stored cell up by its id finds that cell. *)
Lemma find_by_id (l : list Cell) i x :
  NoDup (cell_id <$> l) -> l !! i = Some x ->
  list_find (fun c => cell_id c = cell_id x) l = Some (i, x).
Proof.
  intros Hnd Hi. apply list_find_Some. split_and!; [done..|].
  intros j y Hj Hlt Heq.
  assert (i = j); [|lia].
  eapply NoDup_lookup; [exact Hnd| |].
  - rewrite list_lookup_fmap, Hi. reflexivity.
  - rewrite list_lookup_fmap, Hj. simpl. now rewrite Heq.
Qed.

(** Replacing an element by one the predicate cannot tell apart moves no
    search result. *)
Lemma list_find_insert_same {A} (P : A -> Prop) `{!forall x, Decision (P x)}
    (l : list A) i x y :
  l !! i = Some x -> (P y <-> P x) ->
  list_find P (<[i:=y]> l) =
  (fun jz => (jz.1, if decide (jz.1 = i) then y else jz.2)) <$> list_find P l.
Proof.
  revert i. induction l as [|a l IH]; intros i Hi HP; [done|].
  destruct i as [|i]; simpl in *.
  - injection Hi as ->.
    destruct (decide (P y)) as [Hy|Hy], (decide (P x)) as [Hx|Hx];
      try tauto; simpl.
    destruct (list_find P l) as [[j z]|]; simpl; done.
  - destruct (decide (P a)); simpl; [done|].
    rewrite (IH i Hi HP).
    destruct (list_find P l) as [[j z]|]; simpl; [|done].
    repeat case_decide; try lia; done.
Qed.

(** ** The cells after each store method *)

Lemma spread_position c u now :
  contentOnly u -> position (spread c u now) = position c.
Proof.
  intros (Hid & Hs & Hr & Hc). unfold position, spread. simpl.
  now rewrite Hs, Hr, Hc.
Qed.

Lemma spread_id c u now :
  contentOnly u -> cell_id (spread c u now) = cell_id c.
Proof. intros (Hid & _). unfold spread. simpl. now rewrite Hid. Qed.

Lemma spread_content c u now :
  content (spread c u now) = writeContent (Some (content c)) u.
Proof. reflexivity. Qed.

(** What one call of [updateCellByPosition] does to a well-formed store. *)
Lemma updateCellByPosition_step st sheetId row column u now :
  uniqueIds st -> contentOnly u ->
  match getCell st sheetId row column with
  | Some existing =>
      exists i,
        cells st !! i = Some existing /\
        updateCellByPosition st sheetId row column u now =
          Ok ({| cells := <[i := spread existing u now]> (cells st);
                 counters_cells := counters_cells st |},
              spread existing u now)
  | None =>
      updateCellByPosition st sheetId row column u now =
        Ok (createCell st
              {| ins_sheetId := sheetId; ins_row := row; ins_column := column;
                 ins_value := mjoin (u_value u);
                 ins_formula := mjoin (u_formula u);
                 ins_dataType := default text (u_dataType u);
                 ins_formatting := mjoin (u_formatting u) |} now)
  end.
Proof.
  intros [Hnd _] Hu. unfold updateCellByPosition.
  destruct (getCell st sheetId row column) as [existing|] eqn:Hget; [|done].
  apply getCell_find in Hget as [i Hfind].
  pose proof Hfind as (Hi & _ & _)%list_find_Some.
  exists i. split; [done|]. unfold updateCell.
  now rewrite (find_by_id _ _ _ Hnd Hi).
Qed.


(** The effect of one call on a store with one cell per position and
    distinct ids, when the updates carry content keys only. *)
Lemma updateCellByPosition_effect st sheetId row column u now :
  uniquePositions st -> uniqueIds st -> contentOnly u ->
  exists st' c,
    updateCellByPosition st sheetId row column u now = Ok (st', c) /\
    uniquePositions st' /\ uniqueIds st' /\
    getCell st' sheetId row column = Some c /\
    content c = writeContent (content <$> getCell st sheetId row column) u /\
    (forall s r k, (s, r, k) <> (sheetId, row, column) ->
       getCell st' s r k = getCell st s r k) /\
    (forall i c0, cells st !! i = Some c0 ->
       exists c1, cells st' !! i = Some c1 /\ cell_id c1 = cell_id c0 /\
                  position c1 = position c0) /\
    match getCell st sheetId row column with
    | Some existing =>
        cell_id c = cell_id existing /\
        exists i, cells st !! i = Some existing /\
                  cells st' = <[i := c]> (cells st) /\
                  counters_cells st' = counters_cells st
    | None =>
        cells st' = cells st ++ [c] /\ cell_id c = counters_cells st /\
        counters_cells st' = counters_cells st + 1
    end.
Proof.
  intros Hpos Hids Hu.
  pose proof (updateCellByPosition_step st sheetId row column u now Hids Hu)
    as Hstep.
  destruct Hids as [Hnd Hlt]. unfold uniquePositions in Hpos.
  destruct (getCell st sheetId row column) as [existing|] eqn:Hget.
  - (* the position holds a cell: it is updated in place *)
    destruct Hstep as (i & Hi & Hstep).
    apply getCell_find in Hget as [i' Hfind].
    pose proof Hfind as (Hi' & Hat & _)%list_find_Some.
    assert (i' = i) as ->.
    { eapply NoDup_lookup; [exact Hpos| |]; rewrite list_lookup_fmap.
      - now rewrite Hi'.
      - now rewrite Hi. }
    set (c := spread existing u now) in *.
    assert (Hcp : position c = position existing) by now apply spread_position.
    assert (Hci : cell_id c = cell_id existing) by now apply spread_id.
    eexists _, c. split; [exact Hstep|]. simpl.
    assert (Hsame : forall s r k, atPosition s r k c <-> atPosition s r k existing)
      by (intros; now rewrite !atPosition_position, Hcp).
    split_and!.
    + unfold uniquePositions. simpl. rewrite list_fmap_insert, Hcp.
      rewrite list_insert_id; [done|]. now rewrite list_lookup_fmap, Hi.
    + split; simpl.
      * rewrite list_fmap_insert, Hci.
        rewrite list_insert_id; [done|]. now rewrite list_lookup_fmap, Hi.
      * apply Forall_insert; [done|]. rewrite Hci.
        eapply Forall_lookup_1 in Hlt; [|exact Hi]. done.
    + unfold getCell. simpl.
      rewrite (list_find_insert_same _ _ _ _ _ Hi (Hsame _ _ _)), Hfind.
      simpl. now rewrite decide_True.
    + done.
    + intros s r k Hne. unfold getCell. simpl.
      rewrite (list_find_insert_same _ _ _ _ _ Hi (Hsame _ _ _)).
      destruct (list_find (atPosition s r k) (cells st)) as [[j z]|] eqn:Hf;
        simpl; [|done].
      case_decide as Hj; [|done]. subst j.
      apply list_find_Some in Hf as (Hz & Hatz & _).
      rewrite Hi in Hz. injection Hz as <-.
      apply atPosition_position in Hat, Hatz. congruence.
    + intros j c0 Hj. destruct (decide (j = i)) as [->|Hne].
      * exists c. rewrite list_lookup_insert_eq by (eapply lookup_lt_Some; eauto).
        rewrite Hi in Hj. injection Hj as <-. done.
      * exists c0. now rewrite list_lookup_insert_ne.
    + exact Hci.
    + exists i. split_and!; done.
  - (* the position is free: a cell is appended *)
    apply getCell_None in Hget.
    set (ins := {| ins_sheetId := sheetId |}) in *.
    set (c := (createCell st ins now).2).
    exists (createCell st ins now).1, c.
    split; [rewrite Hstep; now destruct (createCell st ins now)|].
    assert (Hcp : position c = (sheetId, row, column)) by reflexivity.
    assert (Hfree : (sheetId, row, column) ∉ position <$> cells st).
    { intros (x & Hx & Hin)%list_elem_of_fmap.
      eapply Forall_forall in Hget; [|exact Hin].
      apply Hget, atPosition_position. done. }
    simpl. split_and!.
    + unfold uniquePositions. simpl. rewrite fmap_app. apply NoDup_app.
      split_and!; [done| |apply NoDup_singleton].
      intros p Hp ->%list_elem_of_singleton. done.
    + split; simpl.
      * rewrite fmap_app. apply NoDup_app.
        split_and!; [done| |apply NoDup_singleton].
        intros x (y & -> & Hin)%list_elem_of_fmap ?%list_elem_of_singleton.
        eapply Forall_forall in Hlt; [|exact Hin]. simpl in *. lia.
      * apply Forall_app. split.
        -- eapply Forall_impl; [exact Hlt|]. simpl. intros; lia.
        -- constructor; [simpl; lia|constructor].
    + unfold getCell. simpl.
      rewrite list_find_app_r by now apply list_find_None.
      simpl. rewrite decide_True; [done|]. now apply atPosition_position.
    + done.
    + intros s r k Hne. unfold getCell. simpl.
      destruct (list_find (atPosition s r k) (cells st)) as [[j z]|] eqn:Hf.
      * now rewrite (list_find_app_l _ _ _ _ _ Hf).
      * rewrite list_find_app_r by done. simpl.
        rewrite decide_False; [done|].
        intros Hk%atPosition_position.
        change (position c = (s, r, k)) in Hk. congruence.
    + intros j c0 Hj. exists c0. split; [|done].
      now apply lookup_app_l_Some.
    + done.
    + done.
    + done.
Qed.


(** ** Sequences of writes *)

Lemma contentAfter_cons p init w ws :
  contentAfter p init (w :: ws) =
  contentAfter p
    (if decide (w_position w = p)
     then Some (writeContent init (w_updates w)) else init) ws.
Proof. reflexivity. Qed.

(** The grid reads a free position as the empty string. *)
Lemma getCellValue_free st sheetId row column :
  getCell st sheetId row column = None ->
  getCellValue (getCellsBySheet st sheetId) row column = "".
Proof.
  intros Hnone%getCell_None. unfold getCellValue, getCellsBySheet.
  destruct (list_find _ _) as [[i c]|] eqn:Hf; [exfalso|done].
  apply list_find_Some in Hf as (Hi%list_elem_of_lookup_2 & [Hr Hc] & _).
  apply list_elem_of_filter in Hi as [Hs Hin].
  eapply Forall_forall in Hnone; [|exact Hin].
  apply Hnone. done.
Qed.

(** The store after a sequence of content-only writes. *)
Lemma runWrites_effect ws : forall st0,
  uniquePositions st0 -> uniqueIds st0 ->
  Forall (fun w => contentOnly (w_updates w)) ws ->
  exists st',
    runWrites st0 ws = Ok st' /\
    uniquePositions st' /\ uniqueIds st' /\
    (forall s r k,
       content <$> getCell st' s r k =
       contentAfter (s, r, k) (content <$> getCell st0 s r k) ws) /\
    (forall s r k, (s, r, k) ∉ w_position <$> ws ->
       getCell st' s r k = getCell st0 s r k) /\
    (forall i c0, cells st0 !! i = Some c0 ->
       exists c1, cells st' !! i = Some c1 /\ cell_id c1 = cell_id c0 /\
                  position c1 = position c0).
Proof.
  induction ws as [|w ws IH]; intros st0 Hpos Hids Hall.
  - exists st0. split_and!; try done. intros i c0 H. eauto.
  - apply Forall_cons in Hall as [Hw Hall].
    destruct (updateCellByPosition_effect st0 (w_sheetId w) (w_row w)
                (w_column w) (w_updates w) (w_now w) Hpos Hids Hw)
      as (st1 & c & Hrun & Hpos1 & Hids1 & Hget & Hcont & Hother & Hplace & _).
    destruct (IH st1 Hpos1 Hids1 Hall)
      as (st' & Hrun' & Hpos' & Hids' & Hc' & Hn' & Hp').
    exists st'. split_and!; try done.
    + simpl. now rewrite Hrun.
    + intros s r k. rewrite Hc', contentAfter_cons. f_equal.
      unfold w_position. case_decide as Hd.
      * injection Hd as <- <- <-. rewrite Hget. simpl. now rewrite Hcont.
      * rewrite Hother; [done|]. congruence.
    + intros s r k Hnot. rewrite fmap_cons, not_elem_of_cons in Hnot.
      destruct Hnot as [Hne Hnot]. rewrite (Hn' _ _ _ Hnot).
      apply Hother. unfold w_position in Hne. congruence.
    + intros i c0 Hi.
      destruct (Hplace i c0 Hi) as (c1 & Hi1 & Hid1 & Hp1).
      destruct (Hp' i c1 Hi1) as (c2 & Hi2 & Hid2 & Hp2).
      exists c2. split_and!; congruence.
Qed.

(** ** The cell states of reachable stores *)

Section ReachableStates.
Variable isNaN_Number : string -> bool.





End ReachableStates.

Lemma snd_shift {A} (o : option (nat * A)) :
  snd <$> (prod_map S id <$> o) = snd <$> o.
Proof. now destruct o as [[]|]. Qed.

(** The grid's lookup on the cells of a sheet is the store's [getCell]. *)
Lemma find_in_sheet (l : list Cell) sheetId row column :
  snd <$> list_find (fun c => cell_row c = row ∧ cell_column c = column)
            (filter (fun c => cell_sheetId c = sheetId) l) =
  snd <$> list_find (atPosition sheetId row column) l.
Proof.
  induction l as [|a l IH]; [done|].
  rewrite filter_cons. simpl.
  destruct (decide (cell_sheetId a = sheetId)) as [Hs|Hs]; simpl.
  - destruct (decide (cell_row a = row ∧ cell_column a = column)) as [Hrc|Hrc];
      destruct (decide (atPosition sheetId row column a)) as [Hat|Hat];
      unfold atPosition in Hat; try tauto; simpl.
    now rewrite !snd_shift.
  - destruct (decide (atPosition sheetId row column a)) as [Hat|Hat];
      [unfold atPosition in Hat; tauto|].
    now rewrite snd_shift.
Qed.


Lemma runWrites_app ws1 : forall st0 ws2,
  runWrites st0 (ws1 ++ ws2) =
  match runWrites st0 ws1 with
  | Ok st1 => runWrites st1 ws2
  | Throw msg => Throw msg
  end.
Proof.
  induction ws1 as [|w ws1 IH]; intros st0 ws2; simpl; [done|].
  destruct (updateCellByPosition _ _ _ _ _ _) as [[st1 c]|msg]; [|done].
  apply IH.
Qed.

(** ** What the store guarantees *)




(** C10 (as the code has it). If the store holds at most one cell per
    position and its ids are distinct and below the counter, then a call
    of [updateCellByPosition] whose updates carry none of the keys [id],
    [sheetId], [row], [column] returns, and keeps all of this: it updates
    in place the cell that [getCell] finds when there is one (same id,
    same index, no new cell) and appends a new cell with the next id only
    when there is none; afterwards [getCell] returns that cell. *)
Theorem updateCellByPosition_one_cell_per_position
    (st : Storage) (sheetId row column : Z) (u : Updates) (now : Z) :
  uniquePositions st -> uniqueIds st -> contentOnly u ->
  exists st' c,
    updateCellByPosition st sheetId row column u now = Ok (st', c) /\
    uniquePositions st' /\ uniqueIds st' /\
    getCell st' sheetId row column = Some c /\
    match getCell st sheetId row column with
    | Some existing =>
        cell_id c = cell_id existing /\
        exists i, cells st !! i = Some existing /\
                  cells st' = <[i := c]> (cells st) /\
                  counters_cells st' = counters_cells st
    | None =>
        cells st' = cells st ++ [c] /\ cell_id c = counters_cells st /\
        counters_cells st' = counters_cells st + 1
    end.
Proof.
  intros Hpos Hids Hu.
  destruct (updateCellByPosition_effect st sheetId row column u now Hpos Hids Hu)
    as (st' & c & Hrun & Hpos' & Hids' & Hget & _ & _ & _ & Hcase).
  exists st', c. split_and!; done.
Qed.

Lemma sample_uniquePositions : uniquePositions (sampleStorage 0).
Proof. apply (bool_decide_unpack _). vm_compute. exact I. Defined.

Lemma sample_uniqueIds : uniqueIds (sampleStorage 0).
Proof.
  split; [apply (bool_decide_unpack _); vm_compute; exact I|].
  apply (bool_decide_unpack _). vm_compute. exact I.
Defined.

Lemma updateCellByPosition_one_cell_per_position_witness :
  exists st' c,
    updateCellByPosition (sampleStorage 0) 1 3 2 (valueOnly "7") 5 = Ok (st', c) /\
    uniquePositions st' /\ uniqueIds st' /\
    getCell st' 1 3 2 = Some c /\
    match getCell (sampleStorage 0) 1 3 2 with
    | Some existing =>
        cell_id c = cell_id existing /\
        exists i, cells (sampleStorage 0) !! i = Some existing /\
                  cells st' = <[i := c]> (cells (sampleStorage 0)) /\
                  counters_cells st' = counters_cells (sampleStorage 0)
    | None =>
        cells st' = cells (sampleStorage 0) ++ [c] /\
        cell_id c = counters_cells (sampleStorage 0) /\
        counters_cells st' = counters_cells (sampleStorage 0) + 1
    end.
Proof.
  apply (updateCellByPosition_one_cell_per_position (sampleStorage 0) 1 3 2
           (valueOnly "7") 5).
  - exact sample_uniquePositions.
  - exact sample_uniqueIds.
  - repeat split.
Defined.

(** C10 as stated fails: after two first writes the store has one cell per
    position, and a call whose updates carry the key [column] leaves two
    cells at the same position. *)
Lemma updateCellByPosition_duplicates_position :
  exists st,
    runWrites emptyStorage
      [ {| w_sheetId := 1; w_row := 1; w_column := 1;
           w_updates := valueOnly "a"; w_now := 0 |};
        {| w_sheetId := 1; w_row := 1; w_column := 2;
           w_updates := valueOnly "b"; w_now := 0 |} ] = Ok st /\
    uniquePositions st /\
    exists st' c,
      updateCellByPosition st 1 1 1 (moveToColumn 2) 0 = Ok (st', c) /\
      position <$> cells st' = [(1, 1, 2); (1, 1, 2)] /\
      ¬ uniquePositions st'.
Proof.
  eexists. split; [reflexivity|].
  split; [apply (bool_decide_unpack _); vm_compute; exact I|].
  eexists _, _. split; [reflexivity|]. split; [reflexivity|].
  intros Hnd. apply (bool_decide_pack _) in Hnd. vm_compute in Hnd. exact Hnd.
Qed.

(** C8 (as the code has it). Start from a store with one cell per position
    and distinct ids below the counter (the empty store, the sample data),
    and write through [updateCellByPosition] with updates that carry none
    of the keys [id], [sheetId], [row], [column]. Then every call returns,
    and afterwards: a position that held no cell and was never written
    holds none, and the grid reads it as the empty string; the content
    (value, formula, dataType) at a position is that of its last write,
    where a first write creates the cell from the written value and
    formula with [dataType] from the write or ["text"], and a later write
    replaces what it carries and keeps the rest; and a cell, once
    created, keeps its id, its index and its position under all later
    writes. In the engine, an unset position resolves to the empty value,
    which is 0 as a number and [""] as a text. *)
Theorem store_lifecycle (st0 : Storage) (ws : list Write) :
  uniquePositions st0 -> uniqueIds st0 ->
  Forall (fun w => contentOnly (w_updates w)) ws ->
  exists st',
    runWrites st0 ws = Ok st' /\
    (forall s r k,
       getCell st0 s r k = None -> (s, r, k) ∉ w_position <$> ws ->
       getCell st' s r k = None /\
       getCellValue (getCellsBySheet st' s) r k = "") /\
    (forall s r k,
       content <$> getCell st' s r k =
       contentAfter (s, r, k) (content <$> getCell st0 s r k) ws) /\
    (forall ws1 ws2, ws = ws1 ++ ws2 ->
       exists st1, runWrites st0 ws1 = Ok st1 /\
         forall i c1, cells st1 !! i = Some c1 ->
           exists c2, cells st' !! i = Some c2 /\ cell_id c2 = cell_id c1 /\
                      position c2 = position c1) /\
    (forall (L : Engine.Library) (cs : Engine.CellStore) (c : Engine.coord),
       cs !! c = None ->
       Engine.resolveCell cs c = Engine.Value Engine.Empty /\
       Engine.toNumber Engine.Empty = inl 0%Qc /\
       Engine.toText Engine.Empty = "").
Proof.
  intros Hpos Hids Hall.
  destruct (runWrites_effect ws st0 Hpos Hids Hall)
    as (st' & Hrun & Hpos' & Hids' & Hcont & Hnever & _).
  exists st'. split_and!; [done| |done| |].
  - intros s r k Hnone Hnot.
    assert (Hst' : getCell st' s r k = None) by now rewrite Hnever.
    split; [done|]. now apply getCellValue_free.
  - intros ws1 ws2 ->. apply Forall_app in Hall as [Hall1 Hall2].
    destruct (runWrites_effect ws1 st0 Hpos Hids Hall1)
      as (st1 & Hrun1 & Hpos1 & Hids1 & _ & _ & _).
    exists st1. split; [done|].
    destruct (runWrites_effect ws2 st1 Hpos1 Hids1 Hall2)
      as (st2 & Hrun2 & _ & _ & _ & _ & Hplace).
    rewrite runWrites_app, Hrun1, Hrun2 in Hrun. injection Hrun as <-.
    exact Hplace.
  - intros L cs c Hc. unfold Engine.resolveCell. now rewrite Hc.
Qed.

Lemma store_lifecycle_witness :
  exists st',
    runWrites emptyStorage
      [ {| w_sheetId := 1; w_row := 1; w_column := 1;
           w_updates := valueOnly "a"; w_now := 0 |};
        {| w_sheetId := 1; w_row := 1; w_column := 1;
           w_updates := valueOnly "b"; w_now := 1 |} ] = Ok st' /\
    getCell st' 1 1 1 ≫= cell_value = Some "b" /\
    length (cells st') = 1%nat.
Proof.
  destruct (store_lifecycle emptyStorage
      [ {| w_sheetId := 1; w_row := 1; w_column := 1;
           w_updates := valueOnly "a"; w_now := 0 |};
        {| w_sheetId := 1; w_row := 1; w_column := 1;
           w_updates := valueOnly "b"; w_now := 1 |} ])
    as (st' & Hrun & _).
  - constructor.
  - split; constructor.
  - repeat constructor.
  - exists st'. split; [exact Hrun|].
    injection Hrun as <-. split; reflexivity.
Defined.

(** C8 as stated fails: a second write to row 1, column 1 whose updates
    carry the key [row] moves the cell; after that write [getCell] finds
    no cell at the written position, and finds one at a position that was
    never written. *)
Lemma write_can_move_cell :
  exists st',
    runWrites emptyStorage
      [ {| w_sheetId := 1; w_row := 1; w_column := 1;
           w_updates := valueOnly "a"; w_now := 0 |};
        {| w_sheetId := 1; w_row := 1; w_column := 1;
           w_updates := valueAndRow "b" 2; w_now := 1 |} ] = Ok st' /\
    getCell st' 1 1 1 = None /\
    getCell st' 1 2 1 ≫= cell_value = Some "b".
Proof. eexists. split; [reflexivity|]. split; reflexivity. Qed.

End StoreFacts.

(* ===================================================================== *)
(** * The parser on arithmetic formulas *)
(* ===================================================================== *)

Module ParserFacts.
Import Engine.
Local Open Scope nat_scope.












End ParserFacts.

(* ===================================================================== *)
(** * The evaluator on arithmetic formulas *)
(* ===================================================================== *)

Module ArithmeticFacts.
Import Engine.

Section WithLibrary.
Context `{Library}.




End WithLibrary.



(** The examples of the specification. *)
Example evaluateFormula_2_plus_3_times_4 :
  evaluateFormula (H := bareLibrary) ∅ 1 "=2+3*4" = Value (Number (Qc_of_Z 14)).
Proof. vm_compute. reflexivity. Qed.

Example evaluateFormula_2_plus_3_in_parens_times_4 :
  evaluateFormula (H := bareLibrary) ∅ 1 "=(2+3)*4" = Value (Number (Qc_of_Z 20)).
Proof. vm_compute. reflexivity. Qed.

Example evaluateFormula_2_to_the_10 :
  evaluateFormula (H := bareLibrary) ∅ 1 "=2^10" = Value (Number (Qc_of_Z 1024)).
Proof. vm_compute. reflexivity. Qed.

End ArithmeticFacts.

(* ===================================================================== *)
(** * The dependency graph: closure and topological order *)
(* ===================================================================== *)

Module GraphFacts.
Import Engine.
Local Open Scope nat_scope.

Implicit Types (g : gmap coord (list coord)) (X Y U : gset coord)
  (x y c : coord).

Lemma elem_of_dependents g c x : x ∈ dependents g c <-> feeds g c x.
Proof.
  unfold dependents, feeds, precedents. rewrite elem_of_filter, elem_of_dom.
  split; [tauto|]. intros Hin. split; [done|].
  destruct (g !! x); [done|]. simpl in Hin. set_solver.
Qed.

Lemma dependents_dom g c : dependents g c ⊆ dom g.
Proof. unfold dependents. intros x. rewrite elem_of_filter. tauto. Qed.

(** ** The closure *)

Section Closure.
Variable succ : coord -> gset coord.

Let step (a b : coord) : Prop := b ∈ succ a.

Lemma closure_extensive n X : X ⊆ closure succ n X.
Proof.
  revert X. induction n as [|n IH]; intros X; simpl; [done|].
  case_decide; [done|]. etrans; [|apply IH]. set_solver.
Qed.

Lemma closure_sound n : forall X y,
  y ∈ closure succ n X -> exists x, x ∈ X /\ rtc step x y.
Proof.
  induction n as [|n IH]; intros X y; simpl.
  - intros Hy. exists y. split; [done|]. apply rtc_refl.
  - case_decide.
    + intros Hy. exists y. split; [done|]. apply rtc_refl.
    + intros (x & [Hx|Hx]%elem_of_union & Hrtc)%IH.
      * eauto.
      * apply elem_of_set_bind in Hx as (x0 & Hx & Hx0).
        exists x0. split; [done|]. eapply rtc_l; [exact Hx0|done].
Qed.

(** With enough fuel the result is closed under [succ]. *)
Lemma closure_closed U n : forall X,
  X ⊆ U -> (forall x, x ∈ U -> succ x ⊆ U) ->
  size U < size X + n ->
  forall x, x ∈ closure succ n X -> succ x ⊆ closure succ n X.
Proof.
  induction n as [|n IH]; intros X HXU HU Hsize; simpl.
  - apply subseteq_size in HXU. lia.
  - case_decide as Hsub.
    + intros x Hx y Hy. apply Hsub. apply elem_of_union_r.
      apply elem_of_set_bind. eauto.
    + apply IH; [|done|].
      * intros y [Hy|Hy]%elem_of_union; [set_solver|].
        apply elem_of_set_bind in Hy as (x0 & Hx & Hx0).
        eapply HU; [|exact Hx0]. set_solver.
      * assert (X ⊂ X ∪ set_bind succ X) as Hlt%subset_size; [|lia].
        split; [set_solver|done].
Qed.

Lemma closure_complete U n X :
  X ⊆ U -> (forall x, x ∈ U -> succ x ⊆ U) ->
  size U < size X + n ->
  forall x y, x ∈ X -> rtc step x y -> y ∈ closure succ n X.
Proof.
  intros HXU HU Hsize x y Hx Hrtc. revert y Hrtc.
  apply (rtc_ind_r (fun y => y ∈ closure succ n X)).
  - now apply closure_extensive.
  - intros y z _ Hyz IH. eapply closure_closed; eauto.
Qed.

End Closure.

(** The dependents closure is the set of the cells that depend on a cell
    of the set. *)
Lemma elem_of_dependentsClosure g X y :
  y ∈ dependentsClosure g X <-> exists x, x ∈ X /\ rtc (feeds g) x y.
Proof.
  unfold dependentsClosure. split.
  - intros (x & Hx & Hrtc)%closure_sound. exists x. split; [done|].
    eapply rtc_subrel; [|exact Hrtc]. intros a b. apply elem_of_dependents.
  - intros (x & Hx & Hrtc).
    eapply (closure_complete _ (X ∪ dom g));
      [apply union_subseteq_l| | |exact Hx|].
    + intros a _. etrans; [apply dependents_dom|apply union_subseteq_r].
    + rewrite size_union_alt.
      assert (size (dom g ∖ X) <= size (dom g))
        by (apply subseteq_size, subseteq_difference_l; reflexivity).
      lia.
    + eapply rtc_subrel; [|exact Hrtc]. intros a b. apply elem_of_dependents.
Qed.

Lemma elem_of_dirtySet g c y : y ∈ dirtySet g c <-> dependsOn g c y.
Proof.
  unfold dirtySet, dependsOn. rewrite elem_of_dependentsClosure. split.
  - intros (x & ->%elem_of_singleton & Hrtc). done.
  - intros Hrtc. exists c. split; [set_solver|done].
Qed.

Lemma onCycle_inCycle g x : onCycle g x <-> inCycle g x.
Proof.
  unfold onCycle, inCycle. rewrite elem_of_dependentsClosure.
  split; intros (d & Hd & Hrtc); exists d; split; try done;
    now apply elem_of_dependents.
Qed.

(** A cell on a cycle through a dirty cell is dirty. *)
Lemma dependsOn_trans g a b c :
  dependsOn g a b -> dependsOn g b c -> dependsOn g a c.
Proof. unfold dependsOn. intros. eapply rtc_trans; eauto. Qed.


(** ** The topological order *)

Lemma topoOrder_subset g fuel : forall waiting x,
  x ∈ topoOrder g fuel waiting -> x ∈ waiting.
Proof.
  induction fuel as [|fuel IH]; intros waiting x; simpl; [set_solver|].
  destruct (list_find _ _) as [[i x0]|] eqn:Hfind; [|set_solver].
  apply list_find_Some in Hfind as (Hi%list_elem_of_lookup_2 & _).
  intros [->|Hin%IH]%elem_of_cons; [done|].
  now apply list_elem_of_filter in Hin as [_ Hin].
Qed.

Lemma topoOrder_NoDup g fuel : forall waiting, NoDup (topoOrder g fuel waiting).
Proof.
  induction fuel as [|fuel IH]; intros waiting; simpl; [constructor|].
  destruct (list_find _ _) as [[i x0]|]; [|constructor].
  constructor; [|apply IH].
  intros Hin%topoOrder_subset. apply list_elem_of_filter in Hin as [Hne _].
  done.
Qed.

Lemma topoOrder_topological g fuel : forall waiting,
  topological g (topoOrder g fuel waiting).
Proof.
  induction fuel as [|fuel IH]; intros waiting; simpl; [done|].
  destruct (list_find _ _) as [[i x0]|] eqn:Hfind; [|done].
  apply list_find_Some in Hfind as (Hi%list_elem_of_lookup_2 & Hready & _).
  split; [|apply IH].
  eapply Forall_impl; [exact Hready|]. simpl. intros p Hp.
  intros [->|Hin%topoOrder_subset]%elem_of_cons; [done|].
  now apply list_elem_of_filter in Hin as [_ Hin].
Qed.

(** A list that is not empty has an element where a measure is greatest. *)
Lemma list_greatest {A} (f : A -> nat) (l : list A) :
  l <> [] -> exists u, u ∈ l /\ forall w, w ∈ l -> f w <= f u.
Proof.
  induction l as [|a l IH]; [done|]. intros _.
  destruct l as [|b l].
  - exists a. split; [left|]. intros w ->%list_elem_of_singleton. done.
  - destruct IH as (u & Hu & Hmax); [done|].
    destruct (decide (f u <= f a)).
    + exists a. split; [left|].
      intros w [->|Hw]%elem_of_cons; [done|]. specialize (Hmax w Hw). lia.
    + exists u. split; [now right|].
      intros w [->|Hw]%elem_of_cons; [lia|]. now apply Hmax.
Qed.

(** Reading a cell that depends on the reader closes a cycle. *)
Lemma reads_dependent_inCycle g p x :
  feeds g p x -> rtc (feeds g) x p -> inCycle g x.
Proof.
  intros Hpx Hxp. apply rtc_inv in Hxp as [->|(d & Hxd & Hdp)].
  - exists p. split; [done|apply rtc_refl].
  - exists d. split; [done|]. eapply rtc_r; eauto.
Qed.

(** The cells that depend on [x], one more than on a cell that [x] reads
    when [x] is on no cycle. *)
Lemma dependents_grow g p x :
  feeds g p x -> ¬ inCycle g x ->
  size (dirtySet g x) < size (dirtySet g p).
Proof.
  intros Hpx Hx. apply subset_size. split.
  - intros y Hy%elem_of_dirtySet. apply elem_of_dirtySet.
    eapply rtc_l; eauto.
  - intros Hsub. apply Hx. apply (reads_dependent_inCycle g p x Hpx).
    apply elem_of_dirtySet, Hsub, elem_of_dirtySet, rtc_refl.
Qed.

(** Among waiting cells that are on no cycle, one is ready. *)
Lemma exists_ready g waiting :
  waiting <> [] -> (forall x, x ∈ waiting -> ¬ inCycle g x) ->
  exists x, x ∈ waiting /\ ready g waiting x.
Proof.
  intros Hne Hacyclic.
  destruct (list_greatest (fun x => size (dirtySet g x)) waiting Hne)
    as (x & Hx & Hmax).
  exists x. split; [done|]. unfold ready. apply Forall_forall.
  intros p Hp Hpw.
  pose proof (dependents_grow g p x Hp (Hacyclic x Hx)) as Hlt.
  specialize (Hmax p Hpw). simpl in Hmax. lia.
Qed.

Lemma filter_ne_length (waiting : list coord) x :
  x ∈ waiting -> length (filter (fun y => y ≠ x) waiting) < length waiting.
Proof.
  induction 1 as [x l|x a l _ IH].
  - rewrite filter_cons_False by (intros Hne; now apply Hne).
    simpl. pose proof (length_filter (fun y => y ≠ x) l). lia.
  - rewrite filter_cons. case_decide; simpl; lia.
Qed.

(** Every waiting cell is in the order when none is on a cycle. *)
Lemma topoOrder_complete g fuel : forall waiting,
  length waiting <= fuel ->
  (forall x, x ∈ waiting -> ¬ inCycle g x) ->
  forall x, x ∈ waiting -> x ∈ topoOrder g fuel waiting.
Proof.
  induction fuel as [|fuel IH]; intros waiting Hlen Hacyclic x Hx.
  - destruct waiting; [set_solver|simpl in Hlen; lia].
  - simpl.
    destruct (exists_ready g waiting) as (x1 & Hx1 & Hready);
      [intros ->; set_solver|done|].
    destruct (list_find_elem_of (ready g waiting) waiting x1 Hx1 Hready)
      as [[i x0] Hfind].
    rewrite Hfind.
    apply list_find_Some in Hfind as (Hi%list_elem_of_lookup_2 & _).
    destruct (decide (x = x0)) as [->|Hne]; [left|right].
    apply IH.
    + pose proof (filter_ne_length waiting x0 Hi). lia.
    + intros y [_ Hy]%list_elem_of_filter. now apply Hacyclic.
    + now apply list_elem_of_filter.
Qed.

End GraphFacts.

(* ===================================================================== *)
(** * Evaluation reads only the cells a formula refers to *)
(* ===================================================================== *)

Module EvalFacts.
Import Engine.

(** Induction on expression trees, with the hypothesis for every argument
    of a call. *)
Lemma expr_ind_nested (P : expr -> Prop) :
  (forall l, P (Literal l)) ->
  (forall r, P (CellRef r)) ->
  (forall a b, P (RangeRef a b)) ->
  (forall op a b, P a -> P b -> P (BinaryOp op a b)) ->
  (forall op a, P a -> P (UnaryOp op a)) ->
  (forall name args, Forall P args -> P (FunctionCall name args)) ->
  forall e, P e.
Proof.
  intros Hl Hc Hr Hb Hu Hf. fix IH 1.
  intros [l|r|a b|op a b|op a|name args].
  - apply Hl.
  - apply Hc.
  - apply Hr.
  - apply Hb; apply IH.
  - apply Hu; apply IH.
  - apply Hf. revert args. fix IHargs 1.
    intros [|a args]; constructor; [apply IH|apply IHargs].
Qed.

Section WithLibrary.
Context `{Library}.

Lemma resolveCell_ext cs1 cs2 c :
  cs1 !! c = cs2 !! c -> resolveCell cs1 c = resolveCell cs2 c.
Proof. unfold resolveCell. now intros ->. Qed.

Lemma resolveRange_ext cs1 cs2 sheetId a b :
  agree cs1 cs2 (concat (rangeCoords sheetId a b)) ->
  resolveRange cs1 sheetId a b = resolveRange cs2 sheetId a b.
Proof.
  unfold resolveRange. generalize (rangeCoords sheetId a b) as rows.
  induction rows as [|row rows IH]; simpl; [done|].
  intros [Hrow Hrows]%Forall_app. f_equal; [|now apply IH].
  clear IH Hrows. induction Hrow as [|c row Hc _ IH]; simpl; [done|].
  f_equal; [now apply resolveCell_ext|done].
Qed.

(** The value of a tree depends on the store only through the cells the
    tree refers to. *)
Lemma eval_ext cs1 cs2 sheetId e :
  agree cs1 cs2 (refs sheetId e) ->
  eval cs1 sheetId e = eval cs2 sheetId e.
Proof.
  unfold agree.
  induction e as [l|r|a b|op a b IHa IHb|op a IHa|name args IHargs]
    using expr_ind_nested; simpl; intros Hagree.
  - done.
  - apply resolveCell_ext. now apply Forall_inv in Hagree.
  - done.
  - apply Forall_app in Hagree as [Ha Hb]. now rewrite (IHa Ha), (IHb Hb).
  - now rewrite (IHa Hagree).
  - destruct (String.eqb name "IF").
    + destruct args as [|c [|t [|f [|]]]]; try done. simpl in Hagree.
      rewrite app_nil_r in Hagree.
      apply Forall_app in Hagree as [Hc [Ht Hf]%Forall_app].
      apply Forall_cons in IHargs as [IHc [IHt [IHf _]%Forall_cons]%Forall_cons].
      now rewrite (IHc Hc), (IHt Ht), (IHf Hf).
    + f_equal. apply Forall_flat_map in Hagree.
      induction IHargs as [|a args IHa _ IH]; simpl; [done|].
      apply Forall_cons in Hagree as [Ha Hargs].
      f_equal; [|now apply IH].
      destruct a; try (now rewrite (IHa Ha)).
      f_equal. now apply resolveRange_ext.
Qed.

Lemma evaluateFormula_ext cs1 cs2 sheetId f :
  agree cs1 cs2 (formulaRefs sheetId f) ->
  evaluateFormula cs1 sheetId f = evaluateFormula cs2 sheetId f.
Proof.
  unfold evaluateFormula, formulaRefs.
  destruct (parseFormula f); [apply eval_ext|done].
Qed.

End WithLibrary.

End EvalFacts.

(* ===================================================================== *)
(** * The recalculation engine *)
(* ===================================================================== *)

Module RecalcFacts.
Import Engine.

Implicit Types (g : gmap coord (list coord)) (cs : CellStore)
  (x y c : coord).

(** ** Contents and edges *)

Lemma sameContents_refl cs : sameContents cs cs.
Proof. done. Qed.

Lemma sameContents_trans cs1 cs2 cs3 :
  sameContents cs1 cs2 -> sameContents cs2 cs3 -> sameContents cs1 cs3.
Proof. intros H12 H23 y. now rewrite H12. Qed.

Lemma rebuildGraph_lookup cs x :
  rebuildGraph cs !! x =
  cs !! x ≫= fun cl => formulaRefs (sheetOf x) <$> formula cl.
Proof. unfold rebuildGraph. apply map_lookup_imap. Qed.

Lemma sameContents_rebuildGraph cs1 cs2 :
  sameContents cs1 cs2 -> rebuildGraph cs1 = rebuildGraph cs2.
Proof.
  intros Hsame. apply map_eq. intros x. rewrite !rebuildGraph_lookup.
  specialize (Hsame x).
  destruct (cs1 !! x) as [cl1|], (cs2 !! x) as [cl2|]; simpl in *; try done.
  injection Hsame as _ Hf _. now rewrite Hf.
Qed.

(** The edges of a formula cell are the cells its formula refers to. *)
Lemma precedents_rebuildGraph cs x cl f :
  cs !! x = Some cl -> formula cl = Some f ->
  precedents (rebuildGraph cs) x = formulaRefs (sheetOf x) f.
Proof.
  intros Hx Hf. unfold precedents.
  now rewrite rebuildGraph_lookup, Hx; simpl; rewrite Hf.
Qed.

(** ** Storing an outcome *)

Lemma setCalculatedValue_ne cs c r y :
  c <> y -> setCalculatedValue cs c r !! y = cs !! y.
Proof. intros Hne. unfold setCalculatedValue. now rewrite lookup_alter_ne. Qed.

Lemma setCalculatedValue_eq cs c r cl :
  cs !! c = Some cl ->
  exists cl', setCalculatedValue cs c r !! c = Some cl' /\
    cellContent cl' = cellContent cl /\
    (calculatedValue cl', error cl') = outcome r.
Proof.
  intros Hc. unfold setCalculatedValue. rewrite lookup_alter_eq, Hc. simpl.
  eexists. split; [reflexivity|]. split; [reflexivity|]. now destruct r.
Qed.

Lemma setCalculatedValue_None cs c r :
  cs !! c = None -> setCalculatedValue cs c r !! c = None.
Proof.
  intros Hc. unfold setCalculatedValue. now rewrite lookup_alter_eq, Hc.
Qed.

Lemma setCalculatedValue_sameContents cs c r :
  sameContents (setCalculatedValue cs c r) cs.
Proof.
  intros y. destruct (decide (c = y)) as [<-|Hne].
  - destruct (cs !! c) as [cl|] eqn:Hc.
    + destruct (setCalculatedValue_eq cs c r cl Hc) as (cl' & -> & Hcont & _).
      simpl. now rewrite Hcont.
    + now rewrite setCalculatedValue_None.
  - now rewrite setCalculatedValue_ne.
Qed.

Section WithLibrary.
Context `{Library}.

Lemma evaluateCell_ne cs x y : x <> y -> evaluateCell cs x !! y = cs !! y.
Proof.
  intros Hne. unfold evaluateCell.
  destruct (cs !! x) as [cl|]; [|done].
  destruct (formula cl); [|done]. now apply setCalculatedValue_ne.
Qed.

Lemma evaluateCell_sameContents cs x : sameContents (evaluateCell cs x) cs.
Proof.
  unfold evaluateCell.
  destruct (cs !! x) as [cl|]; [|done].
  destruct (formula cl); [|done]. apply setCalculatedValue_sameContents.
Qed.

(** After its evaluation a cell records the outcome of its formula over
    the store it was evaluated on. *)
Lemma evaluateCell_eq cs x cl f :
  evaluateCell cs x !! x = Some cl -> formula cl = Some f ->
  (calculatedValue cl, error cl) = outcome (evaluateFormula cs (sheetOf x) f) /\
  exists cl0, cs !! x = Some cl0 /\ formula cl0 = Some f.
Proof.
  unfold evaluateCell. destruct (cs !! x) as [cl0|] eqn:Hx; [|now rewrite Hx].
  destruct (formula cl0) as [f0|] eqn:Hf0.
  - destruct (setCalculatedValue_eq cs x
                (evaluateFormula cs (sheetOf x) f0) cl0 Hx)
      as (cl' & -> & Hcont & Hout).
    intros [= <-] Hf. injection Hcont as _ Hf' _.
    assert (f0 = f) as -> by congruence. eauto.
  - rewrite Hx. intros [= <-] Hf. congruence.
Qed.

(** ** Evaluating in topological order *)

Lemma fold_evaluateCell order : forall cs,
  NoDup order -> topological (rebuildGraph cs) order ->
  sameContents (fold_left evaluateCell order cs) cs /\
  (forall y, y ∉ order -> fold_left evaluateCell order cs !! y = cs !! y) /\
  (forall x, x ∈ order -> recorded (fold_left evaluateCell order cs) x).
Proof.
  induction order as [|x order IH]; intros cs Hnd Htopo; simpl.
  - split_and!; [done|done|]. intros x Hx. set_solver.
  - apply NoDup_cons in Hnd as [Hx Hnd]. destruct Htopo as [Hreads Htopo].
    pose proof (evaluateCell_sameContents cs x) as Hsame1.
    rewrite <- (sameContents_rebuildGraph _ _ Hsame1) in Htopo.
    destruct (IH (evaluateCell cs x) Hnd Htopo) as (Hsame & Hframe & Hrec).
    split_and!.
    + eapply sameContents_trans; eauto.
    + intros y [Hne Hy]%not_elem_of_cons.
      rewrite Hframe by done. now apply evaluateCell_ne.
    + intros x0 [->|Hx0]%elem_of_cons; [|now apply Hrec].
      intros cl f Hcl Hf. rewrite Hframe in Hcl by done.
      destruct (evaluateCell_eq cs x cl f Hcl Hf) as (Hout & cl0 & Hcl0 & Hf0).
      rewrite Hout. f_equal. symmetry.
      apply EvalFacts.evaluateFormula_ext.
      rewrite <- (precedents_rebuildGraph cs x cl0 f Hcl0 Hf0).
      eapply Forall_impl; [exact Hreads|]. simpl.
      intros p [Hne Hp]%not_elem_of_cons.
      rewrite Hframe by done. now apply evaluateCell_ne.
Qed.

(** ** Marking the cycles *)

Lemma fold_markCircular l : forall cs,
  sameContents (fold_left markCircular l cs) cs /\
  (forall y, y ∉ l -> fold_left markCircular l cs !! y = cs !! y) /\
  (forall x cl, x ∈ l -> fold_left markCircular l cs !! x = Some cl ->
     error cl = Some (Failure CircularReference) /\ calculatedValue cl = None).
Proof.
  induction l as [|x l IH]; intros cs; simpl.
  - split_and!; [done|done|]. intros x cl Hx. set_solver.
  - destruct (IH (markCircular cs x)) as (Hsame & Hframe & Hmark).
    split_and!.
    + eapply sameContents_trans; [exact Hsame|].
      apply setCalculatedValue_sameContents.
    + intros y [Hne Hy]%not_elem_of_cons. rewrite Hframe by done.
      now apply setCalculatedValue_ne.
    + intros x0 cl Hx0 Hcl.
      destruct (decide (x0 ∈ l)) as [Hin|Hnin]; [now apply (Hmark x0)|].
      apply elem_of_cons in Hx0 as [->|]; [|done].
      rewrite Hframe in Hcl by done. unfold markCircular in Hcl.
      destruct (cs !! x) as [cl0|] eqn:Hx.
      * destruct (setCalculatedValue_eq cs x
                    (Error (Failure CircularReference)) cl0 Hx)
          as (cl' & Hcl' & _ & Hout).
        rewrite Hcl' in Hcl. injection Hcl as <-.
        now injection Hout as -> ->.
      * now rewrite setCalculatedValue_None in Hcl.
Qed.

(** ** One recalculation *)




(** What one run of the recalculation does, on a state whose graph holds
    the edges of its formulas. *)
Lemma recalculate_spec st c :
  graphOk st ->
  graph (recalculate st c) = graph st /\
  sameContents (store (recalculate st c)) (store st) /\
  (forall y, ¬ dependsOn (graph st) c y ->
     store (recalculate st c) !! y = store st !! y) /\
  (forall x cl, dependsOn (graph st) c x -> inCycle (graph st) x ->
     store (recalculate st c) !! x = Some cl ->
     error cl = Some (Failure CircularReference) /\
     calculatedValue cl = None) /\
  (forall x, dependsOn (graph st) c x -> ¬ inCycle (graph st) x ->
     recorded (store (recalculate st c)) x).
Proof.
  intros Hok. unfold recalculate. simpl.
  set (g := graph st) in *.
  set (dirty := dirtySet g c).
  set (cyclic := filter (onCycle g) dirty).
  set (marked := fold_left markCircular (elements cyclic) (store st)).
  set (waiting := elements (dirty ∖ cyclic)).
  set (order := topoOrder g (length waiting) waiting).
  destruct (fold_markCircular (elements cyclic) (store st))
    as (Hsame1 & Hframe1 & Hmark). fold marked in Hsame1, Hframe1, Hmark.
  assert (Hg : g = rebuildGraph marked).
  { rewrite (sameContents_rebuildGraph _ _ Hsame1). exact Hok. }
  assert (Hwaiting : forall x, x ∈ waiting <-> dependsOn g c x /\ ¬ inCycle g x).
  { intros x. unfold waiting, cyclic, dirty.
    rewrite elem_of_elements, elem_of_difference, elem_of_filter.
    rewrite GraphFacts.onCycle_inCycle, GraphFacts.elem_of_dirtySet. tauto. }
  assert (Hcyclic : forall x, x ∈ elements cyclic <-> dependsOn g c x /\ inCycle g x).
  { intros x. unfold cyclic, dirty.
    rewrite elem_of_elements, elem_of_filter.
    rewrite GraphFacts.onCycle_inCycle, GraphFacts.elem_of_dirtySet. tauto. }
  assert (Horder : forall x, x ∈ order -> x ∈ waiting)
    by (intros x; apply GraphFacts.topoOrder_subset).
  destruct (fold_evaluateCell order marked) as (Hsame2 & Hframe2 & Hrec).
  { apply GraphFacts.topoOrder_NoDup. }
  { rewrite <- Hg. apply GraphFacts.topoOrder_topological. }
  split_and!.
  - done.
  - eapply sameContents_trans; eauto.
  - intros y Hy. rewrite Hframe2, Hframe1; [done| |].
    + rewrite Hcyclic. tauto.
    + intros Hin%Horder%Hwaiting. tauto.
  - intros x cl Hdep Hcyc Hcl. rewrite Hframe2 in Hcl.
    + apply (Hmark x cl); [|done]. apply Hcyclic. done.
    + intros Hin%Horder%Hwaiting. tauto.
  - intros x Hdep Hacyc. apply Hrec.
    apply GraphFacts.topoOrder_complete; [done| |].
    + intros y Hy%Hwaiting. tauto.
    + apply Hwaiting. done.
Qed.


(** ** A second run *)

Lemma markCircular_fixed cs x :
  (forall cl, cs !! x = Some cl ->
     error cl = Some (Failure CircularReference) /\ calculatedValue cl = None) ->
  markCircular cs x = cs.
Proof.
  intros Hx. apply map_eq. intros y.
  destruct (decide (x = y)) as [<-|Hne];
    [|now apply setCalculatedValue_ne].
  unfold markCircular, setCalculatedValue. rewrite lookup_alter_eq.
  destruct (cs !! x) as [cl|] eqn:Hcl; [|done]. simpl.
  destruct (Hx cl eq_refl) as [He Hv]. destruct cl. simpl in *.
  now subst.
Qed.

Lemma evaluateCell_fixed cs x : recorded cs x -> evaluateCell cs x = cs.
Proof.
  intros Hrec. unfold evaluateCell.
  destruct (cs !! x) as [cl|] eqn:Hcl; [|done].
  destruct (formula cl) as [f|] eqn:Hf; [|done].
  specialize (Hrec cl f Hcl Hf).
  apply map_eq. intros y.
  destruct (decide (x = y)) as [<-|Hne];
    [|now apply setCalculatedValue_ne].
  unfold setCalculatedValue. rewrite lookup_alter_eq, Hcl. simpl.
  destruct (evaluateFormula cs (sheetOf x) f); destruct cl;
    simpl in *; injection Hrec as -> ->; reflexivity.
Qed.

Lemma fold_left_fixed {A} (f : CellStore -> A -> CellStore) (l : list A) cs :
  (forall u, u ∈ l -> f cs u = cs) -> fold_left f l cs = cs.
Proof.
  induction l as [|a l IH]; intros Hl; simpl; [done|].
  rewrite (Hl a) by left. apply IH. intros u Hu. apply Hl. now right.
Qed.

(** A recalculation changes nothing when every cell that depends on [c]
    is already as the run would leave it. *)
Lemma recalculate_unchanged st c :
  (forall x cl, dependsOn (graph st) c x -> inCycle (graph st) x ->
     store st !! x = Some cl ->
     error cl = Some (Failure CircularReference) /\
     calculatedValue cl = None) ->
  (forall x, dependsOn (graph st) c x -> ¬ inCycle (graph st) x ->
     recorded (store st) x) ->
  recalculate st c = st.
Proof.
  intros Hmark Hrec. unfold recalculate.
  destruct st as [cs g]. simpl in *. f_equal.
  rewrite (fold_left_fixed markCircular).
  - apply fold_left_fixed. intros x Hx%GraphFacts.topoOrder_subset.
    apply elem_of_elements, elem_of_difference in Hx as [Hdirty Hncyc].
    apply evaluateCell_fixed, Hrec.
    + now apply GraphFacts.elem_of_dirtySet.
    + intros Hcyc%GraphFacts.onCycle_inCycle. apply Hncyc.
      now apply elem_of_filter.
  - intros x Hx. apply markCircular_fixed. intros cl Hcl.
    apply elem_of_elements, elem_of_filter in Hx as [Hcyc Hdirty].
    apply (Hmark x cl); [|now apply GraphFacts.onCycle_inCycle|done].
    now apply GraphFacts.elem_of_dirtySet.
Qed.

(** Running the recalculation of the same cell again changes nothing. *)
Lemma recalculate_fixed st c :
  graphOk st -> recalculate (recalculate st c) c = recalculate st c.
Proof.
  intros Hok.
  destruct (recalculate_spec st c Hok) as (Hg & _ & _ & Hmark & Hrec).
  apply recalculate_unchanged; rewrite Hg; [exact Hmark|exact Hrec].
Qed.

(** ** Cells without a formula *)





End WithLibrary.

(** ** Writing a cell *)








End RecalcFacts.

(* ===================================================================== *)
(** * The invariant of the engine *)
(* ===================================================================== *)

Module InvariantFacts.
Import Engine.
Local Open Scope nat_scope.

Implicit Types (g : gmap coord (list coord)) (cs : CellStore)
  (x y a c p d : coord).

(** ** A write changes the edges of the written cell only *)


Section Rewired.
(** Two graphs that differ only in the edges into [a]. *)
Variables (g g' : gmap coord (list coord)) (a : coord).
Hypothesis same_edges : forall y, a <> y -> precedents g' y = precedents g y.





End Rewired.


(** ** Cells that a step does not concern stay settled *)

Section WithLibrary.
Context `{Library}.




(** ** Every reachable state is consistent *)





(** ** A consistent engine has nothing to recalculate *)


(** ** The contents determine the values *)





End WithLibrary.

End InvariantFacts.

(* ===================================================================== *)
(** * What the engine guarantees *)
(* ===================================================================== *)

Module EngineFacts.
Import Engine.

Implicit Types (g : gmap coord (list coord)) (cs : CellStore).

Section WithLibrary.
Context `{Library}.

(** ** Recalculation after a write *)





(** The members of a cycle through the written cell depend on it. *)
Lemma cycle_through_written g a x :
  dependsOn g a x -> dependsOn g x a -> x <> a -> inCycle g x.
Proof.
  intros Hax Hxa Hne. apply rtc_inv in Hxa as [->|(d & Hxd & Hda)]; [done|].
  exists d. split; [done|]. eapply rtc_trans; eauto.
Qed.

(** ** Errors are contagious *)







(** ** SUM over a range *)

Lemma fold_numerics vs : forall acc,
  fold_left Qcplus (numerics vs) acc =
  fold_left (fun a v => (a + numberOrZero v)%Qc) vs acc.
Proof.
  induction vs as [|v vs IH]; intros acc; [done|].
  destruct v; simpl; rewrite ?Qcplus_0_r; apply IH.
Qed.

Lemma rangeCoords_A1_A3 sheetId :
  rangeCoords sheetId {| column := 1; row := 1 |} {| column := 1; row := 3 |}
  = [[(sheetId, 1, 1)]; [(sheetId, 2, 1)]; [(sheetId, 3, 1)]].
Proof. reflexivity. Qed.

Lemma parseFormula_SUM_A1_A3 :
  parseFormula "=SUM(A1:A3)" =
  Some (FunctionCall "SUM"
          [RangeRef {| column := 1; row := 1 |} {| column := 1; row := 3 |}]).
Proof. vm_compute. reflexivity. Qed.

Lemma parseFormula_A1_A2_A3 :
  parseFormula "=A1+A2+A3" =
  Some (BinaryOp OpAdd
          (BinaryOp OpAdd (CellRef {| column := 1; row := 1 |})
                          (CellRef {| column := 1; row := 2 |}))
          (CellRef {| column := 1; row := 3 |})).
Proof. vm_compute. reflexivity. Qed.

Lemma literalValue_0 : literalValue "0" = Number 0%Qc.
Proof.
  unfold literalValue.
  assert (parseNumber "0" = Some 0%Qc) as ->; [|done].
  vm_compute. reflexivity.
Qed.

(** In the store with zeros, a cell resolves to its number, or to 0. *)
Lemma resolveCell_zeroIfNotNumber cs c v :
  resolveCell cs c = Value v ->
  resolveCell (zeroIfNotNumber cs c) c = Value (Number (numberOrZero v)).
Proof.
  intros Hv. unfold zeroIfNotNumber. rewrite Hv.
  destruct v; simpl; [done|..];
    unfold resolveCell; rewrite lookup_insert_eq; simpl;
    now rewrite literalValue_0.
Qed.

Lemma resolveCell_zeroIfNotNumber_ne cs c c' :
  c <> c' -> resolveCell (zeroIfNotNumber cs c) c' = resolveCell cs c'.
Proof.
  intros Hne. unfold zeroIfNotNumber.
  destruct (resolveCell cs c) as [[]|]; try done;
    unfold resolveCell; now rewrite lookup_insert_ne.
Qed.

(** C4. For every store in which A1, A2 and A3 resolve to values
    (numbers, texts, Booleans or nothing), [SUM(A1:A3)] evaluates to the
    sum of the three cells with every cell that is not a number counted
    as 0, and so does [A1+A2+A3] over the store in which the cells that
    are empty or not numbers hold 0. *)
Theorem SUM_equals_addition
    (cs : CellStore) (sheetId : Z) (v1 v2 v3 : value) :
  resolveCell cs (sheetId, 1, 1) = Value v1 ->
  resolveCell cs (sheetId, 2, 1) = Value v2 ->
  resolveCell cs (sheetId, 3, 1) = Value v3 ->
  let total := (numberOrZero v1 + numberOrZero v2 + numberOrZero v3)%Qc in
  let zeroed :=
    zeroIfNotNumber
      (zeroIfNotNumber (zeroIfNotNumber cs (sheetId, 1, 1)) (sheetId, 2, 1))
      (sheetId, 3, 1) in
  evaluateFormula cs sheetId "=SUM(A1:A3)" = Value (Number total) /\
  evaluateFormula zeroed sheetId "=A1+A2+A3" = Value (Number total) /\
  evaluateFormula cs sheetId "=SUM(A1:A3)"
  = evaluateFormula zeroed sheetId "=A1+A2+A3".
Proof.
  intros H1 H2 H3 total zeroed.
  assert (Hsum : evaluateFormula cs sheetId "=SUM(A1:A3)"
                 = Value (Number total)).
  { unfold evaluateFormula. rewrite parseFormula_SUM_A1_A3.
    cbn [eval String.eqb Ascii.eqb Bool.eqb map].
    unfold resolveRange. rewrite rangeCoords_A1_A3.
    cbn [map]. rewrite H1, H2, H3.
    unfold callFunction.
    cbn [String.eqb Ascii.eqb Bool.eqb flatten flat_map concat app values].
    unfold sumQc. rewrite fold_numerics. simpl.
    do 2 f_equal. unfold total. ring. }
  assert (Hadd : evaluateFormula zeroed sheetId "=A1+A2+A3"
                 = Value (Number total)).
  { unfold evaluateFormula. rewrite parseFormula_A1_A2_A3.
    assert (R1 : resolveCell zeroed (sheetId, 1, 1)
                 = Value (Number (numberOrZero v1))).
    { unfold zeroed.
      rewrite !resolveCell_zeroIfNotNumber_ne by (intros [=]).
      now apply resolveCell_zeroIfNotNumber. }
    assert (R2 : resolveCell zeroed (sheetId, 2, 1)
                 = Value (Number (numberOrZero v2))).
    { unfold zeroed.
      rewrite resolveCell_zeroIfNotNumber_ne by (intros [=]).
      apply resolveCell_zeroIfNotNumber.
      now rewrite resolveCell_zeroIfNotNumber_ne by (intros [=]). }
    assert (R3 : resolveCell zeroed (sheetId, 3, 1)
                 = Value (Number (numberOrZero v3))).
    { unfold zeroed. apply resolveCell_zeroIfNotNumber.
      now rewrite !resolveCell_zeroIfNotNumber_ne by (intros [=]). }
    cbn [eval]. unfold coordOf. cbn [row column].
    rewrite R1, R2. cbn [binary isConcatOp isCmpOp toNumber arithmetic].
    rewrite R3. reflexivity. }
  split_and!; [done|done|]. now rewrite Hsum, Hadd.
Qed.

(** ** A restart changes nothing *)


End WithLibrary.

(** ** At concrete sheets *)

Lemma SUM_equals_addition_witness :
  let total :=
    (numberOrZero (Number (Qc_of_Z 5)) + numberOrZero (Text "abc")
     + numberOrZero Empty)%Qc in
  let zeroed :=
    zeroIfNotNumber (H := bareLibrary)
      (zeroIfNotNumber (H := bareLibrary)
         (zeroIfNotNumber (H := bareLibrary) mixedColumn (1, 1, 1)) (1, 2, 1))
      (1, 3, 1) in
  evaluateFormula (H := bareLibrary) mixedColumn 1 "=SUM(A1:A3)"
    = Value (Number total) /\
  evaluateFormula (H := bareLibrary) zeroed 1 "=A1+A2+A3"
    = Value (Number total) /\
  evaluateFormula (H := bareLibrary) mixedColumn 1 "=SUM(A1:A3)"
  = evaluateFormula (H := bareLibrary) zeroed 1 "=A1+A2+A3".
Proof.
  apply (SUM_equals_addition (H := bareLibrary) mixedColumn 1
           (Number (Qc_of_Z 5)) (Text "abc") Empty).
  - vm_compute. reflexivity.
  - vm_compute. reflexivity.
  - vm_compute. reflexivity.
Defined.










(** The scenario of the specification: A3 is 15000; after 60000 is
    written to A1 it is 25000; after [=A1-A2-A3] is written to A3 it is a
    [CircularReference]. *)
Example scenario_A3 :
  calculatedValue <$> store scenarioEngine !! (1, 3, 1)
  = Some (Some (Number (Qc_of_Z 15000))).
Proof. vm_compute. reflexivity. Qed.

Example scenario_A1_rewritten :
  calculatedValue <$>
    store (onCellWritten (H := bareLibrary) scenarioEngine 1 1 1 "60000")
      !! (1, 3, 1)
  = Some (Some (Number (Qc_of_Z 25000))).
Proof. vm_compute. reflexivity. Qed.

Example scenario_A3_self_reference :
  error <$>
    store (onCellWritten (H := bareLibrary) scenarioEngine 1 3 1 "=A1-A2-A3")
      !! (1, 3, 1)
  = Some (Some (Failure CircularReference)).
Proof. vm_compute. reflexivity. Qed.

(** A1 = [=B1] and B1 = [=A1]: both cells are circular. *)
Example cycle_of_two :
  let st := onCellWritten (H := bareLibrary) a1ReadsB1 1 1 2 "=A1" in
  error <$> store st !! (1, 1, 1) = Some (Some (Failure CircularReference)) /\
  error <$> store st !! (1, 1, 2) = Some (Some (Failure CircularReference)).
Proof. split; vm_compute; reflexivity. Qed.



End EngineFacts.

(* ===================================================================== *)
(** * Deleting and creating cells *)
(* ===================================================================== *)

Module StoreOpsFacts.
Import Store StoreOps.

Local Open Scope Z_scope.

(** ** Finding in a list *)

Lemma list_find_cons {A} (P : A -> Prop) `{!forall x, Decision (P x)} x l :
  list_find P (x :: l) =
  if decide (P x) then Some (0%nat, x) else prod_map S id <$> list_find P l.
Proof. reflexivity. Qed.

Lemma find_cons {A} (P : A -> Prop) `{!forall x, Decision (P x)} x l :
  snd <$> list_find P (x :: l) =
  if decide (P x) then Some x else snd <$> list_find P l.
Proof.
  rewrite list_find_cons. case_decide; [done|].
  now destruct (list_find P l) as [[]|].
Qed.

Lemma find_snoc {A} (P : A -> Prop) `{!forall x, Decision (P x)} l x :
  snd <$> list_find P (l ++ [x]) =
  match snd <$> list_find P l with
  | Some y => Some y
  | None => if decide (P x) then Some x else None
  end.
Proof.
  induction l as [|a l IH].
  - simpl. now case_decide.
  - rewrite <- app_comm_cons, !find_cons.
    destruct (decide (P a)); [done|exact IH].
Qed.

Lemma find_None {A} (P : A -> Prop) `{!forall x, Decision (P x)} l :
  snd <$> list_find P l = None <-> Forall (fun x => ¬ P x) l.
Proof. rewrite fmap_None. apply list_find_None. Qed.

Lemma find_Some_elem {A} (P : A -> Prop) `{!forall x, Decision (P x)} l x :
  snd <$> list_find P l = Some x -> x ∈ l ∧ P x.
Proof.
  destruct (list_find P l) as [[i y]|] eqn:Hfind; [|done].
  intros [= <-]. apply list_find_Some in Hfind as (Hi & HP & _).
  split; [|done]. eapply list_elem_of_lookup_2, Hi.
Qed.

Lemma filter_all {A} (P : A -> Prop) `{!forall x, Decision (P x)} l :
  Forall P l -> filter P l = l.
Proof.
  induction 1 as [|x l Hx _ IH]; [done|].
  now rewrite filter_cons_True, IH.
Qed.

(** Among elements with distinct keys, the first one with a key is the
    only one. *)
Lemma find_unique {A K} (key : A -> K) `{!EqDecision K} l x :
  NoDup (key <$> l) -> x ∈ l ->
  snd <$> list_find (fun y => key y = key x) l = Some x.
Proof.
  induction l as [|a l IH]; intros Hnd Hx; [set_solver|].
  rewrite fmap_cons in Hnd. apply NoDup_cons in Hnd as [Ha Hnd].
  rewrite find_cons. apply elem_of_cons in Hx as [->|Hx].
  - now rewrite decide_True.
  - rewrite decide_False; [now apply IH|].
    intros Heq. apply Ha. rewrite Heq. now apply list_elem_of_fmap_2.
Qed.

(** ** The invariants under [deleteCell] and [createCell] *)

Lemma deleteCell_uniquePositions st id :
  uniquePositions st -> uniquePositions (deleteCell st id).
Proof.
  unfold uniquePositions, deleteCell. simpl. intros Hnd.
  eapply sublist_NoDup; [exact Hnd|]. apply fmap_sublist. apply sublist_filter.
Qed.

Lemma deleteCell_uniqueIds st id : uniqueIds st -> uniqueIds (deleteCell st id).
Proof.
  unfold uniqueIds, deleteCell. simpl. intros [Hnd Hlt]. split.
  - eapply sublist_NoDup; [exact Hnd|]. apply fmap_sublist. apply sublist_filter.
  - apply Forall_forall. intros c [_ Hc]%list_elem_of_filter.
    rewrite Forall_forall in Hlt. now apply Hlt.
Qed.

Lemma createCell_uniqueIds st ins now :
  uniqueIds st -> uniqueIds (createCell st ins now).1.
Proof.
  unfold uniqueIds, createCell. simpl. intros [Hnd Hlt]. split.
  - rewrite fmap_app. apply NoDup_app. split_and!; [done| |apply NoDup_singleton].
    intros i (c & -> & Hc)%list_elem_of_fmap Hnew%list_elem_of_singleton.
    rewrite Forall_forall in Hlt. specialize (Hlt c Hc). simpl in *. lia.
  - apply Forall_app. split.
    + eapply Forall_impl; [exact Hlt|]. simpl. intros c Hc. lia.
    + apply Forall_singleton. simpl. lia.
Qed.

(** ** X1: what [deleteCell] removes *)

Lemma getCell_filter_id (l : list Cell) id sheetId row column :
  NoDup (position <$> l) ->
  snd <$> list_find (atPosition sheetId row column)
            (filter (fun c => cell_id c ≠ id) l) =
  (snd <$> list_find (atPosition sheetId row column) l) ≫=
    fun c => if decide (cell_id c = id) then None else Some c.
Proof.
  induction l as [|c l IH]; intros Hnd; [done|].
  rewrite fmap_cons in Hnd. apply NoDup_cons in Hnd as [Hc Hnd].
  rewrite find_cons, filter_cons.
  destruct (decide (cell_id c ≠ id)) as [Hid|Hid].
  - rewrite find_cons. case_decide; [|now apply IH].
    simpl. now rewrite decide_False.
  - apply dec_stable in Hid. case_decide as Hpos; [|now apply IH].
    simpl. rewrite decide_True by done.
    apply find_None, Forall_forall.
    intros c' [_ Hc']%list_elem_of_filter Hpos'. apply Hc.
    apply StoreFacts.atPosition_position in Hpos, Hpos'.
    rewrite Hpos, <- Hpos'. now apply list_elem_of_fmap_2.
Qed.

(** X1. [deleteCell] never throws and removes exactly the cells with the
    id: the others stay, in their order, and the counter stays. In a
    store with one cell per position, the position of the deleted cell
    then reads as empty and every other position reads as before; both
    invariants are kept; and [updateCell] on the deleted id throws
    ["Cell not found"]. *)
Theorem deleteCell_removes (st : Storage) (id : Z) :
  uniquePositions st -> uniqueIds st ->
  let st' := deleteCell st id in
  cells st' = filter (fun c => cell_id c ≠ id) (cells st) /\
  counters_cells st' = counters_cells st /\
  (forall c, c ∈ cells st' <-> c ∈ cells st /\ cell_id c ≠ id) /\
  (forall sheetId row column,
     getCell st' sheetId row column =
     getCell st sheetId row column ≫=
       fun c => if decide (cell_id c = id) then None else Some c) /\
  uniquePositions st' /\ uniqueIds st' /\
  (forall u now, updateCell st' id u now = Throw "Cell not found") /\
  deleteCell st' id = st'.
Proof.
  intros Hpos Hids st'. split_and!.
  - done.
  - done.
  - intros c. unfold st', deleteCell. simpl.
    rewrite list_elem_of_filter. tauto.
  - intros sheetId row column. now apply getCell_filter_id.
  - now apply deleteCell_uniquePositions.
  - now apply deleteCell_uniqueIds.
  - intros u now. unfold updateCell.
    destruct (list_find _ (cells st')) as [[i c]|] eqn:Hfind; [|done].
    apply list_find_Some in Hfind as (Hi%list_elem_of_lookup_2 & Hc & _).
    unfold st', deleteCell in Hi. simpl in Hi.
    now apply list_elem_of_filter in Hi as [Hne _].
  - unfold st', deleteCell. simpl. f_equal.
    apply list_filter_filter_l. tauto.
Qed.

Lemma deleteCell_removes_witness :
  let st' := deleteCell (sampleStorage 0) 8 in
  getCell st' 1 3 2 = None /\
  (getCell st' 1 3 3 ≫= cell_value) = Some "=C1-C2" /\
  length (cells st') = 8%nat.
Proof.
  destruct (deleteCell_removes (sampleStorage 0) 8)
    as (_ & _ & _ & Hget & _).
  - exact StoreFacts.sample_uniquePositions.
  - exact StoreFacts.sample_uniqueIds.
  - split_and!; [|reflexivity..]. rewrite Hget. reflexivity.
Defined.

(** ** X2: ids are not handed out twice *)

(** X2. [deleteCell] leaves the counter as it is, so the cell that
    [createCell] makes after a deletion gets an id that no cell of the
    store has or had before the deletion, the deleted one included; and
    deleting the cell that [createCell] has just made gives back the
    cells as they were, with the counter one further. *)
Theorem ids_are_not_reused (st : Storage) (id : Z) (ins : InsertCell) (now : Z) :
  uniqueIds st ->
  let st1 := (createCell (deleteCell st id) ins now).1 in
  let c := (createCell (deleteCell st id) ins now).2 in
  cell_id c = counters_cells st /\
  (cell_id c ∉ cell_id <$> cells st) /\
  uniqueIds st1 /\
  counters_cells st1 = counters_cells st + 1 /\
  cells (deleteCell (createCell st ins now).1 (counters_cells st)) = cells st.
Proof.
  intros Hids st1 c.
  pose proof (createCell_uniqueIds (deleteCell st id) ins now
                (deleteCell_uniqueIds st id Hids)) as Hids1.
  destruct Hids as [_ Hlt]. rewrite Forall_forall in Hlt.
  split_and!; [done| |done|done|].
  - intros (c0 & Hc & Hin)%list_elem_of_fmap.
    specialize (Hlt c0 Hin). simpl in *. lia.
  - simpl.
    rewrite filter_app, filter_cons_False, filter_nil, app_nil_r
      by (simpl; intros Hne; now apply Hne).
    apply filter_all, Forall_forall. intros c0 Hc.
    specialize (Hlt c0 Hc). simpl in Hlt. lia.
Qed.

Lemma ids_are_not_reused_witness :
  let ins := {| ins_sheetId := 1; ins_row := 3; ins_column := 3;
                ins_value := Some "7"; ins_formula := None;
                ins_dataType := number; ins_formatting := None |} in
  let st1 := (createCell (deleteCell (sampleStorage 0) 9) ins 5).1 in
  let c := (createCell (deleteCell (sampleStorage 0) 9) ins 5).2 in
  cell_id c = counters_cells (sampleStorage 0) /\
  (cell_id c ∉ cell_id <$> cells (sampleStorage 0)) /\
  uniqueIds st1 /\
  counters_cells st1 = counters_cells (sampleStorage 0) + 1 /\
  cells (deleteCell (createCell (sampleStorage 0) ins 5).1
           (counters_cells (sampleStorage 0))) = cells (sampleStorage 0).
Proof.
  intros ins. apply (ids_are_not_reused (sampleStorage 0) 9 ins 5).
  exact StoreFacts.sample_uniqueIds.
Defined.

(** ** X3: [createCell] does not look at the position *)

(** X3. [createCell] appends without looking for a cell at the position.
    At a free position [getCell] then returns the new cell; at a position
    that holds a cell, [getCell] goes on returning the old one, the new
    cell is in the store all the same, and the store has two cells at
    that position. *)
Theorem createCell_shadowed (st : Storage) (ins : InsertCell) (now : Z) :
  let st' := (createCell st ins now).1 in
  let c := (createCell st ins now).2 in
  let here := getCell st (ins_sheetId ins) (ins_row ins) (ins_column ins) in
  c ∈ cells st' /\
  position c = (ins_sheetId ins, ins_row ins, ins_column ins) /\
  getCell st' (ins_sheetId ins) (ins_row ins) (ins_column ins)
    = Some (default c here) /\
  (forall sheetId row column,
     (sheetId, row, column) <> position c ->
     getCell st' sheetId row column = getCell st sheetId row column) /\
  (is_Some here -> ¬ uniquePositions st') /\
  (here = None -> uniquePositions st -> uniquePositions st').
Proof.
  intros st' c here. unfold st', c, here, createCell. simpl. split_and!.
  - apply elem_of_app. right. left.
  - done.
  - unfold getCell. simpl. rewrite find_snoc.
    destruct (snd <$> list_find _ (cells st)); [done|].
    now rewrite decide_True.
  - intros sheetId row column Hne. unfold getCell. simpl. rewrite find_snoc.
    destruct (snd <$> list_find _ (cells st)); [done|].
    rewrite decide_False; [done|].
    intros Hpos%StoreFacts.atPosition_position. now apply Hne.
  - intros [old Hold] Hnd. unfold uniquePositions in Hnd. simpl in Hnd.
    rewrite fmap_app in Hnd. apply NoDup_app in Hnd as (_ & Hdisj & _).
    apply find_Some_elem in Hold as [Hin Hpos%StoreFacts.atPosition_position].
    apply (Hdisj (position old)); [now apply list_elem_of_fmap_2|].
    rewrite Hpos. left.
  - intros Hnone Hnd. unfold uniquePositions. simpl.
    rewrite fmap_app. apply NoDup_app. split_and!; [done| |apply NoDup_singleton].
    intros p (c0 & -> & Hc)%list_elem_of_fmap Hnew%list_elem_of_singleton.
    apply StoreFacts.getCell_None in Hnone. rewrite Forall_forall in Hnone.
    apply (Hnone c0 Hc). now apply StoreFacts.atPosition_position.
Qed.

(** ** X4: [updateCell] on an id *)

(** X4. [updateCell] throws ["Cell not found"] exactly when no cell has
    the id. Otherwise it replaces, at its index, the first cell with the
    id by the cell it returns; the number of cells, the counter and all
    other cells stay; with updates that are empty the cell changes in
    [updatedAt] only. *)
Theorem updateCell_by_id (st : Storage) (id : Z) (u : Updates) (now : Z) :
  (updateCell st id u now = Throw "Cell not found" <->
   id ∉ cell_id <$> cells st) /\
  (forall st' c, updateCell st id u now = Ok (st', c) ->
     exists i old,
       cells st !! i = Some old /\ cell_id old = id /\
       (forall j c0, (j < i)%nat -> cells st !! j = Some c0 -> cell_id c0 ≠ id) /\
       c = spread old u now /\
       cells st' !! i = Some c /\
       (forall j, j ≠ i -> cells st' !! j = cells st !! j) /\
       length (cells st') = length (cells st) /\
       counters_cells st' = counters_cells st /\
       (u = noUpdates ->
        c = {| cell_id := cell_id old; cell_sheetId := cell_sheetId old;
               cell_row := cell_row old; cell_column := cell_column old;
               cell_value := cell_value old; cell_formula := cell_formula old;
               cell_dataType := cell_dataType old;
               cell_formatting := cell_formatting old;
               cell_createdAt := cell_createdAt old;
               cell_updatedAt := now;
               cell_calculated_value := cell_calculated_value old |})).
Proof.
  unfold updateCell. split.
  - destruct (list_find _ (cells st)) as [[i c]|] eqn:Hfind.
    + split; [done|]. intros Hnot. exfalso. apply Hnot.
      apply list_find_Some in Hfind as (Hi%list_elem_of_lookup_2 & <- & _).
      now apply list_elem_of_fmap_2.
    + split; [|done]. intros _ (c & -> & Hc)%list_elem_of_fmap.
      apply list_find_None in Hfind. rewrite Forall_forall in Hfind.
      now apply (Hfind c Hc).
  - intros st' c.
    destruct (list_find _ (cells st)) as [[i old]|] eqn:Hfind; [|done].
    intros [= <- <-]. simpl.
    apply list_find_Some in Hfind as (Hi & Hid & Hbefore).
    exists i, old. split_and!; try done.
    + intros j c0 Hj Hc0. now apply (Hbefore j c0).
    + apply list_lookup_insert_eq. now apply lookup_lt_Some in Hi.
    + intros j Hj. now apply list_lookup_insert_ne.
    + apply length_insert.
    + intros ->. reflexivity.
Qed.

End StoreOpsFacts.

(* ===================================================================== *)
(** * Sessions and metadata *)
(* ===================================================================== *)

Module SessionFacts.
Import Store StoreOps.

(** Looking for a key among the elements that a filter keeps, when the
    filter does not depend on what is looked for. *)
Lemma find_filter_other {A} (P Q : A -> Prop)
    `{!forall x, Decision (P x)} `{!forall x, Decision (Q x)} l :
  (forall x, P x -> Q x) ->
  snd <$> list_find P (filter Q l) = snd <$> list_find P l.
Proof.
  intros HPQ. induction l as [|a l IH]; [done|].
  rewrite filter_cons, StoreOpsFacts.find_cons.
  destruct (decide (Q a)) as [Hq|Hq].
  - rewrite StoreOpsFacts.find_cons. now rewrite IH.
  - rewrite decide_False by (intros Hp; now apply Hq, HPQ). exact IH.
Qed.

(** X5. Logging out: after [deleteSession(token)] no session is found
    for the token, every other token finds what it found before, and
    deleting a token that no session has changes nothing. After
    [createSession] a token that was not in use finds the new session and
    a token that was in use goes on finding the older session. *)
Theorem deleteSession_logs_out (sessions : list AuthSession) (token : string) :
  getSession (deleteSession sessions token) token = None /\
  (forall t, t <> token ->
     getSession (deleteSession sessions token) t = getSession sessions t) /\
  (getSession sessions token = None -> deleteSession sessions token = sessions) /\
  (forall sessionData uuid now t,
     getSession (createSession sessions sessionData uuid now).1 t =
     match getSession sessions t with
     | Some s => Some s
     | None => if decide (sd_token sessionData = t)
               then Some (createSession sessions sessionData uuid now).2
               else None
     end).
Proof.
  unfold getSession, deleteSession. split_and!.
  - apply StoreOpsFacts.find_None, Forall_forall.
    now intros s [Hs _]%list_elem_of_filter.
  - intros t Hne. apply find_filter_other. intros s <-. done.
  - intros Hnone%StoreOpsFacts.find_None.
    apply StoreOpsFacts.filter_all. exact Hnone.
  - intros sessionData uuid now t. unfold createSession. simpl.
    now rewrite StoreOpsFacts.find_snoc.
Qed.

(** X6. [deleteUserSessions(userId)] keeps exactly the sessions of the
    other users, in their order; where every token belongs to one
    session, a token of the user finds nothing afterwards and a token of
    another user finds its session. *)
Theorem deleteUserSessions_logs_out_everywhere
    (sessions : list AuthSession) (userId : Z) :
  (forall s, s ∈ deleteUserSessions sessions userId <->
             s ∈ sessions /\ s_userId s <> userId) /\
  deleteUserSessions sessions userId `sublist_of` sessions /\
  (forall t s, getSession (deleteUserSessions sessions userId) t = Some s ->
     s_userId s <> userId) /\
  (NoDup (s_token <$> sessions) ->
   forall t, getSession (deleteUserSessions sessions userId) t =
     getSession sessions t ≫=
       fun s => if decide (s_userId s = userId) then None else Some s).
Proof.
  unfold deleteUserSessions, getSession. split_and!.
  - intros s. rewrite list_elem_of_filter. tauto.
  - apply sublist_filter.
  - intros t s [Hin _]%StoreOpsFacts.find_Some_elem.
    now apply list_elem_of_filter in Hin as [Hne _].
  - intros Hnd t. induction sessions as [|a l IH]; [done|].
    rewrite fmap_cons in Hnd. apply NoDup_cons in Hnd as [Ha Hnd].
    rewrite filter_cons, StoreOpsFacts.find_cons.
    destruct (decide (s_userId a ≠ userId)) as [Hu|Hu].
    + rewrite StoreOpsFacts.find_cons. case_decide; [|now apply IH].
      simpl. now rewrite decide_False.
    + apply dec_stable in Hu. case_decide as Ht; [|now apply IH].
      simpl. rewrite decide_True by done.
      apply StoreOpsFacts.find_None, Forall_forall.
      intros s [_ Hs]%list_elem_of_filter Hts. apply Ha.
      rewrite Ht, <- Hts. now apply list_elem_of_fmap_2.
Qed.

Lemma deleteUserSessions_logs_out_everywhere_witness :
  let mk (u : Z) (t : string) :=
    {| s_id := t; s_userId := u; s_token := t; s_refreshToken := t;
       s_expiresAt := 0; s_createdAt := 0; s_userAgent := None;
       s_ipAddress := None; s_isRememberMe := false |} in
  let sessions := [mk 1 "a"; mk 2 "b"; mk 1 "c"] in
  getSession (deleteUserSessions sessions 1) "a" = None /\
  getSession (deleteUserSessions sessions 1) "b" = Some (mk 2 "b").
Proof.
  intros mk sessions.
  destruct (deleteUserSessions_logs_out_everywhere sessions 1)
    as (_ & _ & _ & Hget).
  rewrite !Hget by (apply (bool_decide_unpack _); vm_compute; exact I).
  split; reflexivity.
Defined.

End SessionFacts.

Module MetadataFacts.
Import Store StoreOps.

Local Open Scope Z_scope.

Lemma metadataAt_find ms sheetId index m :
  metadataAt ms sheetId index = Some m ->
  exists i, list_find (fun m => m_sheetId m = sheetId ∧ m_index m = index)
              (metadata ms) = Some (i, m).
Proof.
  unfold metadataAt.
  destruct (list_find _ _) as [[i y]|]; [|done]. intros [= ->]. eauto.
Qed.

Lemma find_metadata_by_id (l : list Metadata) i x :
  NoDup (m_id <$> l) -> l !! i = Some x ->
  list_find (fun m => m_id m = m_id x) l = Some (i, x).
Proof.
  intros Hnd Hi. apply list_find_Some. split_and!; [done..|].
  intros j y Hj Hlt Heq.
  assert (i = j); [|lia].
  eapply NoDup_lookup; [exact Hnd| |].
  - rewrite list_lookup_fmap, Hi. reflexivity.
  - rewrite list_lookup_fmap, Hj. simpl. now rewrite Heq.
Qed.

Lemma spreadMetadata_key m u now :
  sizeOnly u ->
  m_sheetId (spreadMetadata m u now) = m_sheetId m ∧
  m_index (spreadMetadata m u now) = m_index m ∧
  m_id (spreadMetadata m u now) = m_id m.
Proof.
  intros (Hid & Hs & Hi). unfold spreadMetadata. simpl.
  now rewrite Hid, Hs, Hi.
Qed.

(** The effect of one call of [updateColumnMetadataByPosition] or
    [updateRowMetadataByPosition]. *)
Lemma updateMetadataByPosition_effect defaultSize notFound ms sheetId index
    u now :
  metadataOk ms -> sizeOnly u ->
  exists ms' m,
    updateMetadataByPosition defaultSize notFound ms sheetId index u now
      = Ok (ms', m) /\
    metadataOk ms' /\
    metadataAt ms' sheetId index = Some m /\
    (forall s i, (s, i) <> (sheetId, index) ->
       metadataAt ms' s i = metadataAt ms s i) /\
    match metadataAt ms sheetId index with
    | Some existing =>
        m = spreadMetadata existing u now /\
        length (metadata ms') = length (metadata ms) /\
        counters_metadata ms' = counters_metadata ms
    | None =>
        m = {| m_id := counters_metadata ms; m_sheetId := sheetId;
               m_index := index;
               m_size := orNumber (mu_size u) defaultSize;
               m_isHidden := default false (mu_isHidden u);
               m_autoFit := default false (mu_autoFit u);
               m_createdAt := now; m_updatedAt := now |} /\
        metadata ms' = metadata ms ++ [m] /\
        counters_metadata ms' = counters_metadata ms + 1
    end.
Proof.
  intros (Hpos & Hnd & Hlt) Hu.
  unfold updateMetadataByPosition, metadataAt.
  destruct (list_find _ (metadata ms)) as [[i existing]|] eqn:Hfind; simpl.
  - (* there is a metadata: it is updated in place *)
    pose proof Hfind as (Hi & Hat & _)%list_find_Some.
    unfold updateMetadata.
    rewrite (find_metadata_by_id _ i existing Hnd Hi).
    set (m := spreadMetadata existing u now).
    destruct (spreadMetadata_key existing u now Hu) as (Hks & Hki & Hid).
    fold m in Hks, Hki, Hid.
    assert (Hkey : metadataKey m = metadataKey existing)
      by (unfold metadataKey; now rewrite Hks, Hki).
    assert (Hsame : forall s k,
              (m_sheetId m = s ∧ m_index m = k) <->
              (m_sheetId existing = s ∧ m_index existing = k))
      by (intros s k; now rewrite Hks, Hki).
    eexists _, m. split; [reflexivity|]. simpl. split_and!.
    + split_and!; simpl.
      * rewrite list_fmap_insert, Hkey.
        rewrite list_insert_id; [done|]. now rewrite list_lookup_fmap, Hi.
      * rewrite list_fmap_insert, Hid.
        rewrite list_insert_id; [done|]. now rewrite list_lookup_fmap, Hi.
      * apply Forall_insert; [done|]. rewrite Hid.
        eapply Forall_lookup_1 in Hlt; [|exact Hi]. done.
    + rewrite (StoreFacts.list_find_insert_same _ _ _ _ _ Hi (Hsame _ _)), Hfind.
      simpl. now rewrite decide_True.
    + intros s k Hne.
      rewrite (StoreFacts.list_find_insert_same _ _ _ _ _ Hi (Hsame _ _)).
      destruct (list_find (fun m => m_sheetId m = s ∧ m_index m = k)
                  (metadata ms)) as [[j z]|] eqn:Hf; simpl; [|done].
      case_decide as Hj; [|done]. subst j.
      apply list_find_Some in Hf as (Hz & Hatz & _).
      rewrite Hi in Hz. injection Hz as <-.
      destruct Hat as [<- <-], Hatz as [<- <-]. done.
    + done.
    + apply length_insert.
    + done.
  - (* there is none: one is appended *)
    pose proof Hfind as Hnone. apply list_find_None in Hnone.
    eexists _, _. split; [reflexivity|]. simpl. split_and!.
    + split_and!; simpl.
      * rewrite fmap_app. apply NoDup_app.
        split_and!; [done| |apply NoDup_singleton].
        intros p (x & -> & Hin)%list_elem_of_fmap Hp%list_elem_of_singleton.
        eapply Forall_forall in Hnone; [|exact Hin].
        apply Hnone. unfold metadataKey in Hp. simpl in Hp. now injection Hp.
      * rewrite fmap_app. apply NoDup_app.
        split_and!; [done| |apply NoDup_singleton].
        intros x (y & -> & Hin)%list_elem_of_fmap ?%list_elem_of_singleton.
        eapply Forall_forall in Hlt; [|exact Hin]. simpl in *. lia.
      * apply Forall_app. split.
        -- eapply Forall_impl; [exact Hlt|]. simpl. intros; lia.
        -- constructor; [simpl; lia|constructor].
    + rewrite list_find_app_r by done. simpl. now rewrite decide_True.
    + intros s k Hne.
      destruct (list_find (fun m => m_sheetId m = s ∧ m_index m = k)
                  (metadata ms)) as [[j z]|] eqn:Hf.
      * now rewrite (list_find_app_l _ _ _ _ _ Hf).
      * rewrite list_find_app_r by done. simpl.
        rewrite decide_False; [done|]. intros [<- <-]. done.
    + done.
    + done.
    + done.
Qed.

(** X7. On a metadata store with one metadata per sheet and index, a
    call of [updateColumnMetadataByPosition] (default 100) or
    [updateRowMetadataByPosition] (default 21) whose updates carry none
    of the keys [id], [sheetId] and the index returns, keeps the store
    that way, and leaves every other index as it was. Afterwards the
    index holds the returned metadata. Its size is the size of the
    updates when they carry one; but a size of 0, like no size, makes a
    new metadata with the default size, while it is stored as 0 in a
    metadata that exists. *)
Theorem updateMetadataByPosition_size
    (defaultSize : Z) (notFound : string) (ms : MetadataStore)
    (sheetId index : Z) (u : MetadataUpdates) (now : Z) :
  metadataOk ms -> sizeOnly u ->
  exists ms' m,
    updateMetadataByPosition defaultSize notFound ms sheetId index u now
      = Ok (ms', m) /\
    metadataOk ms' /\
    metadataAt ms' sheetId index = Some m /\
    (forall s i, (s, i) <> (sheetId, index) ->
       metadataAt ms' s i = metadataAt ms s i) /\
    m_size m =
      match metadataAt ms sheetId index, mu_size u with
      | Some existing, Some size => size
      | Some existing, None => m_size existing
      | None, Some size => if decide (size = 0) then defaultSize else size
      | None, None => defaultSize
      end /\
    (metadataAt ms sheetId index = None ->
     m_id m = counters_metadata ms /\ m_isHidden m = default false (mu_isHidden u) /\
     m_autoFit m = default false (mu_autoFit u)).
Proof.
  intros Hok Hu.
  destruct (updateMetadataByPosition_effect defaultSize notFound ms sheetId
              index u now Hok Hu) as (ms' & m & Hrun & Hok' & Hat & Hother & Hcase).
  exists ms', m. split_and!; try done.
  - destruct (metadataAt ms sheetId index) as [existing|].
    + destruct Hcase as (-> & _). simpl. now destruct (mu_size u).
    + destruct Hcase as (-> & _). simpl. now destruct (mu_size u).
  - intros Hnone. rewrite Hnone in Hcase. now destruct Hcase as (-> & _).
Qed.

Lemma updateMetadataByPosition_size_witness :
  exists ms' m,
    updateColumnMetadataByPosition
      {| metadata := []; counters_metadata := 1 |} 1 2 (sizeUpdate 0) 5
      = Ok (ms', m) /\
    m_size m = 100 /\
    exists ms'' m',
      updateColumnMetadataByPosition ms' 1 2 (sizeUpdate 0) 6 = Ok (ms'', m') /\
      m_size m' = 0.
Proof.
  destruct (updateMetadataByPosition_size 100 "Column metadata not found"
              {| metadata := []; counters_metadata := 1 |} 1 2 (sizeUpdate 0) 5)
    as (ms' & m & Hrun & Hok' & Hat & _ & Hsize & _).
  - split_and!; constructor.
  - repeat split.
  - exists ms', m. split; [exact Hrun|]. split; [exact Hsize|].
    destruct (updateMetadataByPosition_size 100 "Column metadata not found"
                ms' 1 2 (sizeUpdate 0) 6 Hok')
      as (ms'' & m' & Hrun' & _ & _ & _ & Hsize' & _); [repeat split|].
    exists ms'', m'. split; [exact Hrun'|]. rewrite Hsize', Hat. reflexivity.
Defined.

End MetadataFacts.

(* ===================================================================== *)
(** * The grid: selection, clipboard, navigation, sizes *)
(* ===================================================================== *)

Module GridFacts.
Import Store StoreOps Grid.

Local Open Scope Z_scope.

(** ** Spans and ranges *)

Lemma elem_of_span a b x : x ∈ span a b <-> Z.min a b <= x <= Z.max a b.
Proof. unfold span. rewrite elem_of_seqZ. lia. Qed.

Lemma length_span a b : Z.of_nat (length (span a b)) = Z.abs (b - a) + 1.
Proof. unfold span. rewrite length_seqZ. lia. Qed.

Lemma NoDup_span a b : NoDup (span a b).
Proof. apply NoDup_seqZ. Qed.

Lemma span_comm a b : span a b = span b a.
Proof. unfold span. now rewrite (Z.min_comm a b), (Z.max_comm a b). Qed.

Lemma elem_of_rangeCells range row col :
  (row, col) ∈ rangeCells range <->
  Z.min (startRow range) (endRow range) <= row <= Z.max (startRow range) (endRow range) /\
  Z.min (startCol range) (endCol range) <= col <= Z.max (startCol range) (endCol range).
Proof.
  unfold rangeCells. rewrite list_elem_of_bind. split.
  - intros (r & (c & Hin & Hc)%list_elem_of_bind & Hr).
    apply list_elem_of_singleton in Hin as [= -> ->].
    now apply elem_of_span in Hr, Hc.
  - intros [Hr Hc]. exists row. split; [|now apply elem_of_span].
    apply list_elem_of_bind. exists col. split; [left|now apply elem_of_span].
Qed.

Lemma length_bind_const {A B} (f : A -> list B) (l : list A) n :
  (forall x, length (f x) = n) -> length (l ≫= f) = (length l * n)%nat.
Proof.
  intros Hf. induction l as [|a l IH]; [done|].
  rewrite bind_cons, length_app, Hf, IH. simpl. lia.
Qed.

Lemma length_rangeCells range :
  Z.of_nat (length (rangeCells range)) = cellCount range.
Proof.
  unfold rangeCells, cellCount.
  rewrite (length_bind_const _ _ (length (span (startCol range) (endCol range)))).
  - rewrite Nat2Z.inj_mul, !length_span. done.
  - intros row. rewrite (length_bind_const _ _ 1%nat); [lia|done].
Qed.

Lemma NoDup_rangeCells range : NoDup (rangeCells range).
Proof.
  unfold rangeCells. apply NoDup_bind; [| |apply NoDup_span].
  - intros r1 r2 p _ _ (c1 & Hp1 & _)%list_elem_of_bind
                       (c2 & Hp2 & _)%list_elem_of_bind.
    apply list_elem_of_singleton in Hp1, Hp2. congruence.
  - intros r _. apply NoDup_bind; [| |apply NoDup_span].
    + intros c1 c2 p _ _ Hp1%list_elem_of_singleton Hp2%list_elem_of_singleton.
      congruence.
    + intros c _. apply NoDup_singleton.
Qed.

(** Two nested loops that push [g row col] push the images of the pairs
    [(row, col)]. *)
Lemma nested_loops {A} (g : Z -> Z -> A) (rows cols : list Z) :
  (row ← rows; col ← cols; [g row col]) =
  (fun p => g p.1 p.2) <$> (row ← rows; col ← cols; [(row, col)]).
Proof.
  induction rows as [|r rows IH]; [done|].
  rewrite !bind_cons, fmap_app, IH. f_equal. clear IH.
  induction cols as [|c cols IH]; [done|].
  rewrite !bind_cons, fmap_app, IH. done.
Qed.

(** The data, the clearing calls and the cells of a range go through the
    same cells. *)
Lemma getCellDataInRange_cells cells range :
  getCellDataInRange cells range =
  (fun p => getCellData cells p.1 p.2) <$> rangeCells range.
Proof. apply nested_loops. Qed.

Lemma clearCellsInRange_cells range :
  clearCellsInRange range =
  (fun p => {| cu_row := p.1; cu_column := p.2; cu_value := "";
               cu_formula := None |}) <$> rangeCells range.
Proof.
  apply (nested_loops (fun row col =>
    {| cu_row := row; cu_column := col; cu_value := ""; cu_formula := None |})).
Qed.

Lemma isCellInSelection_range range row col :
  isCellInSelection (Some range) row col = true <-> (row, col) ∈ rangeCells range.
Proof.
  rewrite elem_of_rangeCells. unfold isCellInSelection.
  rewrite !andb_true_iff. lia.
Qed.

(** ** X8: the cells of a selection *)

(** X8. The cells that [isCellInSelection] marks are the cells whose data
    [getCellDataInRange] collects and the cells that [clearCellsInRange]
    clears, each once, row by row; their number is the count that
    [handleDeleteSelectedCells] reports. The two corners are in the
    selection, and a range dragged from the other corner selects,
    collects and clears the same. *)
Theorem selection_cells (cells : list Cell) (range : SelectionRange) :
  let data := getCellDataInRange cells range in
  let calls := clearCellsInRange range in
  let at_ (d : CellData) := (cd_row d, cd_column d) in
  (forall row col,
     isCellInSelection (Some range) row col = true <-> (row, col) ∈ at_ <$> data) /\
  at_ <$> data = (fun call => (cu_row call, cu_column call)) <$> calls /\
  NoDup (at_ <$> data) /\
  (forall d, d ∈ data -> d = getCellData cells (cd_row d) (cd_column d)) /\
  Z.of_nat (length data) = cellCount range /\
  (handleDeleteSelectedCells (Some range) None).2 = Some (Z.of_nat (length calls)) /\
  isCellInSelection (Some range) (startRow range) (startCol range) = true /\
  isCellInSelection (Some range) (endRow range) (endCol range) = true /\
  getCellDataInRange cells (reversed range) = data /\
  clearCellsInRange (reversed range) = calls /\
  (forall row col, isCellInSelection (Some (reversed range)) row col
                   = isCellInSelection (Some range) row col).
Proof.
  intros data calls at_.
  assert (Hat : at_ <$> data = rangeCells range).
  { unfold data. rewrite getCellDataInRange_cells, <- list_fmap_compose.
    rewrite <- (list_fmap_id (rangeCells range)) at 2.
    apply list_fmap_ext. now intros i [r c] _. }
  assert (Hcalls : (fun call => (cu_row call, cu_column call)) <$> calls
                   = rangeCells range).
  { unfold calls. rewrite clearCellsInRange_cells, <- list_fmap_compose.
    rewrite <- (list_fmap_id (rangeCells range)) at 2.
    apply list_fmap_ext. now intros i [r c] _. }
  assert (Hrev : rangeCells (reversed range) = rangeCells range).
  { unfold rangeCells, reversed. simpl.
    now rewrite (span_comm (endRow range)), (span_comm (endCol range)). }
  split_and!.
  - intros row col. rewrite Hat. apply isCellInSelection_range.
  - now rewrite Hat, Hcalls.
  - rewrite Hat. apply NoDup_rangeCells.
  - intros d. unfold data. rewrite getCellDataInRange_cells.
    now intros ([r c] & -> & _)%list_elem_of_fmap.
  - rewrite <- length_rangeCells, <- Hat. now rewrite length_fmap.
  - simpl. f_equal. rewrite <- length_rangeCells, <- Hcalls.
    now rewrite length_fmap.
  - apply isCellInSelection_range, elem_of_rangeCells. lia.
  - apply isCellInSelection_range, elem_of_rangeCells. lia.
  - unfold data. now rewrite !getCellDataInRange_cells, Hrev.
  - unfold calls. now rewrite !clearCellsInRange_cells, Hrev.
  - intros row col. apply eq_true_iff_eq.
    now rewrite !isCellInSelection_range, Hrev.
Qed.

(** ** Copy and paste *)

(** The calls of a paste of clipboard data, one cell at a time. *)
Lemma elem_of_handlePaste cb c call :
  call ∈ (handlePaste (Some cb) (Some c)).1 <->
  exists d, d ∈ cb_data cb /\
    cu_row call = sc_row c + (cd_row d - startRow (cb_range cb)) /\
    cu_column call = sc_column c + (cd_column d - startCol (cb_range cb)) /\
    cu_value call = cd_value d /\ cu_formula call = Some (cd_formula d) /\
    cu_row call <= 100 /\ cu_column call <= 26.
Proof.
  unfold handlePaste. cbn [fst]. rewrite list_elem_of_bind. split.
  - intros (d & Hcall & Hd). exists d. split; [done|]. cbv zeta in Hcall.
    destruct (sc_row c + _ <=? 100) eqn:Hr; [|set_solver].
    destruct (sc_column c + _ <=? 26) eqn:Hc; [|set_solver].
    apply Z.leb_le in Hr, Hc.
    apply list_elem_of_singleton in Hcall as ->. simpl. split_and!; done.
  - intros (d & Hd & Hr & Hc & Hv & Hf & Hr100 & Hc26).
    exists d. split; [|done]. cbv zeta.
    rewrite <- Hr, <- Hc.
    rewrite (proj2 (Z.leb_le _ _) Hr100), (proj2 (Z.leb_le _ _) Hc26).
    apply list_elem_of_singleton. destruct call. simpl in *. congruence.
Qed.

(** X9. Copying a range and pasting it at a selected cell: every call of
    [onCellUpdate] that the paste makes carries the value and the formula
    of a cell of the range to the cell that lies as far from the selected
    cell as the source lies from the start corner of the range, and
    every cell of the range whose target is not beyond row 100 or column
    26 gets its call. No call goes beyond row 100 or column 26. When the
    range was dragged from its upper left corner and the selected cell is
    in the grid, no call leaves the grid; pasted at that corner, every
    cell is written with its own value. A paste without clipboard or
    without selected cell makes no call; after a paste of copied data
    the clipboard is kept. *)
Theorem grid_copy_then_paste (cells : list Cell) (range : SelectionRange)
    (selectedCell : option SelectedCell) (c : SelectedCell) :
  let clipboard := handleCopy cells (Some range) selectedCell None in
  let calls := (handlePaste clipboard (Some c)).1 in
  let target row col :=
    (sc_row c + (row - startRow range), sc_column c + (col - startCol range)) in
  (forall call, call ∈ calls <->
     exists row col,
       isCellInSelection (Some range) row col = true /\
       (cu_row call, cu_column call) = target row col /\
       cu_value call = cd_value (getCellData cells row col) /\
       cu_formula call = Some (cd_formula (getCellData cells row col)) /\
       cu_row call <= 100 /\ cu_column call <= 26) /\
  (startRow range <= endRow range -> startCol range <= endCol range ->
   inGrid c ->
   forall call, call ∈ calls ->
     inGrid {| sc_row := cu_row call; sc_column := cu_column call |}) /\
  (sc_row c = startRow range -> sc_column c = startCol range ->
   forall call, call ∈ calls ->
     cu_value call = cd_value (getCellData cells (cu_row call) (cu_column call))) /\
  (handlePaste clipboard (Some c)).2 = clipboard /\
  (handlePaste None (Some c)).1 = [] /\
  (handlePaste clipboard None).1 = [].
Proof.
  intros clipboard calls target.
  assert (Hcalls : forall call, call ∈ calls <->
     exists row col,
       isCellInSelection (Some range) row col = true /\
       (cu_row call, cu_column call) = target row col /\
       cu_value call = cd_value (getCellData cells row col) /\
       cu_formula call = Some (cd_formula (getCellData cells row col)) /\
       cu_row call <= 100 /\ cu_column call <= 26).
  { intros call. unfold calls, clipboard, handleCopy.
    rewrite elem_of_handlePaste. cbn [cb_data cb_range].
    rewrite getCellDataInRange_cells. split.
    - intros (d & ([row col] & -> & Hin)%list_elem_of_fmap & Hr & Hc & Hv & Hf & Hb).
      exists row, col. apply isCellInSelection_range in Hin.
      change (cd_row (getCellData cells row col)) with row in Hr.
      change (cd_column (getCellData cells row col)) with col in Hc.
      unfold target. simpl in *. destruct Hb. rewrite <- Hr, <- Hc. done.
    - intros (row & col & Hin%isCellInSelection_range & Ht & Hv & Hf & Hb).
      exists (getCellData cells row col). split.
      + apply list_elem_of_fmap. now exists (row, col).
      + unfold target in Ht. injection Ht as Hr Hc.
        change (cd_row (getCellData cells row col)) with row.
        change (cd_column (getCellData cells row col)) with col. done. }
  split_and!; try done.
  - intros Hrows Hcols [Hr Hc] call
      (row & col & Hin%isCellInSelection_range%elem_of_rangeCells & Ht & _ & _ & Hb)%Hcalls.
    unfold target in Ht. injection Ht as Htr Htc.
    unfold inGrid in *. simpl in *. lia.
  - intros Hr Hc call (row & col & _ & Ht & Hv & _)%Hcalls.
    unfold target in Ht. injection Ht as Htr Htc.
    assert (cu_row call = row) as -> by lia.
    assert (cu_column call = col) as -> by lia. done.
Qed.

Lemma grid_copy_then_paste_witness :
  Forall (fun call => inGrid {| sc_row := cu_row call; sc_column := cu_column call |})
    (handlePaste
       (handleCopy (getCellsBySheet (sampleStorage 0) 1)
          (Some {| startRow := 1; startCol := 2; endRow := 3; endCol := 3 |})
          None None)
       (Some {| sc_row := 99; sc_column := 26 |})).1.
Proof.
  destruct (grid_copy_then_paste (getCellsBySheet (sampleStorage 0) 1)
              {| startRow := 1; startCol := 2; endRow := 3; endCol := 3 |}
              None {| sc_row := 99; sc_column := 26 |}) as (_ & Hgrid & _).
  apply Forall_forall.
  apply Hgrid; [simpl; lia|simpl; lia|unfold inGrid; simpl; lia].
Defined.

(** ** Arrow keys *)

(** X10. With a selected cell in the grid, an arrow key selects a cell of
    the grid again, the same one at the border and else the neighbour in
    the direction of the key; any other key selects the same cell.
    Without the shift key the selection range is cleared; with it, the
    range keeps its start corner (or starts at the cell that was
    selected), ends at the newly selected cell and contains it. Without
    a selected cell nothing happens. *)
Theorem handleArrowKeyNavigation_stays_in_grid
    (c : SelectedCell) (selectionRange : option SelectionRange)
    (key : string) (shiftKey : bool) :
  inGrid c ->
  exists range' c',
    handleArrowKeyNavigation (Some c) selectionRange key shiftKey
      = Some (range', c') /\
    inGrid c' /\
    (sc_row c', sc_column c') =
      (if String.eqb key "ArrowUp"
       then (if decide (sc_row c = 1) then 1 else sc_row c - 1, sc_column c)
       else if String.eqb key "ArrowDown"
       then (if decide (sc_row c = 100) then 100 else sc_row c + 1, sc_column c)
       else if String.eqb key "ArrowLeft"
       then (sc_row c, if decide (sc_column c = 1) then 1 else sc_column c - 1)
       else if String.eqb key "ArrowRight"
       then (sc_row c, if decide (sc_column c = 26) then 26 else sc_column c + 1)
       else (sc_row c, sc_column c)) /\
    (if shiftKey
     then exists r, range' = Some r /\
            (startRow r, startCol r) =
              match selectionRange with
              | Some r0 => (startRow r0, startCol r0)
              | None => (sc_row c, sc_column c)
              end /\
            (endRow r, endCol r) = (sc_row c', sc_column c') /\
            isCellInSelection range' (sc_row c') (sc_column c') = true
     else range' = None) /\
    handleArrowKeyNavigation None selectionRange key shiftKey = None.
Proof.
  intros [Hr Hc]. unfold handleArrowKeyNavigation.
  eexists _, _. split; [reflexivity|]. split_and!.
  - unfold inGrid. simpl.
    repeat match goal with |- context [String.eqb ?a ?b] =>
      destruct (String.eqb a b) end; lia.
  - simpl.
    destruct (String.eqb key "ArrowUp") eqn:Hup.
    { apply String.eqb_eq in Hup as ->. simpl. case_decide; f_equal; lia. }
    destruct (String.eqb key "ArrowDown") eqn:Hdown.
    { apply String.eqb_eq in Hdown as ->. simpl. case_decide; f_equal; lia. }
    destruct (String.eqb key "ArrowLeft") eqn:Hleft.
    { case_decide; f_equal; lia. }
    destruct (String.eqb key "ArrowRight") eqn:Hright.
    { case_decide; f_equal; lia. }
    done.
  - destruct shiftKey; [|done].
    destruct selectionRange as [r0|]; eexists; (split; [reflexivity|]);
      (split; [reflexivity|]); (split; [reflexivity|]);
      apply isCellInSelection_range, elem_of_rangeCells; simpl; lia.
  - done.
Qed.

Lemma handleArrowKeyNavigation_stays_in_grid_witness :
  exists range' c',
    handleArrowKeyNavigation (Some {| sc_row := 100; sc_column := 26 |}) None
      "ArrowDown" true = Some (range', c') /\
    inGrid c' /\ (sc_row c', sc_column c') = (100, 26).
Proof.
  destruct (handleArrowKeyNavigation_stays_in_grid
              {| sc_row := 100; sc_column := 26 |} None "ArrowDown" true)
    as (range' & c' & Hrun & Hgrid & Hpos & _).
  - unfold inGrid. simpl. lia.
  - exists range', c'. split_and!; [exact Hrun|exact Hgrid|exact Hpos].
Defined.

(** ** Header clicks *)

Lemma fold_min_le (l : list Z) (x : Z) :
  fold_left Z.min l x <= x /\ Forall (fun y => fold_left Z.min l x <= y) l /\
  (fold_left Z.min l x = x \/ fold_left Z.min l x ∈ l).
Proof.
  revert x. induction l as [|a l IH]; intros x; simpl.
  - split_and!; [lia|constructor|now left].
  - destruct (IH (Z.min x a)) as (Hle & Hall & Hin). split_and!.
    + lia.
    + constructor; [lia|exact Hall].
    + destruct Hin as [Heq|Hin]; [|right; now right].
      destruct (Z.min_spec x a) as [[_ Hm]|[_ Hm]]; rewrite Heq, Hm.
      * now left.
      * right. left.
Qed.

Lemma minimum_least (l : list Z) :
  l <> [] -> minimum l ∈ l /\ Forall (fun y => minimum l <= y) l.
Proof.
  destruct l as [|x l]; [done|]. intros _. unfold minimum.
  destruct (fold_min_le l x) as (Hle & Hall & Hin). split.
  - destruct Hin as [->|Hin]; [left|now right].
  - now constructor.
Qed.

(** X11. Clicking a column or row header. With the shift key and a
    selection that is not empty, the new selection is the run from the
    least selected index to the clicked one, without gaps and in order;
    a click before the least selected index selects that least index
    alone and not the clicked one. Else, with the control key, the
    clicked index is added at the end when it was not selected and every
    occurrence of it is removed when it was, the others stay as they
    were. Else the clicked index alone is selected. A selection without
    duplicates stays without duplicates. *)
Theorem handleHeaderClick_selection
    (selected : list Z) (col : Z) (ctrlKey shiftKey : bool) :
  let result := handleHeaderClick selected col ctrlKey shiftKey in
  (shiftKey = true -> selected <> [] ->
   exists start,
     start ∈ selected /\ Forall (fun c => start <= c) selected /\
     result = seqZ start (Z.max col start - start + 1) /\
     (forall c, c ∈ result <-> start <= c <= Z.max col start) /\
     (col < start -> result = [start])) /\
  (shiftKey = false \/ selected = [] -> ctrlKey = true ->
   (col ∈ result <-> col ∉ selected) /\
   (forall c, c <> col -> c ∈ result <-> c ∈ selected) /\
   (col ∉ selected -> result = selected ++ [col])) /\
  (shiftKey = false \/ selected = [] -> ctrlKey = false -> result = [col]) /\
  (NoDup selected -> NoDup result).
Proof.
  intros result. unfold result, handleHeaderClick. split_and!.
  - intros -> Hne. destruct (minimum_least selected Hne) as [Hin Hall].
    exists (minimum selected).
    destruct selected as [|x l]; [done|]. cbn [length Nat.eqb negb andb].
    cbv zeta. split_and!; [exact Hin|exact Hall|done| |].
    + intros c. rewrite elem_of_seqZ. lia.
    + intros Hlt. now replace (Z.max col _ - _ + 1) with 1 by lia.
  - intros Hplain ->.
    assert (shiftKey && negb (Nat.eqb (length selected) 0) = false) as ->.
    { destruct Hplain as [->| ->]; [done|]. now rewrite andb_false_r. }
    case_bool_decide as Hin; split_and!.
    + rewrite list_elem_of_filter. tauto.
    + intros c Hc. rewrite list_elem_of_filter. tauto.
    + done.
    + rewrite elem_of_app, list_elem_of_singleton. tauto.
    + intros c Hc. rewrite elem_of_app, list_elem_of_singleton. tauto.
    + done.
  - intros Hplain ->.
    assert (shiftKey && negb (Nat.eqb (length selected) 0) = false) as ->.
    { destruct Hplain as [->| ->]; [done|]. now rewrite andb_false_r. }
    done.
  - intros Hnd. destruct (shiftKey && _).
    + apply NoDup_seqZ.
    + destruct ctrlKey; [|apply NoDup_singleton].
      case_bool_decide as Hin.
      * now apply NoDup_filter.
      * apply NoDup_app. split_and!; [done| |apply NoDup_singleton].
        intros c Hc ->%list_elem_of_singleton. done.
Qed.

Lemma handleHeaderClick_selection_witness :
  handleHeaderClick [5; 3; 7] 1 false true = [3] /\
  (2 ∈ handleHeaderClick [5; 3] 2 true false <-> 2 ∉ [5; 3]).
Proof.
  destruct (handleHeaderClick_selection [5; 3; 7] 1 false true)
    as (Hshift & _).
  destruct (handleHeaderClick_selection [5; 3] 2 true false)
    as (_ & Hctrl & _).
  split.
  - destruct Hshift as (start & Hin & Hall & _ & _ & Hbefore); [done..|].
    assert (start = 3) as ->.
    { rewrite !Forall_cons in Hall.
      rewrite !elem_of_cons, elem_of_nil in Hin. lia. }
    apply Hbefore. lia.
  - apply Hctrl; [now left|done].
Defined.

(** ** Positions *)

Lemma fold_positions (size : Z -> Z) (n : nat) (start header : Z) :
  fold_left (fun position i => position + size i)
            (seqZ start (Z.of_nat (S n))) header =
  fold_left (fun position i => position + size i)
            (seqZ start (Z.of_nat n)) header + size (start + Z.of_nat n).
Proof.
  replace (Z.of_nat (S n)) with (Z.of_nat n + 1) by lia.
  rewrite seqZ_app by lia. rewrite fold_left_app. done.
Qed.

Lemma position_step (size : Z -> Z) (header col : Z) :
  1 <= col ->
  fold_left (fun position i => position + size i) (seqZ 1 (col + 1 - 1)) header =
  fold_left (fun position i => position + size i) (seqZ 1 (col - 1)) header
    + size col.
Proof.
  intros Hcol.
  replace (col + 1 - 1) with (Z.of_nat (S (Z.to_nat (col - 1)))) by lia.
  rewrite fold_positions. rewrite Z2Nat.id by lia.
  now replace (1 + (col - 1)) with col by lia.
Qed.

Lemma position_first (size : Z -> Z) (header col : Z) :
  col <= 1 ->
  fold_left (fun position i => position + size i) (seqZ 1 (col - 1)) header
    = header.
Proof.
  intros Hcol. unfold seqZ. now replace (Z.to_nat (col - 1)) with 0%nat by lia.
Qed.

Lemma position_mono (size : Z -> Z) (header : Z) (col col' : Z) :
  (forall i, 1 <= i -> 0 < size i) -> 1 <= col -> col < col' ->
  fold_left (fun position i => position + size i) (seqZ 1 (col - 1)) header
    + size col <=
  fold_left (fun position i => position + size i) (seqZ 1 (col' - 1)) header.
Proof.
  intros Hpos Hcol Hlt.
  replace col' with (col + 1 + Z.of_nat (Z.to_nat (col' - col - 1))) by lia.
  induction (Z.to_nat (col' - col - 1)) as [|n IH].
  - rewrite Z.add_0_r. rewrite position_step by done. lia.
  - replace (col + 1 + Z.of_nat (S n)) with (col + 1 + Z.of_nat n + 1) by lia.
    rewrite position_step by lia.
    specialize (Hpos (col + 1 + Z.of_nat n)). lia.
Qed.

(** X12. Where the grid draws its columns and rows. The first column
    starts right after the row header (at 40) and the first row right
    after the column header (at 24), and so does every index below 1;
    from index 1 on, each column starts where the one before it ends:
    at its position plus its width, and the same for rows with heights.
    When every width from index 1 on is positive, a column ends before
    any later column starts. *)
Theorem positions_tile (columnMetadata rowMetadata : list Metadata)
    (columnWidths rowHeights : gmap Z Z) :
  let left := getColumnPosition columnMetadata columnWidths in
  let width := getColumnWidth columnMetadata columnWidths in
  let top := getRowPosition rowMetadata rowHeights in
  let height := getRowHeight rowMetadata rowHeights in
  (forall col, col <= 1 -> left col = 40) /\
  (forall row, row <= 1 -> top row = 24) /\
  (forall col, 1 <= col -> left (col + 1) = left col + width col) /\
  (forall row, 1 <= row -> top (row + 1) = top row + height row) /\
  ((forall i, 1 <= i -> 0 < width i) ->
   forall col col', 1 <= col -> col < col' -> left col + width col <= left col') /\
  ((forall i, 1 <= i -> 0 < height i) ->
   forall row row', 1 <= row -> row < row' -> top row + height row <= top row').
Proof.
  intros left width top height.
  unfold left, width, top, height, getColumnPosition, getRowPosition.
  split_and!.
  - intros col Hcol. now rewrite position_first.
  - intros row Hrow. now rewrite position_first.
  - intros col Hcol. now apply position_step.
  - intros row Hrow. now apply position_step.
  - intros Hpos col col' Hcol Hlt.
    now apply (position_mono (getColumnWidth columnMetadata columnWidths)).
  - intros Hpos row row' Hrow Hlt.
    now apply (position_mono (getRowHeight rowMetadata rowHeights)).
Qed.

Lemma positions_tile_witness :
  getColumnPosition [] ∅ 2 + getColumnWidth [] ∅ 2 <= getColumnPosition [] ∅ 5.
Proof.
  destruct (positions_tile [] [] ∅ ∅) as (_ & _ & _ & _ & Hcols & _).
  apply Hcols; [|lia..].
  intros i _. unfold getColumnWidth, getSize. simpl.
  rewrite lookup_empty. simpl. unfold defaultColumnWidth. lia.
Defined.

(** ** Resizing *)

(** Looking up an index among the metadata of a sheet is looking up the
    sheet and the index in the store. *)
Lemma find_sheet_metadata (ms : MetadataStore) (sheetId index : Z) :
  snd <$> list_find (fun m => m_index m = index) (getMetadataBySheet ms sheetId)
  = metadataAt ms sheetId index.
Proof.
  unfold getMetadataBySheet, metadataAt.
  induction (metadata ms) as [|a l IH]; [done|].
  rewrite filter_cons, (StoreOpsFacts.find_cons _ a l).
  destruct (decide (m_sheetId a = sheetId)) as [Hs|Hs].
  - rewrite StoreOpsFacts.find_cons.
    destruct (decide (m_index a = index)) as [Hi|Hi].
    + now rewrite decide_True by done.
    + rewrite decide_False by tauto. exact IH.
  - rewrite decide_False by tauto. exact IH.
Qed.

Lemma getSize_sheet (defaultSize : Z) (ms : MetadataStore) (sheetId : Z)
    (sizes : gmap Z Z) (index : Z) :
  getSize defaultSize (getMetadataBySheet ms sheetId) sizes index =
  match metadataAt ms sheetId index with
  | Some m => m_size m
  | None => orNumber (sizes !! index) defaultSize
  end.
Proof.
  unfold getSize. rewrite <- find_sheet_metadata.
  now destruct (list_find _ _) as [[? ?]|].
Qed.

Lemma getSize_type (type : ResizeType) (columns rows : list Metadata)
    (s : ResizeState) (index : Z) :
  match type with
  | ResizeColumn => getColumnWidth columns (columnWidths s) index
  | ResizeRow => getRowHeight rows (rowHeights s) index
  end =
  getSize (defaultSizeOf type)
    (match type with ResizeColumn => columns | ResizeRow => rows end)
    (localSizes type s) index.
Proof. now destruct type. Qed.

(** X13. Dragging the border of a column or a row, with the metadata of
    the sheet loaded, and releasing it. For an index without metadata,
    the size shown after the move is the size shown before plus the
    distance dragged, and at least 50 for a column and 15 for a row; for
    an index with metadata the size shown stays the stored one, whatever
    the distance. Releasing sends the size shown, ends the resize, and
    the storage answers with the metadata of the index, which it now
    finds there with exactly the size shown; so for an index that had
    metadata the stored size is what it was before the drag. Without a
    resize going on, a move changes nothing and a release sends
    nothing. *)
Theorem resize_then_save (type : ResizeType) (columns rows : MetadataStore)
    (sheetId index : Z) (s : ResizeState) (clientX clientY now : Z) :
  metadataOk (storeOf type columns rows) ->
  isResizing s = Some (type, index) ->
  let columnMetadata := getMetadataBySheet columns sheetId in
  let rowMetadata := getMetadataBySheet rows sheetId in
  let ms := storeOf type columns rows in
  let shown s :=
    match type with
    | ResizeColumn => getColumnWidth columnMetadata (columnWidths s) index
    | ResizeRow => getRowHeight rowMetadata (rowHeights s) index
    end in
  let delta :=
    match type with
    | ResizeColumn => clientX - (resizeStart s).1
    | ResizeRow => clientY - (resizeStart s).2
    end in
  let moved := handleResizeMove columnMetadata rowMetadata s clientX clientY in
  let released := handleResizeEnd columnMetadata rowMetadata moved in
  shown moved =
    match metadataAt ms sheetId index with
    | Some m => m_size m
    | None => Z.max (leastSizeOf type) (shown s + delta)
    end /\
  resizeStart moved = (clientX, clientY) /\
  isResizing released.1 = None /\
  handleResizeMove columnMetadata rowMetadata released.1 clientX clientY
    = released.1 /\
  (handleResizeEnd columnMetadata rowMetadata released.1).2 = None /\
  exists u ms' m',
    released.2 = Some (type, index, u) /\
    putMetadata type ms sheetId index u now = Ok (ms', m') /\
    metadataOk ms' /\
    metadataAt ms' sheetId index = Some m' /\
    m_size m' = shown moved /\
    (forall m, metadataAt ms sheetId index = Some m -> m_size m' = m_size m) /\
    (forall sheet i, (sheet, i) <> (sheetId, index) ->
       metadataAt ms' sheet i = metadataAt ms sheet i).
Proof.
  intros Hok Hres columnMetadata rowMetadata ms shown delta moved released.
  assert (Hshown : forall s', shown s' =
            match metadataAt ms sheetId index with
            | Some m => m_size m
            | None => orNumber (localSizes type s' !! index) (defaultSizeOf type)
            end).
  { intros s'. unfold shown, columnMetadata, rowMetadata, ms.
    rewrite getSize_type. destruct type; apply getSize_sheet. }
  assert (Hlocal : localSizes type moved =
            <[index := Z.max (leastSizeOf type) (shown s + delta)]>
              (localSizes type s)).
  { unfold moved, handleResizeMove. rewrite Hres.
    unfold shown, delta. now destruct type. }
  assert (Hmoved : shown moved =
            match metadataAt ms sheetId index with
            | Some m => m_size m
            | None => Z.max (leastSizeOf type) (shown s + delta)
            end).
  { rewrite Hshown, Hlocal, lookup_insert_eq.
    destruct (metadataAt ms sheetId index); [done|].
    unfold orNumber. rewrite decide_False; [done|]. destruct type; simpl; lia. }
  assert (Hstill : isResizing moved = Some (type, index)).
  { unfold moved, handleResizeMove. rewrite Hres. now destruct type. }
  split_and!.
  - exact Hmoved.
  - unfold moved, handleResizeMove. rewrite Hres. now destruct type.
  - done.
  - done.
  - done.
  - destruct (MetadataFacts.updateMetadataByPosition_effect
                (defaultSizeOf type)
                (match type with
                 | ResizeColumn => "Column metadata not found"
                 | ResizeRow => "Row metadata not found"
                 end) ms sheetId index (sizeUpdate (shown moved)) now Hok)
      as (ms' & m' & Hput & Hok' & Hat & Hframe & Heffect); [done|].
    exists (sizeUpdate (shown moved)), ms', m'. split_and!.
    + unfold released, handleResizeEnd. rewrite Hstill. cbn [snd].
      unfold shown. now destruct type.
    + rewrite <- Hput. unfold putMetadata. now destruct type.
    + exact Hok'.
    + exact Hat.
    + destruct (metadataAt ms sheetId index) as [m|] eqn:Hm.
      * destruct Heffect as (-> & _). done.
      * destruct Heffect as (-> & _). cbn [m_size sizeUpdate mu_size].
        rewrite Hmoved. unfold orNumber. rewrite decide_False; [done|].
        destruct type; simpl; lia.
    + intros m Hm. rewrite Hm in Heffect. destruct Heffect as (-> & _).
      cbn [spreadMetadata m_size sizeUpdate mu_size default].
      rewrite Hmoved. setoid_rewrite Hm. done.
    + exact Hframe.
Qed.

Lemma resize_then_save_witness :
  let columns :=
    {| metadata := [ {| m_id := 1; m_sheetId := 1; m_index := 3; m_size := 120;
                        m_isHidden := false; m_autoFit := false;
                        m_createdAt := 0; m_updatedAt := 0 |} ];
       counters_metadata := 2 |} in
  let s := {| columnWidths := ∅; rowHeights := ∅;
              isResizing := Some (ResizeColumn, 3); resizeStart := (200, 10) |} in
  let columnMetadata := getMetadataBySheet columns 1 in
  let moved := handleResizeMove columnMetadata [] s 260 10 in
  getColumnWidth columnMetadata (columnWidths moved) 3 = 120.
Proof.
  intros columns s columnMetadata moved.
  destruct (resize_then_save ResizeColumn columns
              {| metadata := []; counters_metadata := 1 |} 1 3 s 260 10 7)
    as (Hshown & _).
  - split_and!; repeat constructor; set_solver.
  - reflexivity.
  - exact Hshown.
Defined.

(** ** Auto-fit *)

Lemma fold_max_rows (f : Z -> Z) (l : list Z) (x : Z) :
  let m := fold_left (fun maxWidth row => Z.max maxWidth (f row)) l x in
  x <= m /\ (forall row, row ∈ l -> f row <= m) /\
  (m = x \/ exists row, row ∈ l /\ m = f row).
Proof.
  revert x. induction l as [|a l IH]; intros x; simpl.
  - split_and!; [lia| |now left]. intros row Hrow. now apply elem_of_nil in Hrow.
  - destruct (IH (Z.max x (f a))) as (Hle & Hall & Hin). split_and!.
    + lia.
    + intros row [->|Hrow]%elem_of_cons; [lia|now apply Hall].
    + destruct Hin as [Heq|(row & Hrow & Heq)].
      * destruct (Z.max_spec x (f a)) as [[_ Hm]|[_ Hm]]; rewrite Heq, Hm.
        -- right. exists a. split; [left|done].
        -- now left.
      * right. exists row. split; [now right|done].
Qed.

(** X14. A double click on the border of a column fits its width to the
    texts that the grid shows in rows 1 to 100 of the column, at 8 per
    character plus 16: the width is at least 60 and at most 300, no
    narrower than any of those texts unless that text needs more than
    300, and no wider than needed: it is 60, 300 or the width of one of
    the texts. The storage then holds that width for the column, marked
    as auto-fitted, whether the column had metadata or not; for a row
    it holds the height 21, whatever the row contains. *)
Theorem auto_fit (cells : list Cell) (s : ResizeState) (index : Z)
    (ms : MetadataStore) (sheetId now : Z) :
  metadataOk ms ->
  let fitted type := handleDoubleClickResize cells s type index in
  let width := autoWidth cells index in
  60 <= width <= 300 /\
  (forall row, 1 <= row <= 100 ->
     Z.min (textWidth (getCellValue cells row index)) 300 <= width) /\
  (width = 60 \/ width = 300 \/
   exists row, 1 <= row <= 100 /\
               width = textWidth (getCellValue cells row index)) /\
  columnWidths (fitted ResizeColumn).1 !! index = Some width /\
  rowHeights (fitted ResizeRow).1 !! index = Some 21 /\
  (exists ms' m',
     putMetadata ResizeColumn ms sheetId index (fitted ResizeColumn).2.2 now
       = Ok (ms', m') /\
     metadataAt ms' sheetId index = Some m' /\
     m_size m' = width /\ m_autoFit m' = true) /\
  (exists ms' m',
     putMetadata ResizeRow ms sheetId index (fitted ResizeRow).2.2 now
       = Ok (ms', m') /\
     metadataAt ms' sheetId index = Some m' /\
     m_size m' = 21 /\ m_autoFit m' = true).
Proof.
  intros Hok fitted width.
  destruct (fold_max_rows (fun row => textWidth (getCellValue cells row index))
              (seqZ 1 100) 60) as (Hle & Hall & Hin).
  assert (Hwidth : 60 <= width <= 300).
  { unfold width, autoWidth. cbv zeta. lia. }
  assert (Hsaved : forall defaultSize notFound size, size <> 0 ->
    exists ms' m',
      updateMetadataByPosition defaultSize notFound ms sheetId index
        (autoFitUpdate size) now = Ok (ms', m') /\
      metadataAt ms' sheetId index = Some m' /\
      m_size m' = size /\ m_autoFit m' = true).
  { intros defaultSize notFound size Hsize.
    destruct (MetadataFacts.updateMetadataByPosition_effect defaultSize
                notFound ms sheetId index (autoFitUpdate size) now Hok)
      as (ms' & m' & Hput & _ & Hat & _ & Heffect); [done|].
    exists ms', m'. split_and!; [done|done|..];
      destruct (metadataAt ms sheetId index);
      destruct Heffect as (-> & _); simpl; try done.
    unfold orNumber. now rewrite decide_False. }
  split_and!.
  - lia.
  - lia.
  - intros row Hrow. unfold width, autoWidth. cbv zeta.
    specialize (Hall row). rewrite elem_of_seqZ in Hall. lia.
  - unfold width, autoWidth. cbv zeta.
    destruct Hin as [Heq|(row & Hrow%elem_of_seqZ & Heq)].
    + left. lia.
    + destruct (Z.min_spec
        (fold_left (fun maxWidth row =>
                      Z.max maxWidth (textWidth (getCellValue cells row index)))
                   (seqZ 1 100) 60) 300) as [[_ Hm]|[_ Hm]]; rewrite Hm.
      * right. right. exists row. split; [lia|done].
      * right. now left.
  - unfold fitted, handleDoubleClickResize. simpl. apply lookup_insert_eq.
  - unfold fitted, handleDoubleClickResize. simpl. apply lookup_insert_eq.
  - apply Hsaved. lia.
  - apply Hsaved. lia.
Qed.

Lemma auto_fit_witness :
  autoWidth (getCellsBySheet (sampleStorage 0) 1) 1 <= 300.
Proof.
  destruct (auto_fit (getCellsBySheet (sampleStorage 0) 1)
              {| columnWidths := ∅; rowHeights := ∅; isResizing := None;
                 resizeStart := (0, 0) |} 1
              {| metadata := []; counters_metadata := 1 |} 1 0)
    as ([_ Hmost] & _).
  - split_and!; constructor.
  - exact Hmost.
Defined.

End GridFacts.

(* ===================================================================== *)
(** * The second grid: jumping to the edge of the data *)
(* ===================================================================== *)

Module SheetsGridFacts.
Import Store Grid SheetsGrid.

(** The loop towards the limit: with [r] the loop variable, [n] turns
    left, and the cells from [from] up to [r] alike. *)
Lemma scanForward_edge (valueAt : Z -> bool) (limit from : Z) (n : nat) :
  forall r,
    from < r -> Z.of_nat n = limit - r + 1 ->
    (forall x, from < x < r -> valueAt x = valueAt from) ->
    forwardEdge valueAt limit from
      (scanForward limit (valueAt from) valueAt n r).
Proof.
  induction n as [|n IH]; intros r Hr Hn Hsame; simpl.
  - unfold forwardEdge. split; [lia|].
    destruct (valueAt from) eqn:Hfrom.
    + split; [|now left]. intros x Hx.
      destruct (decide (x = from)) as [->|]; [done|]. apply Hsame. lia.
    + split; [|now left]. intros x Hx. apply Hsame. lia.
  - destruct (valueAt from) eqn:Hfrom; destruct (valueAt r) eqn:Hat; simpl.
    + apply IH; [lia..|]. intros x Hx.
      destruct (decide (x = r)) as [->|]; [done|]. apply Hsame. lia.
    + unfold forwardEdge. rewrite Hfrom. split; [lia|]. split.
      * intros x Hx.
        destruct (decide (x = from)) as [->|]; [done|]. apply Hsame. lia.
      * right. now replace (r - 1 + 1) with r by lia.
    + unfold forwardEdge. rewrite Hfrom. split; [lia|]. split.
      * intros x Hx. apply Hsame. lia.
      * right. split; [lia|done].
    + apply IH; [lia..|]. intros x Hx.
      destruct (decide (x = r)) as [->|]; [done|]. apply Hsame. lia.
Qed.

(** The loop towards 1. *)
Lemma scanBackward_edge (valueAt : Z -> bool) (from : Z) (n : nat) :
  forall r,
    r < from -> Z.of_nat n = r ->
    (forall x, r < x < from -> valueAt x = valueAt from) ->
    backwardEdge valueAt from (scanBackward (valueAt from) valueAt n r).
Proof.
  induction n as [|n IH]; intros r Hr Hn Hsame; simpl.
  - unfold backwardEdge. split; [lia|].
    destruct (valueAt from) eqn:Hfrom.
    + split; [|now left]. intros x Hx.
      destruct (decide (x = from)) as [->|]; [done|]. apply Hsame. lia.
    + split; [|now left]. intros x Hx. apply Hsame. lia.
  - destruct (valueAt from) eqn:Hfrom; destruct (valueAt r) eqn:Hat; simpl.
    + apply IH; [lia..|]. intros x Hx.
      destruct (decide (x = r)) as [->|]; [done|]. apply Hsame. lia.
    + unfold backwardEdge. rewrite Hfrom. split; [lia|]. split.
      * intros x Hx.
        destruct (decide (x = from)) as [->|]; [done|]. apply Hsame. lia.
      * right. now replace (r + 1 - 1) with r by lia.
    + unfold backwardEdge. rewrite Hfrom. split; [lia|]. split.
      * intros x Hx. apply Hsame. lia.
      * right. split; [lia|done].
    + apply IH; [lia..|]. intros x Hx.
      destruct (decide (x = r)) as [->|]; [done|]. apply Hsame. lia.
Qed.

Lemma navigateToCell_inside (row col : Z) :
  1 <= row <= maxRows -> 1 <= col <= maxCols ->
  navigateToCell row col = {| sc_row := row; sc_column := col |}.
Proof.
  intros Hr Hc. unfold navigateToCell. f_equal; lia.
Qed.

Section Jump.
Variable trimmedIsEmpty : string -> bool.
Variable cells : list Cell.

(** X15. An arrow key with the control key, from a selected cell of the
    grid (rows 1 to 1000, columns 1 to 26), selects a cell of the same
    column (up, down) or row (left, right), at the edge of the data.
    From a cell with a value that edge is the last cell of the unbroken
    run of cells with values that starts at the selected cell; from a
    cell without a value it is the nearest cell with a value in the
    direction; it is the first or last row or column of the grid when
    there is no such end. A cell has a value when its text, trimmed, is
    not empty. *)
Theorem ctrl_arrow_jumps_to_data_edge (c : SelectedCell)
    (selectionRange : option SelectionRange) (shiftKey : bool) :
  1 <= sc_row c <= maxRows -> 1 <= sc_column c <= maxCols ->
  let valueInColumn r := hasValue trimmedIsEmpty cells r (sc_column c) in
  let valueInRow k := hasValue trimmedIsEmpty cells (sc_row c) k in
  let jump key :=
    handleArrowKeyNavigation trimmedIsEmpty cells (Some c) selectionRange
      key shiftKey true in
  (exists range e,
     jump "ArrowDown" = Some (range, {| sc_row := e; sc_column := sc_column c |}) /\
     forwardEdge valueInColumn maxRows (sc_row c) e) /\
  (exists range e,
     jump "ArrowUp" = Some (range, {| sc_row := e; sc_column := sc_column c |}) /\
     backwardEdge valueInColumn (sc_row c) e) /\
  (exists range e,
     jump "ArrowRight" = Some (range, {| sc_row := sc_row c; sc_column := e |}) /\
     forwardEdge valueInRow maxCols (sc_column c) e) /\
  (exists range e,
     jump "ArrowLeft" = Some (range, {| sc_row := sc_row c; sc_column := e |}) /\
     backwardEdge valueInRow (sc_column c) e).
Proof.
  intros Hrow Hcol valueInColumn valueInRow jump.
  assert (Hdown : forwardEdge valueInColumn maxRows (sc_row c)
            (findDataEdge trimmedIsEmpty cells (sc_row c) (sc_column c) DirDown)).
  { apply (scanForward_edge valueInColumn); [lia|lia|]. intros x Hx. lia. }
  assert (Hup : backwardEdge valueInColumn (sc_row c)
            (findDataEdge trimmedIsEmpty cells (sc_row c) (sc_column c) DirUp)).
  { apply (scanBackward_edge valueInColumn); [lia|lia|]. intros x Hx. lia. }
  assert (Hright : forwardEdge valueInRow maxCols (sc_column c)
            (findDataEdge trimmedIsEmpty cells (sc_row c) (sc_column c) DirRight)).
  { apply (scanForward_edge valueInRow); [lia|lia|]. intros x Hx. lia. }
  assert (Hleft : backwardEdge valueInRow (sc_column c)
            (findDataEdge trimmedIsEmpty cells (sc_row c) (sc_column c) DirLeft)).
  { apply (scanBackward_edge valueInRow); [lia|lia|]. intros x Hx. lia. }
  unfold jump, handleArrowKeyNavigation. cbn [String.eqb Ascii.eqb Bool.eqb andb].
  cbv zeta. split_and!; eexists _, _.
  - split; [|exact Hdown]. f_equal. f_equal. apply navigateToCell_inside; [|lia].
    destruct Hdown as [Hd _]. unfold maxRows in *. lia.
  - split; [|exact Hup]. f_equal. f_equal. apply navigateToCell_inside; [|lia].
    destruct Hup as [Hd _]. unfold maxRows in *. lia.
  - split; [|exact Hright]. f_equal. f_equal. apply navigateToCell_inside; [lia|].
    destruct Hright as [Hd _]. unfold maxCols in *. lia.
  - split; [|exact Hleft]. f_equal. f_equal. apply navigateToCell_inside; [lia|].
    destruct Hleft as [Hd _]. unfold maxCols in *. lia.
Qed.

End Jump.

Lemma ctrl_arrow_jumps_to_data_edge_witness :
  let cells := getCellsBySheet (sampleStorage 0) 1 in
  let trimmedIsEmpty s := String.eqb s "" in
  exists range e,
    handleArrowKeyNavigation trimmedIsEmpty cells
      (Some {| sc_row := 1; sc_column := 1 |}) None "ArrowDown" false true
      = Some (range, {| sc_row := e; sc_column := 1 |}) /\
    forwardEdge (fun r => hasValue trimmedIsEmpty cells r 1) maxRows 1 e.
Proof.
  intros cells trimmedIsEmpty.
  destruct (ctrl_arrow_jumps_to_data_edge trimmedIsEmpty cells
              {| sc_row := 1; sc_column := 1 |} None false)
    as (Hdown & _).
  - unfold maxRows. simpl. lia.
  - unfold maxCols. simpl. lia.
  - exact Hdown.
Defined.

(** ** The fill handle *)

(** A loop that pushes for the indices that pass a test. *)
Lemma bind_if {A} (P : Z -> Prop) `{!forall x, Decision (P x)}
    (f : Z -> A) (l : list Z) :
  (x ← l; if decide (P x) then [f x] else []) = f <$> filter P l.
Proof.
  induction l as [|a l IH]; [done|].
  rewrite bind_cons, filter_cons, IH. now destruct (decide (P a)).
Qed.

Lemma length_filter_ne (x : Z) (l : list Z) :
  NoDup l -> x ∈ l -> (length (filter (fun y => y ≠ x) l) + 1 = length l)%nat.
Proof.
  induction 1 as [|a l Hnotin Hnd IH]; intros Hin.
  - now apply elem_of_nil in Hin.
  - rewrite filter_cons. destruct (decide (a ≠ x)) as [Hne|Heq].
    + apply elem_of_cons in Hin as [->|Hin]; [done|]. simpl. now rewrite IH.
    + assert (a = x) as -> by (destruct (decide (a = x)); tauto).
      rewrite StoreOpsFacts.filter_all; [simpl; lia|].
      apply Forall_forall. intros y Hy ->. done.
Qed.

Lemma fill_line {A} (f : Z -> A) (from to : Z) :
  let calls := (x ← span from to; if decide (x ≠ from) then [f x] else []) in
  calls = f <$> filter (fun x => x ≠ from) (span from to) /\
  Z.of_nat (length calls) = Z.abs (to - from).
Proof.
  intros calls. unfold calls. rewrite (bind_if (fun x => x ≠ from)).
  split; [done|]. rewrite length_fmap.
  pose proof (length_filter_ne from (span from to)
                (GridFacts.NoDup_span from to)) as Hlen.
  pose proof (GridFacts.length_span from to) as Hspan.
  rewrite <- Hlen in Hspan; [lia|]. apply GridFacts.elem_of_span. lia.
Qed.

(** X16. Dragging the fill handle of a cell to a target cell. When the
    target is in another row, the value that the grid shows for the
    source cell is sent to every cell of the source column between the
    source row and the target row, the target included and the source
    not, whatever the column of the target; when the target is in the
    same row it is sent to the cells of that row between the source
    column and the target column. Each of these cells gets one call,
    so there are as many calls as the target is rows (or columns) away.
    The source cell itself is never written, and nothing is sent when
    no fill is going on. *)
Theorem handleFillDrag_fills (cells : list Cell) (handle : FillHandle)
    (targetRow targetCol : Z) :
  let calls := handleFillDrag cells true (Some handle) targetRow targetCol in
  let source := getCellValue cells (fh_row handle) (fh_col handle) in
  (targetRow <> fh_row handle ->
   (forall call, call ∈ calls <->
      cm_column call = fh_col handle /\ cm_value call = source /\
      cm_row call <> fh_row handle /\
      Z.min (fh_row handle) targetRow <= cm_row call
        <= Z.max (fh_row handle) targetRow) /\
   Z.of_nat (length calls) = Z.abs (targetRow - fh_row handle)) /\
  (targetRow = fh_row handle ->
   (forall call, call ∈ calls <->
      cm_row call = fh_row handle /\ cm_value call = source /\
      cm_column call <> fh_col handle /\
      Z.min (fh_col handle) targetCol <= cm_column call
        <= Z.max (fh_col handle) targetCol) /\
   Z.of_nat (length calls) = Z.abs (targetCol - fh_col handle)) /\
  NoDup calls /\
  (forall call, call ∈ calls ->
     (cm_row call, cm_column call) <> (fh_row handle, fh_col handle)) /\
  handleFillDrag cells false (Some handle) targetRow targetCol = [] /\
  (forall dragging, handleFillDrag cells dragging None targetRow targetCol = []).
Proof.
  intros calls source.
  destruct (fill_line (fun r => {| cm_row := r; cm_column := fh_col handle;
                                   cm_value := source |})
              (fh_row handle) targetRow) as [Hrows Hnrows].
  destruct (fill_line (fun k => {| cm_row := fh_row handle; cm_column := k;
                                   cm_value := source |})
              (fh_col handle) targetCol) as [Hcols Hncols].
  assert (Hvertical : targetRow <> fh_row handle ->
    calls = (fun r => {| cm_row := r; cm_column := fh_col handle;
                         cm_value := source |})
              <$> filter (fun x => x ≠ fh_row handle)
                         (span (fh_row handle) targetRow)).
  { intros Hne. unfold calls, handleFillDrag. cbv zeta.
    rewrite decide_True by done. exact Hrows. }
  assert (Hhorizontal : targetRow = fh_row handle ->
    calls = (fun k => {| cm_row := fh_row handle; cm_column := k;
                         cm_value := source |})
              <$> filter (fun x => x ≠ fh_col handle)
                         (span (fh_col handle) targetCol)).
  { intros Heq. unfold calls, handleFillDrag. cbv zeta.
    rewrite decide_False by tauto.
    destruct (decide (targetCol ≠ fh_col handle)) as [Hne|Hsame]; [exact Hcols|].
    assert (targetCol = fh_col handle) as ->
      by (destruct (decide (targetCol = fh_col handle)); tauto).
    assert (span (fh_col handle) (fh_col handle) = [fh_col handle]) as ->.
    { unfold span. now rewrite Z.min_id, Z.max_id, Z.sub_diag. }
    rewrite filter_cons, decide_False by (intros H; now apply H). done. }
  assert (Hin_rows : targetRow <> fh_row handle ->
    forall call, call ∈ calls <->
      cm_column call = fh_col handle /\ cm_value call = source /\
      cm_row call <> fh_row handle /\
      Z.min (fh_row handle) targetRow <= cm_row call
        <= Z.max (fh_row handle) targetRow).
  { intros Hne call. rewrite (Hvertical Hne), list_elem_of_fmap. split.
    - intros (r & -> & [Hr Hspan%GridFacts.elem_of_span]%list_elem_of_filter).
      simpl. done.
    - intros (Hc & Hv & Hr & Hspan). exists (cm_row call). split.
      + destruct call. simpl in *. congruence.
      + apply list_elem_of_filter. split; [done|].
        now apply GridFacts.elem_of_span. }
  assert (Hin_cols : targetRow = fh_row handle ->
    forall call, call ∈ calls <->
      cm_row call = fh_row handle /\ cm_value call = source /\
      cm_column call <> fh_col handle /\
      Z.min (fh_col handle) targetCol <= cm_column call
        <= Z.max (fh_col handle) targetCol).
  { intros Heq call. rewrite (Hhorizontal Heq), list_elem_of_fmap. split.
    - intros (k & -> & [Hk Hspan%GridFacts.elem_of_span]%list_elem_of_filter).
      simpl. done.
    - intros (Hr & Hv & Hk & Hspan). exists (cm_column call). split.
      + destruct call. simpl in *. congruence.
      + apply list_elem_of_filter. split; [done|].
        now apply GridFacts.elem_of_span. }
  split_and!.
  - intros Hne. split; [now apply Hin_rows|].
    rewrite (Hvertical Hne), <- Hrows. exact Hnrows.
  - intros Heq. split; [now apply Hin_cols|].
    rewrite (Hhorizontal Heq), <- Hcols. exact Hncols.
  - destruct (decide (targetRow = fh_row handle)) as [Heq|Hne].
    + rewrite (Hhorizontal Heq). apply NoDup_fmap_2.
      * intros k1 k2 [=]. done.
      * apply NoDup_filter, GridFacts.NoDup_span.
    + rewrite (Hvertical Hne). apply NoDup_fmap_2.
      * intros r1 r2 [=]. done.
      * apply NoDup_filter, GridFacts.NoDup_span.
  - intros call Hcall [= Hr Hc].
    destruct (decide (targetRow = fh_row handle)) as [Heq|Hne].
    + apply (Hin_cols Heq) in Hcall. tauto.
    + apply (Hin_rows Hne) in Hcall. tauto.
  - done.
  - now intros [].
Qed.

Lemma handleFillDrag_fills_witness :
  Z.of_nat (length (handleFillDrag (getCellsBySheet (sampleStorage 0) 1) true
                      (Some {| fh_row := 2; fh_col := 1 |}) 5 4)) = 3.
Proof.
  destruct (handleFillDrag_fills (getCellsBySheet (sampleStorage 0) 1)
              {| fh_row := 2; fh_col := 1 |} 5 4) as (Hvertical & _).
  destruct Hvertical as [_ Hlen]; [simpl; lia|].
  exact Hlen.
Defined.

End SheetsGridFacts.

(* ===================================================================== *)
(** * The pages: selection, toolbar, register form, CSV export *)
(* ===================================================================== *)

Module PagesFacts.
Import Columns Store StoreOps Grid Pages.

(** ** The selection of the page *)

(** X17. The page selects, for a range, the cells that the grid marks as
    selected: each cell of the range once, row by row, whichever corner
    the range was dragged from, all of them on the active sheet, or on
    sheet 1 when there is no active sheet. Their number is the count
    the grid reports, and selecting one cell is selecting the range of
    that cell. *)
Theorem handleRangeSelect_cells (activeSheet : option Z) (range : SelectionRange) :
  let selected := handleRangeSelect activeSheet range in
  let at_ (cell : PageCell) := (pc_row cell, pc_column cell) in
  at_ <$> selected = rangeCells range /\
  (forall row col,
     isCellInSelection (Some range) row col = true <-> (row, col) ∈ at_ <$> selected) /\
  NoDup (at_ <$> selected) /\
  Z.of_nat (length selected) = cellCount range /\
  (forall cell, cell ∈ selected ->
     pc_sheetId cell =
       match activeSheet with
       | Some sheet => if decide (sheet = 0) then 1 else sheet
       | None => 1
       end) /\
  at_ <$> handleRangeSelect activeSheet (reversed range) = at_ <$> selected /\
  (forall row col,
     handleCellSelect activeSheet row col =
     handleRangeSelect activeSheet
       (cellRange {| sc_row := row; sc_column := col |})).
Proof.
  intros selected at_.
  assert (Hsel : forall r, handleRangeSelect activeSheet r =
            (fun p => {| pc_row := p.1; pc_column := p.2;
                         pc_sheetId := orNumber activeSheet 1 |})
              <$> rangeCells r).
  { intros r. apply (GridFacts.nested_loops (fun row col =>
      {| pc_row := row; pc_column := col;
         pc_sheetId := orNumber activeSheet 1 |})). }
  assert (Hat : forall r, at_ <$> handleRangeSelect activeSheet r = rangeCells r).
  { intros r. rewrite Hsel, <- list_fmap_compose.
    rewrite <- (list_fmap_id (rangeCells r)) at 2.
    apply list_fmap_ext. now intros i [row col] _. }
  split_and!.
  - apply Hat.
  - intros row col. unfold selected. rewrite Hat.
    apply GridFacts.isCellInSelection_range.
  - unfold selected. rewrite Hat. apply GridFacts.NoDup_rangeCells.
  - unfold selected. rewrite Hsel, length_fmap.
    apply GridFacts.length_rangeCells.
  - intros cell. unfold selected. rewrite Hsel.
    intros (p & -> & _)%list_elem_of_fmap. simpl.
    now destruct activeSheet.
  - unfold selected. rewrite !Hat. unfold rangeCells, reversed. simpl.
    now rewrite (GridFacts.span_comm (endRow range)),
                (GridFacts.span_comm (endCol range)).
  - intros row col. unfold handleCellSelect, handleRangeSelect, cellRange, span.
    simpl. rewrite !Z.min_id, !Z.max_id, !Z.sub_diag. done.
Qed.

(** ** The toolbar: delete *)

Section Toolbar.
Variable isNaN_Number : string -> bool.

(** What [handleCellUpdate(row, column, "")] sends. *)
Lemma clear_body :
  handleCellUpdate_body isNaN_Number "" None =
  {| u_id := None; u_sheetId := None; u_row := None; u_column := None;
     u_value := Some (Some ""); u_formula := None; u_dataType := Some text;
     u_formatting := None; u_createdAt := None; u_updatedAt := None |}.
Proof.
  unfold handleCellUpdate_body. simpl. now rewrite andb_false_r.
Qed.

(** The storage after the selected cells were cleared one after the
    other. *)
Lemma awaitEach_clear (sheet : Z) (selected : list PageCell) :
  forall (st : Storage) (now : nat -> Z),
    uniquePositions st -> uniqueIds st ->
    let st' := awaitEach isNaN_Number st sheet (clearCalls selected) now in
    let cleared := (fun cell => (sheet, pc_row cell, pc_column cell)) <$> selected in
    uniquePositions st' /\ uniqueIds st' /\
    (forall s r k, (s, r, k) ∈ cleared ->
       content <$> getCell st' s r k =
       Some (Some "", getCell st s r k ≫= cell_formula, text)) /\
    (forall s r k, (s, r, k) ∉ cleared -> getCell st' s r k = getCell st s r k) /\
    (forall i c0, cells st !! i = Some c0 ->
       exists c1, cells st' !! i = Some c1 /\ cell_id c1 = cell_id c0 /\
                  position c1 = position c0).
Proof.
  induction selected as [|cell selected IH]; intros st now Hpos Hids.
  - simpl. split_and!; try done.
    + intros s r k Hin. now apply elem_of_nil in Hin.
    + intros i c0 Hi. eauto.
  - destruct (StoreFacts.updateCellByPosition_effect st sheet (pc_row cell)
                (pc_column cell)
                {| u_id := None; u_sheetId := None; u_row := None;
                   u_column := None; u_value := Some (Some "");
                   u_formula := None; u_dataType := Some text;
                   u_formatting := None; u_createdAt := None;
                   u_updatedAt := None |} (now O) Hpos Hids)
      as (st1 & c & Hrun & Hpos1 & Hids1 & Hget & Hcont & Hother & Hplace & _);
      [done|].
    assert (Hstep :
      awaitEach isNaN_Number st sheet (clearCalls (cell :: selected)) now =
      awaitEach isNaN_Number st1 sheet (clearCalls selected)
        (fun i => now (S i))).
    { simpl. unfold awaitCellUpdate, handleCellUpdate. simpl.
      now rewrite clear_body, Hrun. }
    cbv zeta. rewrite Hstep, fmap_cons.
    destruct (IH st1 (fun i => now (S i)) Hpos1 Hids1)
      as (Hpos' & Hids' & Hin' & Hout' & Hplace').
    assert (Hfirst : content <$> getCell st1 sheet (pc_row cell) (pc_column cell)
              = Some (Some "", getCell st sheet (pc_row cell) (pc_column cell)
                                 ≫= cell_formula, text)).
    { rewrite Hget. simpl. rewrite Hcont.
      destruct (getCell st sheet (pc_row cell) (pc_column cell)) as [c0|];
        [|done].
      simpl. unfold content. done. }
    split_and!; try done.
    + intros s r k Hin.
      destruct (decide ((s, r, k) ∈
                  (fun cell => (sheet, pc_row cell, pc_column cell)) <$> selected))
        as [Hrest|Hrest].
      * rewrite (Hin' _ _ _ Hrest). f_equal. f_equal. f_equal.
        destruct (decide ((s, r, k) = (sheet, pc_row cell, pc_column cell)))
          as [[= -> -> ->]|Hne].
        -- apply (f_equal (fmap (fun x : Content => x.1.2))) in Hfirst.
           rewrite <- option_fmap_compose in Hfirst. simpl in Hfirst.
           destruct (getCell st1 sheet (pc_row cell) (pc_column cell)) as [c1|];
             simpl in *; congruence.
        -- now rewrite (Hother _ _ _ Hne).
      * rewrite (Hout' _ _ _ Hrest).
        apply elem_of_cons in Hin as [[= -> -> ->]|Hin]; [exact Hfirst|done].
    + intros s r k Hout. apply not_elem_of_cons in Hout as [Hne Hout].
      rewrite (Hout' _ _ _ Hout). now apply Hother.
    + intros i c0 Hi.
      destruct (Hplace i c0 Hi) as (c1 & Hi1 & Hid1 & Hp1).
      destruct (Hplace' i c1 Hi1) as (c2 & Hi2 & Hid2 & Hp2).
      exists c2. split_and!; congruence.
Qed.

(** What the grid shows for a cell of the sheet, from the cell the
    storage finds there. *)
Lemma getCellValue_getCell (st : Storage) (sheet row col : Z) :
  getCellValue (getCellsBySheet st sheet) row col =
  match getCell st sheet row col with
  | None => ""
  | Some cell =>
      match cell_dataType cell, cell_calculated_value cell with
      | formula, Some v => v
      | _, _ => default "" (cell_value cell)
      end
  end.
Proof.
  unfold getCellValue, getCellsBySheet, getCell.
  rewrite <- StoreFacts.find_in_sheet.
  now destruct (list_find _ (filter _ _)) as [[i c]|].
Qed.

(** X18. The toolbar action [delete] (and the clearing of [cut]) on a
    storage with one cell per position: every selected position of the
    active sheet then holds a cell with the empty string as value and
    the type text, which the grid shows as empty; the cell keeps the
    formula it had, and a position that had no cell gets one. No other
    position changes, on any sheet; the sheet that a selected cell
    names is not used. No cell leaves the storage or changes its id or
    position. Without an active sheet nothing is written. *)
Theorem toolbarDelete_clears (st : Storage) (sheet : Z)
    (selectedCells : list PageCell) (now : nat -> Z) :
  uniquePositions st -> uniqueIds st -> sheet <> 0 ->
  let st' := toolbarDelete isNaN_Number st (Some sheet) selectedCells now in
  uniquePositions st' /\ uniqueIds st' /\
  (forall cell, cell ∈ selectedCells ->
     exists c,
       getCell st' sheet (pc_row cell) (pc_column cell) = Some c /\
       cell_value c = Some "" /\ cell_dataType c = text /\
       cell_formula c =
         getCell st sheet (pc_row cell) (pc_column cell) ≫= cell_formula /\
       getCellValue (getCellsBySheet st' sheet) (pc_row cell) (pc_column cell)
         = "") /\
  (forall s r k,
     (s = sheet ->
      forall cell, cell ∈ selectedCells -> (pc_row cell, pc_column cell) <> (r, k)) ->
     getCell st' s r k = getCell st s r k) /\
  (forall i c0, cells st !! i = Some c0 ->
     exists c1, cells st' !! i = Some c1 /\ cell_id c1 = cell_id c0 /\
                position c1 = position c0) /\
  toolbarDelete isNaN_Number st None selectedCells now = st /\
  toolbarDelete isNaN_Number st (Some 0) selectedCells now = st.
Proof.
  intros Hpos Hids Hsheet st'.
  assert (Hst' : st' = awaitEach isNaN_Number st sheet (clearCalls selectedCells) now).
  { unfold st', toolbarDelete. now rewrite decide_False. }
  destruct (awaitEach_clear sheet selectedCells st now Hpos Hids)
    as (Hpos' & Hids' & Hin & Hout & Hplace).
  rewrite <- Hst' in Hpos', Hids', Hin, Hout, Hplace.
  split_and!; try done.
  - intros cell Hcell.
    assert (Hc : content <$> getCell st' sheet (pc_row cell) (pc_column cell) =
              Some (Some "", getCell st sheet (pc_row cell) (pc_column cell)
                               ≫= cell_formula, text)).
    { apply Hin. apply list_elem_of_fmap. now exists cell. }
    pose proof (getCellValue_getCell st' sheet (pc_row cell) (pc_column cell))
      as Hshown.
    destruct (getCell st' sheet (pc_row cell) (pc_column cell)) as [c|];
      [|done].
    injection Hc as Hv Hf Hd. exists c. split_and!; try done.
    rewrite Hshown, Hd, Hv. done.
  - intros s r k Hfree. apply Hout.
    intros (cell & [= -> -> ->] & Hcell)%list_elem_of_fmap.
    now apply (Hfree eq_refl cell Hcell).
Qed.

End Toolbar.

Lemma toolbarDelete_clears_witness :
  let st' := toolbarDelete (fun _ => true) (sampleStorage 0) (Some 1)
               [ {| pc_row := 1; pc_column := 1; pc_sheetId := 1 |} ]
               (fun i => Z.of_nat i) in
  exists c, getCell st' 1 1 1 = Some c /\ cell_value c = Some "" /\
            cell_dataType c = text.
Proof.
  intros st'.
  destruct (toolbarDelete_clears (fun _ => true) (sampleStorage 0) 1
              [ {| pc_row := 1; pc_column := 1; pc_sheetId := 1 |} ]
              (fun i => Z.of_nat i))
    as (_ & _ & Hcleared & _).
  - exact StoreFacts.sample_uniquePositions.
  - exact StoreFacts.sample_uniqueIds.
  - lia.
  - destruct (Hcleared {| pc_row := 1; pc_column := 1; pc_sheetId := 1 |})
      as (c & Hget & Hv & Hd & _); [left|].
    exists c. split_and!; [exact Hget|exact Hv|exact Hd].
Defined.

(** ** The toolbar: copy and paste through the system clipboard *)

Lemma split_single (sep : ascii) (v : string) :
  sep ∉ list_ascii_of_string v -> split sep v = [v].
Proof.
  induction v as [|ch v IH]; [done|]. simpl. intros Hno.
  apply not_elem_of_cons in Hno as [Hne Hno].
  destruct (Ascii.eqb ch sep) eqn:E; [apply Ascii.eqb_eq in E; congruence|].
  now rewrite IH.
Qed.

Lemma split_append (sep : ascii) (v rest : string) :
  sep ∉ list_ascii_of_string v ->
  split sep (String.append v (String sep rest)) = v :: split sep rest.
Proof.
  induction v as [|ch v IH]; simpl; intros Hno.
  - now rewrite Ascii.eqb_refl.
  - apply not_elem_of_cons in Hno as [Hne Hno].
    destruct (Ascii.eqb ch sep) eqn:E; [apply Ascii.eqb_eq in E; congruence|].
    now rewrite IH.
Qed.

(** Splitting what was joined gives the values back, when no value holds
    the separator. *)
Lemma split_concat (sep : ascii) (vs : list string) :
  vs <> [] -> Forall (fun v => sep ∉ list_ascii_of_string v) vs ->
  split sep (String.concat (String sep EmptyString) vs) = vs.
Proof.
  induction vs as [|v vs IH]; [done|]. intros _ Hall.
  apply Forall_cons in Hall as [Hv Hall].
  destruct vs as [|v' vs].
  - now apply split_single.
  - change (String.concat (String sep EmptyString) (v :: v' :: vs))
      with (String.append v
              (String sep (String.concat (String sep EmptyString) (v' :: vs)))).
    rewrite split_append by done. f_equal. now apply IH.
Qed.

Lemma elem_of_pasteCalls (c : SelectedCell) (text : string) (call : CellUpdateCall) :
  call ∈ pasteCalls c text <->
  exists i value,
    split tab text !! i = Some value /\
    sc_column c + Z.of_nat i <= 26 /\
    call = {| cu_row := sc_row c; cu_column := sc_column c + Z.of_nat i;
              cu_value := value; cu_formula := None |}.
Proof.
  unfold pasteCalls. rewrite list_elem_of_join. split.
  - intros (l & Hcall & Hl).
    apply elem_of_lookup_imap_1 in Hl as (i & value & -> & Hi).
    exists i, value. split; [done|]. cbv zeta in Hcall.
    destruct (sc_column c + Z.of_nat i <=? 26) eqn:Hle;
      [|now apply elem_of_nil in Hcall].
    apply Z.leb_le in Hle. now apply list_elem_of_singleton in Hcall.
  - intros (i & value & Hi & Hle & ->).
    eexists. split; [|now apply elem_of_lookup_imap_2 with (i := i) (x := value)].
    cbv zeta. rewrite (proj2 (Z.leb_le _ _) Hle). left.
Qed.

(** X19. Copying the selected cells with the toolbar and pasting at a
    selected cell: the text on the clipboard is split back into the
    values the cells showed, when none of them holds a tab. The paste
    then writes the value of the i-th selected cell (counted from 0) to
    the row of the selected cell, i columns to its right, whatever row
    and column the copied cell had, and nothing beyond column 26.
    Copying an empty selection writes nothing to the clipboard; pasting
    an empty text writes the empty string to the selected cell. *)
Theorem toolbar_copy_then_paste (cells : list Cell)
    (selectedCells : list PageCell) (c : SelectedCell) :
  selectedCells <> [] ->
  Forall (fun cell =>
            tab ∉ list_ascii_of_string
                    (getCellValue cells (pc_row cell) (pc_column cell)))
         selectedCells ->
  exists text,
    copyText cells selectedCells = Some text /\
    split tab text =
      (fun cell => getCellValue cells (pc_row cell) (pc_column cell))
        <$> selectedCells /\
    (forall call, call ∈ pasteCalls c text <->
       exists i cell,
         selectedCells !! i = Some cell /\
         sc_column c + Z.of_nat i <= 26 /\
         call = {| cu_row := sc_row c; cu_column := sc_column c + Z.of_nat i;
                   cu_value := getCellValue cells (pc_row cell) (pc_column cell);
                   cu_formula := None |}) /\
    copyText cells [] = None /\
    (sc_column c <= 26 ->
     pasteCalls c "" = [ {| cu_row := sc_row c; cu_column := sc_column c;
                            cu_value := ""; cu_formula := None |} ]).
Proof.
  intros Hne Hall.
  assert (Hsplit :
    split tab (String.concat (String tab EmptyString)
                 ((fun cell => getCellValue cells (pc_row cell) (pc_column cell))
                    <$> selectedCells)) =
    (fun cell => getCellValue cells (pc_row cell) (pc_column cell))
      <$> selectedCells).
  { apply split_concat.
    - now destruct selectedCells.
    - now apply Forall_fmap. }
  eexists. split_and!.
  - unfold copyText. destruct selectedCells; [done|reflexivity].
  - exact Hsplit.
  - intros call. rewrite elem_of_pasteCalls, Hsplit. split.
    + intros (i & value & Hi & Hle & ->).
      apply list_lookup_fmap_Some in Hi as (cell & -> & Hi).
      now exists i, cell.
    + intros (i & cell & Hi & Hle & ->). eexists i, _. split; [|done].
      rewrite list_lookup_fmap, Hi. done.
  - done.
  - intros Hle. unfold pasteCalls. simpl. rewrite Z.add_0_r.
    now rewrite (proj2 (Z.leb_le _ _) Hle).
Qed.

Lemma toolbar_copy_then_paste_witness :
  let cells := getCellsBySheet (sampleStorage 0) 1 in
  let selected := [ {| pc_row := 1; pc_column := 1; pc_sheetId := 1 |};
                    {| pc_row := 2; pc_column := 1; pc_sheetId := 1 |} ] in
  exists text,
    copyText cells selected = Some text /\
    split tab text = [getCellValue cells 1 1; getCellValue cells 2 1].
Proof.
  intros cells selected.
  destruct (toolbar_copy_then_paste cells selected
              {| sc_row := 5; sc_column := 25 |})
    as (text & Hcopy & Hsplit & _).
  - done.
  - repeat constructor; vm_compute; intros Hin;
      repeat (apply elem_of_cons in Hin as [Hin|Hin]; [discriminate Hin|]);
      now apply elem_of_nil in Hin.
  - exists text. split; [exact Hcopy|exact Hsplit].
Defined.

(** ** The register form *)

(** X20. The strength of a password: the score is the number of the
    five criteria it meets (8 characters, a lowercase letter, an
    uppercase letter, a digit, one of [@$!%*?&]), the feedback names the
    others in that order, so score and feedback add up to 5. The colour
    is green exactly for the score 4, yellow for 3, orange for 2, and
    red else: also for the score 5 of a password that meets every
    criterion. The form accepts a password that misses at most one
    criterion. *)
Theorem password_strength (password : jsstring) :
  let strength := calculatePasswordStrength password in
  score strength = count_occ Bool.bool_dec (criteria password) true /\
  (score strength + length (feedback strength) = 5)%nat /\
  (feedback strength = [] <-> score strength = 5%nat) /\
  (color strength = "green" <-> score strength = 4%nat) /\
  (color strength = "yellow" <-> score strength = 3%nat) /\
  (color strength = "orange" <-> score strength = 2%nat) /\
  (color strength = "red" <->
     (score strength <= 1)%nat \/ score strength = 5%nat) /\
  (forall username email confirmPassword,
     isFormValid username email password confirmPassword = true <->
     (3 <= length username)%nat /\ 64%N ∈ email /\
     (length (feedback strength) <= 1)%nat /\ password = confirmPassword).
Proof.
  intros strength.
  assert (Hsum : (score strength + length (feedback strength) = 5)%nat).
  { unfold strength, calculatePasswordStrength, check.
    destruct (8 <=? length password)%nat, (regexTest lowercase password),
      (regexTest uppercase password), (regexTest digit password),
      (regexTest special password); reflexivity. }
  split_and!.
  - unfold strength, calculatePasswordStrength, criteria, check.
    destruct (8 <=? length password)%nat, (regexTest lowercase password),
      (regexTest uppercase password), (regexTest digit password),
      (regexTest special password); reflexivity.
  - exact Hsum.
  - destruct (feedback strength); simpl in *; split; intros; try done; lia.
  - unfold strength, calculatePasswordStrength, check.
    destruct (8 <=? length password)%nat, (regexTest lowercase password),
      (regexTest uppercase password), (regexTest digit password),
      (regexTest special password); simpl; split; intros H; try done;
      discriminate H.
  - unfold strength, calculatePasswordStrength, check.
    destruct (8 <=? length password)%nat, (regexTest lowercase password),
      (regexTest uppercase password), (regexTest digit password),
      (regexTest special password); simpl; split; intros H; try done;
      discriminate H.
  - unfold strength, calculatePasswordStrength, check.
    destruct (8 <=? length password)%nat, (regexTest lowercase password),
      (regexTest uppercase password), (regexTest digit password),
      (regexTest special password); simpl; split; intros H; try done;
      discriminate H.
  - unfold strength, calculatePasswordStrength, check.
    destruct (8 <=? length password)%nat, (regexTest lowercase password),
      (regexTest uppercase password), (regexTest digit password),
      (regexTest special password); simpl; split; intros H; try done;
      try discriminate H; try lia; auto.
  - intros username email confirmPassword. unfold isFormValid.
    fold strength. rewrite !andb_true_iff, !bool_decide_eq_true.
    rewrite Nat.leb_le, Nat.leb_le. split.
    + intros (((Hu & He) & Hs) & Hp). split_and!; try done. lia.
    + intros (Hu & He & Hs & Hp). split_and!; try done. lia.
Qed.

End PagesFacts.

(* ===================================================================== *)
(** * The CSV export *)
(* ===================================================================== *)

Module RoutesFacts.
Import Store Grid Routes.

Lemma fold_max_spec (l : list Z) (x : Z) :
  x <= fold_left Z.max l x /\ Forall (fun y => y <= fold_left Z.max l x) l /\
  (fold_left Z.max l x = x \/ fold_left Z.max l x ∈ l).
Proof.
  revert x. induction l as [|a l IH]; intros x; simpl.
  - split_and!; [lia|constructor|now left].
  - destruct (IH (Z.max x a)) as (Hle & Hall & Hin). split_and!.
    + lia.
    + constructor; [lia|exact Hall].
    + destruct Hin as [Heq|Hin]; [|right; now right].
      destruct (Z.max_spec x a) as [[_ Hm]|[_ Hm]]; rewrite Heq, Hm.
      * right. left.
      * now left.
Qed.

Lemma maxOr0_spec (l : list Z) :
  0 <= maxOr0 l /\ (forall y, y ∈ l -> y <= maxOr0 l) /\
  (maxOr0 l = 0 \/ maxOr0 l ∈ l).
Proof.
  destruct (fold_max_spec l 0) as (H0 & Hall & Hin).
  split_and!; [done| |done].
  intros y Hy. eapply Forall_forall in Hall; [exact Hall|done].
Qed.

(** X21. The CSV export takes the cells of the first sheet of the
    spreadsheet and answers 404 when there is none. It has one line for
    each row from 1 to the largest row of a cell and, on every line,
    one field for each column from 1 to the largest column of a cell;
    the field of a position holds the value of the cell that the
    storage finds there, and is empty when there is no cell or the cell
    has no value. Cells in a row or column below 1 have no field, and a
    sheet without cells gives the empty text. *)
Theorem exportCsv_fields (st : Storage) (firstSheet : Z) (others : list Z) :
  let sheetCells := getCellsBySheet st firstSheet in
  let fields := csvFields sheetCells in
  let maxRow := maxOr0 (cell_row <$> sheetCells) in
  let maxCol := maxOr0 (cell_column <$> sheetCells) in
  exportCsv st [] = None /\
  exportCsv st (firstSheet :: others) =
    Some (String.concat (String newline EmptyString)
            (String.concat "," <$> fields)) /\
  (forall c, c ∈ sheetCells -> cell_row c <= maxRow /\ cell_column c <= maxCol) /\
  (maxRow = 0 \/ exists c, c ∈ sheetCells /\ cell_row c = maxRow) /\
  (maxCol = 0 \/ exists c, c ∈ sheetCells /\ cell_column c = maxCol) /\
  Z.of_nat (length fields) = maxRow /\
  (forall line, line ∈ fields -> Z.of_nat (length line) = maxCol) /\
  (forall row col, 1 <= row <= maxRow -> 1 <= col <= maxCol ->
     fields !! Z.to_nat (row - 1) ≫= (fun line => line !! Z.to_nat (col - 1)) =
     Some (default "" (getCell st firstSheet row col ≫= cell_value))) /\
  (sheetCells = [] -> exportCsv st (firstSheet :: others) = Some "").
Proof.
  intros sheetCells fields maxRow maxCol.
  destruct (maxOr0_spec (cell_row <$> sheetCells)) as (Hr0 & Hrle & Hrin).
  destruct (maxOr0_spec (cell_column <$> sheetCells)) as (Hc0 & Hcle & Hcin).
  fold maxRow in Hr0, Hrle, Hrin. fold maxCol in Hc0, Hcle, Hcin.
  split_and!.
  - done.
  - done.
  - intros c Hc. split.
    + apply Hrle, list_elem_of_fmap. now exists c.
    + apply Hcle, list_elem_of_fmap. now exists c.
  - destruct Hrin as [?|(c & ? & ?)%list_elem_of_fmap]; [now left|right].
    now exists c.
  - destruct Hcin as [?|(c & ? & ?)%list_elem_of_fmap]; [now left|right].
    now exists c.
  - unfold fields, csvFields. fold maxRow. rewrite length_fmap, length_seqZ. lia.
  - intros line. unfold fields, csvFields. fold maxRow maxCol.
    intros (row & -> & _)%list_elem_of_fmap.
    rewrite length_fmap, length_seqZ. lia.
  - intros row col Hrow Hcol. unfold fields, csvFields. fold maxRow maxCol.
    rewrite list_lookup_fmap, lookup_seqZ_lt by lia. simpl.
    rewrite list_lookup_fmap, lookup_seqZ_lt by lia. simpl.
    rewrite !Z2Nat.id by lia.
    replace (1 + (row - 1)) with row by lia.
    replace (1 + (col - 1)) with col by lia.
    unfold findCell, sheetCells, getCellsBySheet, getCell.
    now rewrite StoreFacts.find_in_sheet.
  - intros Hnone. unfold exportCsv, csvText, csvFields. fold sheetCells.
    now rewrite Hnone.
Qed.

End RoutesFacts.
